(** * moveit_grasps: the grasp filter

    A shallow embedding of [src/src/grasp_filter.cpp] (class
    [moveit_grasps::GraspFilter]) and the properties of its two filtering
    stages and of the final selection.

    Conventions of the embedding.
    - A C++ [double] that is only stored or handed on (a position, a
      joint value, a timeout) is a real number ([R]).  Where the rounding
      of [double] arithmetic decides the result, the arithmetic is
      binary64: the work split of [filterGraspsHelper] uses correctly
      rounded operations on rationals (module [Double]), and the yaw angle
      of [chooseBestGrasp] is computed on [Binary64.double] values, which
      also has the infinities and NaN.  The function [asin] of the C
      library is a collaborator, like the rest of what the file calls.
    - A [std::vector] is a [list]; an iterator into it is its offset from
      [begin()].
    - Reference parameters that a function writes ([filtered_grasps],
      [possible_grasps], [chosen]) are arguments and results.
    - The members of [GraspFilter] and the sequence of console messages and
      visual-tools calls form the record [GraspFilter], threaded through
      the member functions.  The member [visual_tools_] itself is not part
      of the record: the object is taken to have been constructed with a
      valid visual-tools pointer, and the calls made through it are events.
    - MoveIt, ROS and the kinematics plugin are collaborators outside the
      repository; they are the fields of the class [Collaborators].  The
      calls into them are functions of their arguments: [searchPositionIK]
      and [getSolverInstance] are const members called through pointers to
      const.
    - A call whose behaviour C++ leaves undefined (a null pointer
      dereferenced, a vector read past its end) has the outcome
      [Undefined]; every other call [Returns] its results.
    - The IK threads share only the result vector, to which each appends
      under the lock; [join_all] runs them one after the other in creation
      order, one of the schedules the lock admits.

    The file has four parts: the program, the vocabulary in which its
    properties are stated, a test bench of concrete collaborators, and the
    properties with their proofs, first in general, then on the bench. *)

From Stdlib Require Import Ascii String Bool Arith ZArith QArith Qround Qabs Qpower Qreals Reals.
From Stdlib Require Import Lia Lra Psatz List.
From Equations.Prop Require Import Equations Logic.
Import ListNotations.

Close Scope R_scope.
Close Scope Q_scope.
Open Scope nat_scope.

Set Implicit Arguments.

(** ** Binary64 arithmetic

    The value of a finite [double] is a rational number.  IEEE 754 division
    and multiplication return the exact result rounded to the nearest
    number with a 53-bit significand, ties to the even significand.  The
    exponent range is not modelled: the work split only meets values between
    1 and the number of candidates. *)

Module Double.
Local Open Scope Q_scope.

(** The integer nearest to [x], the even one at a tie. *)
Definition nearest_even (x : Q) : Z :=
  let f := Qfloor x in
  match Qcompare (x - inject_Z f) (1 # 2) with
  | Lt => f
  | Gt => (f + 1)%Z
  | Eq => if Z.even f then f else (f + 1)%Z
  end.

(** The binary exponent of [x > 0]: the [e] with [2^e <= x < 2^(e+1)]. *)
Definition exponent (x : Q) : Z :=
  let e := (Z.log2 (Qnum x) - Z.log2 (Zpos (Qden x)))%Z in
  if Qle_bool (2 ^ e) x then e else (e - 1)%Z.

(** Rounding to 53 significant bits. *)
Definition round (x : Q) : Q :=
  match Qcompare x 0 with
  | Eq => 0
  | Gt => let s := 2 ^ (52 - exponent x) in
          inject_Z (nearest_even (x * s)) / s
  | Lt => let s := 2 ^ (52 - exponent (- x)) in
          - (inject_Z (nearest_even (- x * s)) / s)
  end.

Definition of_nat (n : nat) : Q := round (inject_Z (Z.of_nat n)).   (* double(n) *)
Definition div (a b : Q) : Q := round (a / b).
Definition mul (a b : Q) : Q := round (a * b).
Definition ceil (a : Q) : Z := Qceiling a.         (* ceil, then conversion to int *)
End Double.

(** ** The [double] values of the selection

    [chooseBestGrasp] computes with the orientation of a grasp.  There a
    [double] is a finite number, an infinity or a NaN, and every
    multiplication and subtraction returns the exact result rounded to
    binary64: to the nearest number with a 53-bit significand, ties to the
    even significand, with gradual underflow below 2^-1022 and overflow to
    an infinity from 2^1024 on.  Each operation is rounded on its own (no
    fused multiply-add).  The sign of a zero is not kept: the selection
    only multiplies, subtracts and compares, which do not tell the two
    zeros apart. *)

Module Binary64.
Local Open Scope Q_scope.

Inductive double :=
| Finite (q : Q)
| Infinity (negative : bool)
| NaN.

(** The distance between neighbouring [double] values around [x > 0]. *)
Definition quantum (x : Q) : Q := 2 ^ (Z.max (Double.exponent x) (-1022) - 52).

(** [x > 0] rounded to a multiple of its quantum. *)
Definition round_positive (x : Q) : Q :=
  inject_Z (Double.nearest_even (x / quantum x)) * quantum x.

Definition round (x : Q) : double :=
  match Qcompare x 0 with
  | Eq => Finite 0
  | Gt => let r := round_positive x in
          if Qle_bool (2 ^ 1024) r then Infinity false else Finite r
  | Lt => let r := round_positive (- x) in
          if Qle_bool (2 ^ 1024) r then Infinity true else Finite (- r)
  end.

(** [a * b] *)
Definition mul (a b : double) : double :=
  match a, b with
  | NaN, _ | _, NaN => NaN
  | Finite x, Finite y => round (x * y)
  | Infinity s, Finite y | Finite y, Infinity s =>
      match Qcompare y 0 with
      | Eq => NaN
      | Gt => Infinity s
      | Lt => Infinity (negb s)
      end
  | Infinity s, Infinity s' => Infinity (xorb s s')
  end.

(** [a - b] *)
Definition sub (a b : double) : double :=
  match a, b with
  | NaN, _ | _, NaN => NaN
  | Finite x, Finite y => round (x - y)
  | Infinity s, Finite _ => Infinity s
  | Finite _, Infinity s => Infinity (negb s)
  | Infinity s, Infinity s' => if Bool.eqb s s' then NaN else Infinity s
  end.

(** [a > b]: false when one of the two is a NaN. *)
Definition gt (a b : double) : bool :=
  match a, b with
  | NaN, _ | _, NaN => false
  | Finite x, Finite y => negb (Qle_bool x y)
  | Infinity s, Finite _ => negb s
  | Finite _, Infinity s => s
  | Infinity s, Infinity s' => negb s && s'
  end.

Definition is_nan (a : double) : bool :=
  match a with
  | NaN => true
  | _ => false
  end.

(** [a <= b]: false when one of the two is a NaN. *)
Definition le (a b : double) : bool :=
  negb (is_nan a) && negb (is_nan b) && negb (gt a b).

(** The [double] nearest to a rational number. *)
Definition of_Q (x : Q) : double := round x.

(** The value of a finite [double], zero for the others. *)
Definition value (a : double) : Q :=
  match a with
  | Finite q => q
  | _ => 0
  end.
End Binary64.

(** ** Messages *)

Module geometry_msgs.
Record Point := { x : R; y : R; z : R }.
(** The fields [x], [y], [z], [w] of a quaternion; the prefix keeps them
    apart from those of [Point]. *)
Record Quaternion := {
  qx : Binary64.double; qy : Binary64.double; qz : Binary64.double; qw : Binary64.double
}.
Record Pose := { position : Point; orientation : Quaternion }.
Record PoseStamped := { frame_id : string; pose : Pose }.
End geometry_msgs.

Module moveit_msgs.
(** [moveit_msgs::Grasp], with the fields this file reads. *)
Record Grasp := {
  id : string;
  grasp_pose : geometry_msgs.PoseStamped;
  grasp_quality : Binary64.double
}.

(** [moveit_msgs::MoveItErrorCodes::val] is an [int32]; the three codes
    the filter tests for. *)
Module MoveItErrorCodes.
Definition SUCCESS : Z := 1.
Definition TIMED_OUT : Z := -6.
Definition NO_IK_SOLUTION : Z := -31.
End MoveItErrorCodes.
End moveit_msgs.

(** [robot_model::JointModelGroup], as far as the filter queries it. *)
Record JointModelGroup (Solver : Type) := {
  getName : string;
  getDefaultIKTimeout : R;
  getVariableCount : nat;
  getAttachedEndEffectorNames : list string;
  getSolverInstance : option Solver;       (* a null pointer is [None] *)
  getEndEffectorParentGroup : string * string
}.

(** [struct GraspSolution] *)
Record GraspSolution := {
  grasp_ : moveit_msgs.Grasp;
  grasp_ik_solution_ : list R;
  pregrasp_ik_solution_ : list R
}.

(** ** Console output and visual-tools calls, in the order issued

    The ROS_ERROR, ROS_WARN and ROS_INFO lines of the file, each named by
    its text, with the numbers it prints; ROS_DEBUG lines are left out. *)

Inductive Message :=
| Unable_to_filter_grasps_because_vector_is_empty
| No_end_effectors_attached_to_this_arm
| More_than_one_end_effectors_attached_to_this_arm
| IK_filter_unable_to_find_any_valid_grasps_Rerunning_in_verbose_mode
| Using_only_threads (num_threads : nat)
| Filtering_possible_grasps_with_threads (num_threads : nat)
| No_kinematic_solver_found
| Grasp_filter_complete_found_IK_solutions_out_of (found total : nat)
| IK_solution_error_for_pregrasp (error_code : Z)
| Not_filtering_pregrasp
| IK_solution_error (error_code : Z)
| Unable_to_filter_grasps_for_collision_because_none_were_passed_in
| Grasp_filter_failed
| All_grasps_were_filtered_due_to_collision_possible_error
| Rerunning_again_in_debug_mode
| Grasp_solution_colliding
| After_collision_checking_grasps_were_found_valid (n : nat).

Inductive Event :=
| ROS_ERROR (m : Message)
| ROS_WARN (m : Message)
| ROS_INFO (m : Message)
| cout_endl
| publishEEMarkers (p : geometry_msgs.Pose)
| publishRobotState_RED
| publishContactPoints
| hideRobot
| sleep (seconds : R).

(** ** Calls that may have no defined behaviour

    Dereferencing a null solver or group pointer and reading a vector
    element that does not exist are undefined in C++: such a run has no
    result. *)

Inductive Outcome (A : Type) :=
| Returns (a : A)
| Undefined.
Arguments Undefined {A}.

Definition bind {A B} (o : Outcome A) (k : A -> Outcome B) : Outcome B :=
  match o with
  | Returns a => k a
  | Undefined => Undefined
  end.

Notation "x <- o ;; k" := (bind o (fun x => k))
  (at level 61, o at next level, right associativity).
Notation "' p <- o ;; k" := (bind o (fun x => let 'p := x in k))
  (at level 61, p pattern, o at next level, right associativity).

(** [*p] for a pointer [p], and [v[i]] for a vector [v]. *)
Definition deref {A} (p : option A) : Outcome A :=
  match p with
  | Some a => Returns a
  | None => Undefined
  end.

Definition at_index {A} (v : list A) (i : Z) : Outcome A :=
  if (i <? 0)%Z then Undefined else deref (nth_error v (Z.to_nat i)).

(** ** The collaborators *)

Class Collaborators := {
  (* kinematics::KinematicsBase *)
  Solver : Type;
  getBaseFrame : Solver -> string;
  searchPositionIK :
    Solver -> geometry_msgs.Pose -> list R (* ik_seed_state *) -> R (* timeout *) ->
    list R (* solution *) * Z (* error_code.val *);
  (* Eigen::Affine3d and the pose conversions *)
  Affine3d : Type;
  poseMsgToEigen : geometry_msgs.Pose -> Affine3d;
  poseEigenToMsg : Affine3d -> geometry_msgs.Pose;
  compose : Affine3d -> Affine3d -> Affine3d;
  inverse : Affine3d -> Affine3d;
  unassigned_Affine3d : Affine3d;   (* what a declared, never assigned Eigen::Affine3d holds *)
  (* moveit::core::RobotState, RobotModel and Transforms *)
  RobotState : Type;
  LinkModel : Type;
  getModelFrame : RobotState -> string;
  getLinkModel : RobotState -> string -> option LinkModel;
  getGlobalLinkTransform : RobotState -> LinkModel -> Affine3d;
  getJointModelGroup : JointModelGroup Solver -> string -> option (JointModelGroup Solver);
      (* arm_jmg->getParentModel().getJointModelGroup(name); null is [None] *)
  sameFrame : string -> string -> bool;
  setJointGroupPositions : RobotState -> JointModelGroup Solver -> list R -> RobotState;
  (* planning scene *)
  PlanningSceneMonitor : Type;
  PlanningScene : Type;
  clone : PlanningSceneMonitor -> PlanningScene;
  isStateColliding : PlanningScene -> RobotState -> string -> bool (* verbose *) -> bool;
  (* Grasps::getPreGraspPose *)
  getPreGraspPose : moveit_msgs.Grasp -> string -> geometry_msgs.PoseStamped;
  (* boost::thread::hardware_concurrency() *)
  hardware_concurrency : nat;
  (* asin of the C library *)
  asin : Binary64.double -> Binary64.double
}.

(** ** The object *)

Record GraspFilter `{Collaborators} := {
  robot_state_ : RobotState;
  kin_solvers_ : string -> list (option Solver);  (* std::map: an absent key reads as an empty vector *)
  solver_timeout_ : R;
  num_variables_ : nat;
  console : list Event
}.

Section Filter.
Context `{C : Collaborators}.

Definition emit (es : list Event) (gf : GraspFilter) : GraspFilter :=
  {| robot_state_ := robot_state_ gf;
     kin_solvers_ := kin_solvers_ gf;
     solver_timeout_ := solver_timeout_ gf;
     num_variables_ := num_variables_ gf;
     console := console gf ++ es |}.

Definition set_robot_state_ (rs : RobotState) (gf : GraspFilter) : GraspFilter :=
  {| robot_state_ := rs;
     kin_solvers_ := kin_solvers_ gf;
     solver_timeout_ := solver_timeout_ gf;
     num_variables_ := num_variables_ gf;
     console := console gf |}.

Definition set_kin_solvers_ (name : string) (v : list (option Solver)) (gf : GraspFilter)
    : GraspFilter :=
  {| robot_state_ := robot_state_ gf;
     kin_solvers_ := fun key => if String.eqb key name then v else kin_solvers_ gf key;
     solver_timeout_ := solver_timeout_ gf;
     num_variables_ := num_variables_ gf;
     console := console gf |}.

Definition set_solver_timeout_ (t : R) (gf : GraspFilter) : GraspFilter :=
  {| robot_state_ := robot_state_ gf;
     kin_solvers_ := kin_solvers_ gf;
     solver_timeout_ := t;
     num_variables_ := num_variables_ gf;
     console := console gf |}.

Definition set_num_variables_ (n : nat) (gf : GraspFilter) : GraspFilter :=
  {| robot_state_ := robot_state_ gf;
     kin_solvers_ := kin_solvers_ gf;
     solver_timeout_ := solver_timeout_ gf;
     num_variables_ := n;
     console := console gf |}.

(** ** Selection *)

(** [asin(-2*(pose.orientation.x*pose.orientation.z -
    pose.orientation.w*pose.orientation.y))]: the two products, their
    difference and the product with -2 are [double] operations, and the
    result is what [asin] of the C library returns for it. *)
Definition yall (g : GraspSolution) : Binary64.double :=
  let pose := geometry_msgs.pose (moveit_msgs.grasp_pose (grasp_ g)) in
  let orientation := geometry_msgs.orientation pose in
  asin (Binary64.mul (Binary64.Finite (-2))
          (Binary64.sub
             (Binary64.mul (geometry_msgs.qx orientation) (geometry_msgs.qz orientation))
             (Binary64.mul (geometry_msgs.qw orientation) (geometry_msgs.qy orientation)))).

(** The [for] loop of [chooseBestGrasp], from the element under [i] on. *)
Fixpoint chooseBestGrasp_loop (filtered_grasps : list GraspSolution)
    (max_quality : Binary64.double) (chosen : GraspSolution)
    : Binary64.double * GraspSolution :=
  match filtered_grasps with
  | [] => (max_quality, chosen)
  | g :: rest =>
      if false
      then (* METHOD 1 - use score *)
        if Binary64.gt (moveit_msgs.grasp_quality (grasp_ g)) max_quality
        then chooseBestGrasp_loop rest (moveit_msgs.grasp_quality (grasp_ g)) g
        else chooseBestGrasp_loop rest max_quality chosen
      else (* METHOD 2 - use yall angle *)
        let yall := yall g in
        if Binary64.gt yall max_quality
        then chooseBestGrasp_loop rest yall g
        else chooseBestGrasp_loop rest max_quality chosen
  end.

(** The result is the returned flag and the final value of [chosen].  The
    console output of this function is left out. *)
Definition chooseBestGrasp (filtered_grasps : list GraspSolution) (chosen : GraspSolution)
    : bool * GraspSolution :=
  match filtered_grasps with
  | [] => (false, chosen)
  | _ =>
      (* Find max grasp quality *)
      let max_quality := Binary64.Finite (-1) in
      let '(_, chosen) := chooseBestGrasp_loop filtered_grasps max_quality chosen in
      (true, chosen)
  end.

(** ** Stage A: inverse kinematics *)

(** [struct IkThreadStruct].  The reference [filtered_grasps_] and the lock
    are shared by the threads; the shared vector is passed to and returned
    from [filterGraspThread]. *)
Record IkThreadStruct := {
  possible_grasps_ : list moveit_msgs.Grasp;
  link_transform_ : Affine3d;
  grasps_id_start_ : Z;
  grasps_id_end_ : Z;
  kin_solver_ : option Solver;
  filter_pregrasp_ : bool;
  ee_jmg_ : option (JointModelGroup Solver);
  timeout_ : R;
  verbose_ : bool;
  thread_id_ : nat
}.

(** The values [first, first+1, ..., last-1] of an [int] loop variable. *)
Definition int_range (first last : Z) : list Z :=
  map (fun k => (first + Z.of_nat k)%Z) (seq 0 (Z.to_nat (last - first))).

(** Transform current pose to frame of planning group *)
Definition to_planning_frame (link_transform : Affine3d) (p : geometry_msgs.Pose)
    : geometry_msgs.Pose :=
  poseEigenToMsg (compose link_transform (poseMsgToEigen p)).

(** What one pass through the loop body of [filterGraspThread] leaves
    behind: the seed state, the shared result vector and the object. *)
Definition ThreadState : Type := list R * list GraspSolution * GraspFilter.

(** The loop body of [filterGraspThread] for the candidate [i]. *)
Definition filterGraspThread_body (ik_thread_struct : IkThreadStruct) (i : Z)
    (st : ThreadState) : Outcome ThreadState :=
  let '(ik_seed_state, filtered_grasps, gf) := st in
  candidate <- at_index (possible_grasps_ ik_thread_struct) i ;;
  kin_solver <- deref (kin_solver_ ik_thread_struct) ;;
  let ik_pose :=
    to_planning_frame (link_transform_ ik_thread_struct)
                      (geometry_msgs.pose (moveit_msgs.grasp_pose candidate)) in
  (* Debug: display grasp position *)
  let gf := if verbose_ ik_thread_struct
            then emit [publishEEMarkers ik_pose; sleep (1 / 10)%R] gf
            else gf in
  (* Test it with IK *)
  let '(grasp_ik_solution, error_code) :=
    searchPositionIK kin_solver ik_pose ik_seed_state (timeout_ ik_thread_struct) in
  if (error_code =? moveit_msgs.MoveItErrorCodes.SUCCESS)%Z
  then
    (* Copy solution to seed state so that next solution is faster *)
    let ik_seed_state := grasp_ik_solution in
    if filter_pregrasp_ ik_thread_struct
    then
      (* Convert to a pre-grasp *)
      ee_jmg <- deref (ee_jmg_ ik_thread_struct) ;;
      let ee_parent_link_name := snd (getEndEffectorParentGroup ee_jmg) in
      let ik_pose :=
        to_planning_frame (link_transform_ ik_thread_struct)
                          (geometry_msgs.pose (getPreGraspPose candidate ee_parent_link_name)) in
      (* Test it with IK *)
      let '(pregrasp_ik_solution, error_code) :=
        searchPositionIK kin_solver ik_pose ik_seed_state (timeout_ ik_thread_struct) in
      if (error_code =? moveit_msgs.MoveItErrorCodes.NO_IK_SOLUTION)%Z
      then Returns (ik_seed_state, filtered_grasps, gf)               (* continue *)
      else if (error_code =? moveit_msgs.MoveItErrorCodes.TIMED_OUT)%Z
      then Returns (ik_seed_state, filtered_grasps, gf)               (* continue *)
      else if negb (error_code =? moveit_msgs.MoveItErrorCodes.SUCCESS)%Z
      then Returns (ik_seed_state, filtered_grasps,
                    emit [ROS_INFO (IK_solution_error_for_pregrasp error_code)] gf)
      else
        (* Both grasp and pre-grasp have passed, create the solution *)
        Returns (ik_seed_state,
                 filtered_grasps ++ [ {| grasp_ := candidate;
                                         grasp_ik_solution_ := grasp_ik_solution;
                                         pregrasp_ik_solution_ := pregrasp_ik_solution |} ],
                 gf)
    else
      Returns (ik_seed_state,
               filtered_grasps ++ [ {| grasp_ := candidate;
                                       grasp_ik_solution_ := grasp_ik_solution;
                                       pregrasp_ik_solution_ := [] |} ],
               emit [ROS_WARN Not_filtering_pregrasp] gf)
  else if (error_code =? moveit_msgs.MoveItErrorCodes.NO_IK_SOLUTION)%Z
  then Returns (ik_seed_state, filtered_grasps, gf)
  else if (error_code =? moveit_msgs.MoveItErrorCodes.TIMED_OUT)%Z
  then Returns (ik_seed_state, filtered_grasps, gf)
  else Returns (ik_seed_state, filtered_grasps,
                emit [ROS_INFO (IK_solution_error error_code)] gf).

(** The loop of [filterGraspThread] over the values of [i] still to come. *)
Fixpoint filterGraspThread_loop (ik_thread_struct : IkThreadStruct) (ids : list Z)
    (st : ThreadState) : Outcome ThreadState :=
  match ids with
  | [] => Returns st
  | i :: ids' =>
      st' <- filterGraspThread_body ik_thread_struct i st ;;
      filterGraspThread_loop ik_thread_struct ids' st'
  end.

Definition filterGraspThread (ik_thread_struct : IkThreadStruct)
    (filtered_grasps : list GraspSolution) (gf : GraspFilter)
    : Outcome (list GraspSolution * GraspFilter) :=
  (* Seed state - start at zero *)
  let ik_seed_state := repeat 0%R (num_variables_ gf) in
  (* Process the assigned grasps *)
  '(_, filtered_grasps, gf) <-
    filterGraspThread_loop ik_thread_struct
      (int_range (grasps_id_start_ ik_thread_struct) (grasps_id_end_ ik_thread_struct))
      (ik_seed_state, filtered_grasps, gf) ;;
  Returns (filtered_grasps, gf).

(** [(!ik_frame.empty() && ik_frame[0] == '/') ? ik_frame.substr(1) : ik_frame] *)
Definition without_leading_slash (ik_frame : string) : string :=
  match ik_frame with
  | String "/"%char rest => rest
  | _ => ik_frame
  end.

(** Create an ik solver for every thread: [num_threads] more solvers are
    pushed onto [solvers], stopping behind the first null one. *)
Fixpoint load_solvers (arm_jmg : JointModelGroup Solver) (num_threads : nat)
    (solvers : list (option Solver)) : bool * list (option Solver) :=
  match num_threads with
  | 0 => (true, solvers)
  | S rest =>
      let pushed := getSolverInstance arm_jmg in
      let solvers := solvers ++ [pushed] in
      (* Test to make sure we have a valid kinematics solver *)
      match pushed with
      | None => (false, solvers)
      | Some _ => load_solvers arm_jmg rest solvers
      end
  end.

(** [if (grasps_id_end >= possible_grasps.size()) grasps_id_end = possible_grasps.size();]
    The comparison converts the [int] to [std::size_t], so a negative
    [grasps_id_end] compares as a huge value. *)
Definition limit_to_size (grasps_id_end : Z) (size : nat) : Z :=
  if ((grasps_id_end <? 0) || (Z.of_nat size <=? grasps_id_end))%Z
  then Z.of_nat size
  else grasps_id_end.

(** Split up the work between threads: the passes [i, i+1, ...] of the loop
    that creates the threads, [count] of them still to come.  The result is
    the argument of each thread created, in creation order. *)
Fixpoint create_threads (possible_grasps : list moveit_msgs.Grasp)
    (link_transform : Affine3d) (solvers : list (option Solver))
    (filter_pregrasp : bool) (ee_jmg : option (JointModelGroup Solver))
    (timeout : R) (verbose : bool) (num_grasps_per_thread : Q)
    (count i : nat) (grasps_id_end : Z) : Outcome (list IkThreadStruct) :=
  match count with
  | 0 => Returns []
  | S count' =>
      let grasps_id_start := grasps_id_end in
      let grasps_id_end :=
        Double.ceil (Double.mul num_grasps_per_thread (Double.of_nat (i + 1))) in
      let grasps_id_end := limit_to_size grasps_id_end (length possible_grasps) in
      kin_solver <- at_index solvers (Z.of_nat i) ;;
      let tc := {| possible_grasps_ := possible_grasps;
                   link_transform_ := link_transform;
                   grasps_id_start_ := grasps_id_start;
                   grasps_id_end_ := grasps_id_end;
                   kin_solver_ := kin_solver;
                   filter_pregrasp_ := filter_pregrasp;
                   ee_jmg_ := ee_jmg;
                   timeout_ := timeout;
                   verbose_ := verbose;
                   thread_id_ := i |} in
      threads <- create_threads possible_grasps link_transform solvers filter_pregrasp
                                ee_jmg timeout verbose num_grasps_per_thread
                                count' (S i) grasps_id_end ;;
      Returns (tc :: threads)
  end.

(** [bgroup.join_all()]: every thread runs to its end.  The threads only
    share the result vector, to which each appends under the lock; here
    they run one after the other in creation order, which is one of the
    admissible schedules. *)
Fixpoint join_all (threads : list IkThreadStruct)
    (filtered_grasps : list GraspSolution) (gf : GraspFilter)
    : Outcome (list GraspSolution * GraspFilter) :=
  match threads with
  | [] => Returns (filtered_grasps, gf)
  | tc :: threads' =>
      '(filtered_grasps, gf) <- filterGraspThread tc filtered_grasps gf ;;
      join_all threads' filtered_grasps gf
  end.

Definition filterGraspsHelper (possible_grasps : list moveit_msgs.Grasp)
    (filtered_grasps : list GraspSolution) (filter_pregrasp : bool)
    (ee_jmg : option (JointModelGroup Solver)) (arm_jmg : JointModelGroup Solver)
    (verbose : bool) (gf : GraspFilter)
    : Outcome (bool * list GraspSolution * GraspFilter) :=
  (* how many cores does this computer have and how many do we need? *)
  let num_threads := hardware_concurrency in
  let num_threads := if length possible_grasps <? num_threads
                     then length possible_grasps else num_threads in
  (* Debug *)
  let '(num_threads, gf) :=
    if verbose then (1, emit [ROS_WARN (Using_only_threads 1)] gf) else (num_threads, gf) in
  let gf := emit [ROS_INFO (Filtering_possible_grasps_with_threads num_threads)] gf in
  (* Load kinematic solvers if not already loaded *)
  let '(loaded, gf) :=
    if negb (length (kin_solvers_ gf (getName arm_jmg)) =? num_threads)
    then let '(ok, solvers) := load_solvers arm_jmg num_threads [] in
         (ok, set_kin_solvers_ (getName arm_jmg) solvers gf)
    else (true, gf) in
  if negb loaded
  then Returns (false, filtered_grasps, emit [ROS_ERROR No_kinematic_solver_found] gf)
  else
    (* bring the pose to the frame of the IK solver *)
    first_solver <- at_index (kin_solvers_ gf (getName arm_jmg)) 0 ;;
    first_solver <- deref first_solver ;;
    let ik_frame := getBaseFrame first_solver in
    let link_transform :=
      if negb (sameFrame ik_frame (getModelFrame (robot_state_ gf)))
      then match getLinkModel (robot_state_ gf) (without_leading_slash ik_frame) with
           | None => None
           | Some lm => Some (inverse (getGlobalLinkTransform (robot_state_ gf) lm))
           end
      else Some unassigned_Affine3d in
    match link_transform with
    | None => Returns (false, filtered_grasps, gf)         (* if (!lm) return false; *)
    | Some link_transform =>
        (* split up the work between threads *)
        let num_grasps_per_thread :=
          Double.div (Double.of_nat (length possible_grasps)) (Double.of_nat num_threads) in
        threads <- create_threads possible_grasps link_transform
                                  (kin_solvers_ gf (getName arm_jmg)) filter_pregrasp ee_jmg
                                  (solver_timeout_ gf) verbose num_grasps_per_thread
                                  num_threads 0 0 ;;
        (* wait for all threads to finish *)
        '(filtered_grasps, gf) <- join_all threads filtered_grasps gf ;;
        let gf := emit [ROS_INFO (Grasp_filter_complete_found_IK_solutions_out_of
                                    (length filtered_grasps) (length possible_grasps))] gf in
        Returns (true, filtered_grasps, gf)
    end.

Definition filterGrasps (possible_grasps : list moveit_msgs.Grasp)
    (filtered_grasps : list GraspSolution) (filter_pregrasp : bool)
    (arm_jmg : JointModelGroup Solver) (gf : GraspFilter)
    : Outcome (bool * list GraspSolution * GraspFilter) :=
  (* Error check *)
  match possible_grasps with
  | [] => Returns (false, filtered_grasps,
                   emit [ROS_ERROR Unable_to_filter_grasps_because_vector_is_empty] gf)
  | _ =>
      (* Get the solver timeout from kinematics.yaml *)
      let gf := set_solver_timeout_ (getDefaultIKTimeout arm_jmg) gf in
      (* Choose how many degrees of freedom *)
      let gf := set_num_variables_ (getVariableCount arm_jmg) gf in
      (* Get the end effector joint model group *)
      if length (getAttachedEndEffectorNames arm_jmg) =? 0
      then Returns (false, filtered_grasps,
                    emit [ROS_ERROR No_end_effectors_attached_to_this_arm] gf)
      else if 1 <? length (getAttachedEndEffectorNames arm_jmg)
      then Returns (false, filtered_grasps,
                    emit [ROS_ERROR More_than_one_end_effectors_attached_to_this_arm] gf)
      else
        ee_name <- at_index (getAttachedEndEffectorNames arm_jmg) 0 ;;
        let ee_jmg := getJointModelGroup arm_jmg ee_name in
        (* Make sure solution starts empty *)
        let filtered_grasps := [] in
        (* Try to filter grasps not in verbose mode *)
        let verbose := false in
        '(result, filtered_grasps, gf) <-
          filterGraspsHelper possible_grasps filtered_grasps filter_pregrasp
                             ee_jmg arm_jmg verbose gf ;;
        if negb result || (length filtered_grasps =? 0)
        then
          let gf := emit [ROS_ERROR
                            IK_filter_unable_to_find_any_valid_grasps_Rerunning_in_verbose_mode]
                         gf in
          let verbose := true in
          filterGraspsHelper possible_grasps filtered_grasps filter_pregrasp
                             ee_jmg arm_jmg verbose gf
        else Returns (result, filtered_grasps, gf)
  end.

(** ** Stage B: collision pruning *)

(** [std::vector::erase] at offset [pos]: the elements behind [pos] move one
    place to the front. *)
Definition erase {A} (v : list A) (pos : nat) : list A :=
  firstn pos v ++ skipn (S pos) v.

Lemma erase_length {A} (v : list A) (pos : nat) (a : A) :
  nth_error v pos = Some a -> S (length (erase v pos)) = length v.
Proof.
  intros Hn. assert (pos < length v) by (apply nth_error_Some; congruence).
  unfold erase. rewrite length_app, length_firstn, length_skipn. lia.
Qed.

(** The [for] loop of [filterGraspsInCollisionHelper].  [grasp_it] is the
    offset of the iterator; the loop ends when it reaches [end()], that is
    when there is no element at that offset.  After [erase] the iterator is
    used as it is and so designates the element that moved into the gap. *)
Equations? collision_loop (cloned_scene : PlanningScene)
    (arm_jmg : JointModelGroup Solver) (verbose : bool)
    (gf : GraspFilter) (possible_grasps : list GraspSolution) (grasp_it : nat)
    : GraspFilter * list GraspSolution
    by wf (length possible_grasps - grasp_it) lt :=
  collision_loop cloned_scene arm_jmg verbose gf possible_grasps grasp_it
    with inspect (nth_error possible_grasps grasp_it) := {
    | exist _ None _ => (gf, possible_grasps)
    | exist _ (Some g) Hg =>
        (* Check grasp ik solution *)
        let gf1 := set_robot_state_
                     (setJointGroupPositions (robot_state_ gf) arm_jmg (grasp_ik_solution_ g)) gf in
        if isStateColliding cloned_scene (robot_state_ gf1) (getName arm_jmg) verbose
        then
          (* Remove this grasp *)
          let gf2 := if verbose
                     then emit [cout_endl; ROS_INFO Grasp_solution_colliding;
                                publishRobotState_RED; publishContactPoints; sleep 4%R] gf1
                     else gf1 in
          collision_loop cloned_scene arm_jmg verbose gf2 (erase possible_grasps grasp_it) grasp_it
        else
          (* move to next grasp *)
          collision_loop cloned_scene arm_jmg verbose gf1 possible_grasps (S grasp_it) }.
Proof.
  - pose proof (erase_length possible_grasps grasp_it Hg).
    assert (grasp_it < length possible_grasps) by (apply nth_error_Some; congruence).
    lia.
  - assert (grasp_it < length possible_grasps) by (apply nth_error_Some; congruence).
    lia.
Qed.

Definition filterGraspsInCollisionHelper (possible_grasps : list GraspSolution)
    (planning_scene_monitor : PlanningSceneMonitor)
    (arm_jmg : JointModelGroup Solver) (robot_state : RobotState) (verbose : bool)
    (gf : GraspFilter) : bool * list GraspSolution * GraspFilter :=
  (* Copy the current state positions *)
  let gf := set_robot_state_ robot_state gf in
  (* Copy planning scene that is locked *)
  let cloned_scene := clone planning_scene_monitor in
  (* Start checking all grasps *)
  let '(gf, possible_grasps) :=
    collision_loop cloned_scene arm_jmg verbose gf possible_grasps 0 in
  let gf := emit [ROS_INFO (After_collision_checking_grasps_were_found_valid
                              (length possible_grasps))] gf in
  let gf := if verbose then emit [hideRobot] gf else gf in
  (true, possible_grasps, gf).

Definition filterGraspsInCollision (possible_grasps : list GraspSolution)
    (planning_scene_monitor : PlanningSceneMonitor)
    (arm_jmg : JointModelGroup Solver) (robot_state : RobotState) (verbose : bool)
    (gf : GraspFilter) : bool * list GraspSolution * GraspFilter :=
  (* Error check *)
  if Nat.eqb (length possible_grasps) 0
  then (false, possible_grasps,
        emit [ROS_ERROR Unable_to_filter_grasps_for_collision_because_none_were_passed_in] gf)
  else
    let original_possible_grasps := possible_grasps in
    (* Initial run *)
    let '(ok, possible_grasps, gf) :=
      filterGraspsInCollisionHelper possible_grasps planning_scene_monitor arm_jmg
                                    robot_state verbose gf in
    if negb ok
    then (false, possible_grasps, emit [ROS_ERROR Grasp_filter_failed] gf)
    else
      (* Check if enough passed. If not, go to debug mode if we weren't
         already in verbose mode *)
      if Nat.eqb (length possible_grasps) 0 && negb verbose
      then
        let gf := emit [cout_endl; cout_endl; cout_endl;
                        ROS_WARN All_grasps_were_filtered_due_to_collision_possible_error;
                        ROS_WARN Rerunning_again_in_debug_mode] gf in
        let '(ok, _, gf) :=
          filterGraspsInCollisionHelper original_possible_grasps planning_scene_monitor
                                        arm_jmg robot_state true gf in
        if negb ok
        then (false, possible_grasps, emit [ROS_ERROR Grasp_filter_failed] gf)
        else (true, possible_grasps, gf)
      else (true, possible_grasps, gf).

(** ** The constructor

    The robot state is copied and the map of solvers starts empty.
    [solver_timeout_] and [num_variables_] have no initialiser: they hold
    whatever the memory held, here the two last arguments. *)
Definition GraspFilter_ (robot_state : RobotState)
    (solver_timeout : R) (num_variables : nat) : GraspFilter :=
  {| robot_state_ := robot_state;
     kin_solvers_ := fun _ => [];
     solver_timeout_ := solver_timeout;
     num_variables_ := num_variables;
     console := [] |}.

End Filter.

(** * The vocabulary of the properties

    Nothing below is part of the program: these are the notions the
    properties are stated with. *)

Section Vocabulary.
Context `{C : Collaborators}.

(** One iteration of the loop body on the solution [g]: the scratch state
    receives the grasp joint values and is tested. *)
Definition check_grasp (cloned_scene : PlanningScene) (arm_jmg : JointModelGroup Solver)
    (verbose : bool) (gf : GraspFilter) (g : GraspSolution) : bool * GraspFilter :=
  let gf1 := set_robot_state_
               (setJointGroupPositions (robot_state_ gf) arm_jmg (grasp_ik_solution_ g)) gf in
  if isStateColliding cloned_scene (robot_state_ gf1) (getName arm_jmg) verbose
  then (true, if verbose
              then emit [cout_endl; ROS_INFO Grasp_solution_colliding;
                         publishRobotState_RED; publishContactPoints; sleep 4%R] gf1
              else gf1)
  else (false, gf1).

(** The loop as a left-to-right pass over the elements not yet visited. *)
Fixpoint prune (cloned_scene : PlanningScene) (arm_jmg : JointModelGroup Solver)
    (verbose : bool) (gf : GraspFilter) (l : list GraspSolution)
    : GraspFilter * list GraspSolution :=
  match l with
  | [] => (gf, [])
  | g :: l' =>
      let '(hit, gf') := check_grasp cloned_scene arm_jmg verbose gf g in
      let '(gf'', kept) := prune cloned_scene arm_jmg verbose gf' l' in
      (gf'', if hit then kept else g :: kept)
  end.

(** The joint values of the arm group are all overwritten by
    [setJointGroupPositions]: what an earlier call wrote is gone. *)
Definition overwrites (arm_jmg : JointModelGroup Solver) : Prop :=
  forall rs a b,
    setJointGroupPositions (setJointGroupPositions rs arm_jmg a) arm_jmg b =
    setJointGroupPositions rs arm_jmg b.

(** The grasp joint values of [g], applied to [robot_state], collide. *)
Definition grasp_in_collision (planning_scene_monitor : PlanningSceneMonitor)
    (arm_jmg : JointModelGroup Solver) (robot_state : RobotState) (verbose : bool)
    (g : GraspSolution) : bool :=
  isStateColliding (clone planning_scene_monitor)
                   (setJointGroupPositions robot_state arm_jmg (grasp_ik_solution_ g))
                   (getName arm_jmg) verbose.

Definition with_pregrasp_ik_solution_ (f : GraspSolution -> list R) (g : GraspSolution)
    : GraspSolution :=
  {| grasp_ := grasp_ g;
     grasp_ik_solution_ := grasp_ik_solution_ g;
     pregrasp_ik_solution_ := f g |}.

(** The passes of [filterGraspsInCollisionHelper] a console shows: each
    pass ends with one "After collision checking ..." line. *)
Definition is_pass_report (e : Event) : bool :=
  match e with
  | ROS_INFO (After_collision_checking_grasps_were_found_valid _) => true
  | _ => false
  end.

Definition pruning_passes (c : list Event) : nat := length (filter is_pass_report c).

(** The five lines printed before the second pass. *)
Definition rerun_announcement : list Event :=
  [cout_endl; cout_endl; cout_endl;
   ROS_WARN All_grasps_were_filtered_due_to_collision_possible_error;
   ROS_WARN Rerunning_again_in_debug_mode].

Definition with_grasp_quality (f : GraspSolution -> Binary64.double) (g : GraspSolution)
    : GraspSolution :=
  {| grasp_ := {| moveit_msgs.id := moveit_msgs.id (grasp_ g);
                  moveit_msgs.grasp_pose := moveit_msgs.grasp_pose (grasp_ g);
                  moveit_msgs.grasp_quality := f g |};
     grasp_ik_solution_ := grasp_ik_solution_ g;
     pregrasp_ik_solution_ := pregrasp_ik_solution_ g |}.

Definition range_of (tc : IkThreadStruct) : Z * Z :=
  (grasps_id_start_ tc, grasps_id_end_ tc).

(** The solution built from a candidate, with the joint values found. *)
Definition solution_of (candidate : moveit_msgs.Grasp) (grasp_ik pregrasp_ik : list R)
    : GraspSolution :=
  {| grasp_ := candidate;
     grasp_ik_solution_ := grasp_ik;
     pregrasp_ik_solution_ := pregrasp_ik |}.

(** The two IK calls for a candidate, as [filterGraspThread] makes them:
    the grasp pose with the current seed, the pre-grasp pose with the
    grasp solution as seed. *)
Definition grasp_ik_call (tc : IkThreadStruct) (kin_solver : Solver)
    (candidate : moveit_msgs.Grasp) (ik_seed_state : list R) : list R * Z :=
  searchPositionIK kin_solver
    (to_planning_frame (link_transform_ tc)
                       (geometry_msgs.pose (moveit_msgs.grasp_pose candidate)))
    ik_seed_state (timeout_ tc).

Definition pregrasp_ik_call (tc : IkThreadStruct) (kin_solver : Solver)
    (ee_jmg : JointModelGroup Solver)
    (candidate : moveit_msgs.Grasp) (ik_seed_state : list R) : list R * Z :=
  searchPositionIK kin_solver
    (to_planning_frame (link_transform_ tc)
       (geometry_msgs.pose
          (getPreGraspPose candidate (snd (getEndEffectorParentGroup ee_jmg)))))
    ik_seed_state (timeout_ tc).

(** The members of the object other than the console are as before. *)
Definition same_members (gf gf' : GraspFilter) : Prop :=
  robot_state_ gf' = robot_state_ gf /\
  kin_solvers_ gf' = kin_solvers_ gf /\
  solver_timeout_ gf' = solver_timeout_ gf /\
  num_variables_ gf' = num_variables_ gf.

(** The runs of [filterGraspsHelper] a console shows: each run prints one
    "Filtering possible grasps with ... threads" line. *)
Definition is_run_report (e : Event) : bool :=
  match e with
  | ROS_INFO (Filtering_possible_grasps_with_threads _) => true
  | _ => false
  end.

Definition stage_runs (c : list Event) : nat := length (filter is_run_report c).

(** The object after some console output without a run report. *)
Definition quietly_after (gf gf' : GraspFilter) : Prop :=
  same_members gf gf' /\
  exists es, console gf' = console gf ++ es /\ stage_runs es = 0.

(** What makes a thread's run defined: its range lies within the
    candidates, its solver is not null and, where the pre-grasp is
    filtered, its end-effector group is not null. *)
Definition well_formed_thread (tc : IkThreadStruct) : Prop :=
  (0 <= grasps_id_start_ tc)%Z /\
  (grasps_id_end_ tc <= Z.of_nat (length (possible_grasps_ tc)))%Z /\
  kin_solver_ tc <> None /\
  (filter_pregrasp_ tc = true -> ee_jmg_ tc <> None).

(** How many threads a run uses. *)
Definition threads_used (possible_grasps : list moveit_msgs.Grasp) (verbose : bool) : nat :=
  if verbose then 1
  else if length possible_grasps <? hardware_concurrency
       then length possible_grasps else hardware_concurrency.

(** The first lines a run prints. *)
Definition run_header (possible_grasps : list moveit_msgs.Grasp) (verbose : bool)
    : list Event :=
  (if verbose then [ROS_WARN (Using_only_threads 1)] else []) ++
  [ROS_INFO (Filtering_possible_grasps_with_threads (threads_used possible_grasps verbose))].

(** The solver's base frame is not the model frame and names no link. *)
Definition frame_unknown (rs : RobotState) (kin_solver : Solver) : Prop :=
  sameFrame (getBaseFrame kin_solver) (getModelFrame rs) = false /\
  getLinkModel rs (without_leading_slash (getBaseFrame kin_solver)) = None.

(** What [filterGrasps] does to the object before the first run. *)
Definition prepared (arm_jmg : JointModelGroup Solver) (gf : GraspFilter) : GraspFilter :=
  set_num_variables_ (getVariableCount arm_jmg)
                     (set_solver_timeout_ (getDefaultIKTimeout arm_jmg) gf).

Definition rerun_notice : list Event :=
  [ROS_ERROR IK_filter_unable_to_find_any_valid_grasps_Rerunning_in_verbose_mode].

(** The solution [s] was accepted for a candidate of [possible_grasps]:
    a solver found its grasp joint values with SUCCESS within [timeout]
    and, where the pre-grasp is filtered, its pre-grasp joint values too,
    seeded with the grasp joint values; where it is not, the solution has
    no pre-grasp joint values. *)
Definition feasible (possible_grasps : list moveit_msgs.Grasp) (filter_pregrasp : bool)
    (ee_jmg : option (JointModelGroup Solver)) (timeout : R) (s : GraspSolution) : Prop :=
  In (grasp_ s) possible_grasps /\
  exists kin_solver link_transform,
    (exists ik_seed_state,
        searchPositionIK kin_solver
          (to_planning_frame link_transform
             (geometry_msgs.pose (moveit_msgs.grasp_pose (grasp_ s))))
          ik_seed_state timeout =
        (grasp_ik_solution_ s, moveit_msgs.MoveItErrorCodes.SUCCESS)) /\
    if filter_pregrasp
    then exists ee,
           ee_jmg = Some ee /\
           searchPositionIK kin_solver
             (to_planning_frame link_transform
                (geometry_msgs.pose
                   (getPreGraspPose (grasp_ s) (snd (getEndEffectorParentGroup ee)))))
             (grasp_ik_solution_ s) timeout =
           (pregrasp_ik_solution_ s, moveit_msgs.MoveItErrorCodes.SUCCESS)
    else pregrasp_ik_solution_ s = [].

(** The last line a completed run prints. *)
Definition run_report (found total : nat) : Event :=
  ROS_INFO (Grasp_filter_complete_found_IK_solutions_out_of found total).

(** The solvers held for the arm are not null. *)
Definition solvers_not_null (arm_jmg : JointModelGroup Solver) (gf : GraspFilter) : Prop :=
  Forall (fun kin_solver => kin_solver <> None) (kin_solvers_ gf (getName arm_jmg)).

(** A solver of the arm, as a run finds it in the first place of the
    vector it uses: a new instance of the arm group's solver, or the first
    solver the object already holds for the arm. *)
Definition arm_solver (arm_jmg : JointModelGroup Solver) (gf : GraspFilter)
    (kin_solver : Solver) : Prop :=
  getSolverInstance arm_jmg = Some kin_solver \/
  hd_error (kin_solvers_ gf (getName arm_jmg)) = Some (Some kin_solver).


(** The result of a call, if it returns, seen through [f]. *)
Definition outcome_map {A B} (f : A -> B) (o : Outcome A) : Outcome B :=
  match o with
  | Returns a => Returns (f a)
  | Undefined => Undefined
  end.

(** The same thread argument with another [verbose_] flag. *)
Definition with_verbose_ (verbose : bool) (tc : IkThreadStruct) : IkThreadStruct :=
  {| possible_grasps_ := possible_grasps_ tc;
     link_transform_ := link_transform_ tc;
     grasps_id_start_ := grasps_id_start_ tc;
     grasps_id_end_ := grasps_id_end_ tc;
     kin_solver_ := kin_solver_ tc;
     filter_pregrasp_ := filter_pregrasp_ tc;
     ee_jmg_ := ee_jmg_ tc;
     timeout_ := timeout_ tc;
     verbose_ := verbose;
     thread_id_ := thread_id_ tc |}.

(** What a verbose pruning pass shows for one colliding solution. *)
Definition collision_display : list Event :=
  [cout_endl; ROS_INFO Grasp_solution_colliding;
   publishRobotState_RED; publishContactPoints; sleep 4%R].

(** The console output of a pruning pass that removes [removed] solutions
    and keeps [kept]. *)
Definition pass_output (verbose : bool) (removed kept : nat) : list Event :=
  concat (repeat (if verbose then collision_display else []) removed) ++
  [ROS_INFO (After_collision_checking_grasps_were_found_valid kept)] ++
  (if verbose then [hideRobot] else []).

End Vocabulary.

(** The unit roundoff of binary64, 2^-53. *)
Definition unit_roundoff : Q := 1 # 9007199254740992.

(** [num_grasps_per_thread * (i + 1)] for [n] candidates, [t] threads and
    [m = i + 1]. *)
Definition share (n t m : nat) : Q :=
  Double.mul (Double.div (Double.of_nat n) (Double.of_nat t)) (Double.of_nat m).

(** The end index of the range of pass [i = m - 1]; before the first pass
    [grasps_id_end] is 0. *)
Definition share_end (n t m : nat) : Z :=
  match m with
  | O => 0%Z
  | _ => limit_to_size (Double.ceil (share n t m)) n
  end.

(** The ceiling share of [n] candidates among [t] workers. *)
Definition ceiling_share (n t : nat) : Z := ((Z.of_nat n + Z.of_nat t - 1) / Z.of_nat t)%Z.

(** The ranges of the passes [i, i+1, ...], [count] of them. *)
Fixpoint share_ranges (n t count i : nat) : list (Z * Z) :=
  match count with
  | O => []
  | S count' => (share_end n t i, share_end n t (S i)) :: share_ranges n t count' (S i)
  end.

(** * A test bench

    Concrete collaborators on which the statements above are exercised.  A
    solver is named by the frame it works in and takes its answer from the
    seed: it prepends a zero to the seed, and reports success while the seed
    has fewer than three joints, no solution at three, a time-out at four
    and failure above.  A robot state is the list of the arm joint values.
    A state with no joint value collides; a state with one joint value
    collides unless the check is verbose; any other state is free. *)

(** An arcsine from a table of five steps, within 1/4 of the true one:
    the argument itself up to 1/4, then 3/8, 11/16, 33/32 and 11/8; odd;
    NaN outside [-1, 1]. *)
Definition coarse_asin_step (q : Q) : Q :=
  if Qle_bool q (1 # 4) then q
  else if Qle_bool q (1 # 2) then 3 # 8
  else if Qle_bool q (3 # 4) then 11 # 16
  else if Qle_bool q (15 # 16) then 33 # 32
  else 11 # 8.

Definition coarse_asin (a : Binary64.double) : Binary64.double :=
  match a with
  | Binary64.Finite q =>
      if Qle_bool 0 q
      then if Qle_bool q 1
           then Binary64.Finite (coarse_asin_step q)
           else Binary64.NaN
      else if Qle_bool (-1) q
           then Binary64.Finite (- coarse_asin_step (- q))
           else Binary64.NaN
  | _ => Binary64.NaN
  end.

#[export] Instance bench : Collaborators := {|
  Solver := string;
  getBaseFrame := fun s => s;
  searchPositionIK := fun _ _ seed _ =>
    ((0%R :: seed),
     match length seed with
     | 0 | 1 | 2 => moveit_msgs.MoveItErrorCodes.SUCCESS
     | 3 => moveit_msgs.MoveItErrorCodes.NO_IK_SOLUTION
     | 4 => moveit_msgs.MoveItErrorCodes.TIMED_OUT
     | _ => 99999%Z
     end);
  Affine3d := geometry_msgs.Pose;
  poseMsgToEigen := fun p => p;
  poseEigenToMsg := fun p => p;
  compose := fun _ p => p;
  inverse := fun p => p;
  unassigned_Affine3d :=
    {| geometry_msgs.position := {| geometry_msgs.x := 0; geometry_msgs.y := 0;
                                    geometry_msgs.z := 0 |};
       geometry_msgs.orientation :=
         {| geometry_msgs.qx := Binary64.Finite 0; geometry_msgs.qy := Binary64.Finite 0;
            geometry_msgs.qz := Binary64.Finite 0; geometry_msgs.qw := Binary64.Finite 1 |} |};
  RobotState := list R;
  LinkModel := string;
  getModelFrame := fun _ => "world"%string;
  getLinkModel := fun _ name => if String.eqb name "base_link" then Some name else None;
  getGlobalLinkTransform := fun _ _ =>
    {| geometry_msgs.position := {| geometry_msgs.x := 0; geometry_msgs.y := 0;
                                    geometry_msgs.z := 0 |};
       geometry_msgs.orientation :=
         {| geometry_msgs.qx := Binary64.Finite 0; geometry_msgs.qy := Binary64.Finite 0;
            geometry_msgs.qz := Binary64.Finite 0; geometry_msgs.qw := Binary64.Finite 1 |} |};
  getJointModelGroup := fun _ name =>
    if String.eqb name "gripper"
    then Some {| getName := "gripper";
                 getDefaultIKTimeout := 0%R;
                 getVariableCount := 0;
                 getAttachedEndEffectorNames := [];
                 getSolverInstance := None;
                 getEndEffectorParentGroup := ("arm", "wrist")%string |}
    else None;
  sameFrame := String.eqb;
  setJointGroupPositions := fun _ _ values => values;
  PlanningSceneMonitor := unit;
  PlanningScene := unit;
  clone := fun _ => tt;
  isStateColliding := fun _ rs _ verbose =>
    match rs with
    | [] => true
    | [_] => negb verbose
    | _ => false
    end;
  getPreGraspPose := fun g _ => moveit_msgs.grasp_pose g;
  hardware_concurrency := 2;
  asin := coarse_asin
|}.

Module Bench.

(** The quaternion of the [double] values nearest to [x], [y], [z], [w]. *)
Definition quaternion (x y z w : Q) : geometry_msgs.Quaternion :=
  {| geometry_msgs.qx := Binary64.of_Q x; geometry_msgs.qy := Binary64.of_Q y;
     geometry_msgs.qz := Binary64.of_Q z; geometry_msgs.qw := Binary64.of_Q w |}.

Definition grasp (name : string) (q : geometry_msgs.Quaternion) : moveit_msgs.Grasp :=
  {| moveit_msgs.id := name;
     moveit_msgs.grasp_pose :=
       {| geometry_msgs.frame_id := "world";
          geometry_msgs.pose :=
            {| geometry_msgs.position :=
                 {| geometry_msgs.x := 0; geometry_msgs.y := 0; geometry_msgs.z := 0 |};
               geometry_msgs.orientation := q |} |};
     moveit_msgs.grasp_quality := Binary64.Finite 0 |}.

Definition solution (name : string) (joints : list R) : GraspSolution :=
  {| grasp_ := grasp name (quaternion 0 0 0 1);
     grasp_ik_solution_ := joints;
     pregrasp_ik_solution_ := [] |}.

Definition arm_with (frame : option string) (effectors : list string) (dof : nat)
    : JointModelGroup Solver :=
  {| getName := "arm";
     getDefaultIKTimeout := 0%R;
     getVariableCount := dof;
     getAttachedEndEffectorNames := effectors;
     getSolverInstance := frame;
     getEndEffectorParentGroup := ("", "")%string |}.

Definition arm (frame : option string) (effectors : list string) : JointModelGroup Solver :=
  arm_with frame effectors 0.

Definition candidate (name : string) : moveit_msgs.Grasp :=
  grasp name (quaternion 0 0 0 1).

Definition five_candidates : list moveit_msgs.Grasp :=
  [candidate "1"; candidate "2"; candidate "3"; candidate "4"; candidate "5"].

Definition ten_candidates : list moveit_msgs.Grasp :=
  five_candidates ++
  [candidate "6"; candidate "7"; candidate "8"; candidate "9"; candidate "10"].

(** The thread that is given all of [five_candidates]. *)
Definition worker : IkThreadStruct :=
  {| possible_grasps_ := five_candidates;
     link_transform_ := unassigned_Affine3d;
     grasps_id_start_ := 0;
     grasps_id_end_ := 5;
     kin_solver_ := Some "world"%string;
     filter_pregrasp_ := true;
     ee_jmg_ := getJointModelGroup (arm (Some "world"%string) ["gripper"%string])
                                   "gripper"%string;
     timeout_ := 0%R;
     verbose_ := false;
     thread_id_ := 0 |}.

(** The object a returning call leaves behind. *)
Definition object_after {A} (o : Outcome (A * GraspFilter)) : GraspFilter :=
  match o with
  | Returns (_, gf) => gf
  | Undefined =>
      {| robot_state_ := [];
         kin_solvers_ := fun _ => [];
         solver_timeout_ := 0%R;
         num_variables_ := 0;
         console := [] |}
  end.

Definition fresh : GraspFilter :=
  {| robot_state_ := [];
     kin_solvers_ := fun _ => [];
     solver_timeout_ := 0%R;
     num_variables_ := 0;
     console := [] |}.

(** A grasp pitched by about -74 degrees: the quaternion of the [double]
    values nearest to (0, -0.6, 0, 0.8), a unit quaternion up to their
    rounding.  Its yaw angle is the arcsine of about -0.96, about -1.29. *)
Definition steep : GraspSolution :=
  {| grasp_ := grasp "steep" (quaternion 0 (- (3 # 5)) 0 (4 # 5));
     grasp_ik_solution_ := [];
     pregrasp_ik_solution_ := [] |}.

(** The argument of [asin] for [steep]: the exact result of the [double]
    operations, a little above -0.96. *)
Definition steep_argument : Binary64.double :=
  Binary64.mul (Binary64.Finite (-2))
    (Binary64.sub
       (Binary64.mul (Binary64.of_Q 0) (Binary64.of_Q 0))
       (Binary64.mul (Binary64.of_Q (4 # 5)) (Binary64.of_Q (- (3 # 5))))).

(** A grasp whose orientation has large components: x = 2^30 + 1, y = 1,
    z = 2^30 + 1/2, w = 2^60 + 2^30 + 2^29, all of them [double] values.
    In exact arithmetic x*z - w*y is 1/2; the [double] product x*z loses
    the 1/2. *)
Definition skew : GraspSolution :=
  {| grasp_ := grasp "skew" (quaternion 1073741825 1 (2147483649 # 2) 1152921506217459712);
     grasp_ik_solution_ := [];
     pregrasp_ik_solution_ := [] |}.

(** What the caller has in [chosen] before the call. *)
Definition placeholder : GraspSolution :=
  {| grasp_ := grasp "" (quaternion 0 0 0 0);
     grasp_ik_solution_ := [];
     pregrasp_ik_solution_ := [] |}.

(** A solution made of a level candidate. *)
Definition accepted (name : string) (joints pregrasp_joints : list R) : GraspSolution :=
  {| grasp_ := candidate name;
     grasp_ik_solution_ := joints;
     pregrasp_ik_solution_ := pregrasp_joints |}.

(** The solutions a returning call leaves in the vector. *)
Definition solutions_of (o : Outcome (bool * list GraspSolution * GraspFilter))
    : list GraspSolution :=
  match o with
  | Returns (_, filtered_grasps, _) => filtered_grasps
  | Undefined => []
  end.

End Bench.

(** The same bench on a machine that does not tell how many hardware threads
    it has. *)
Definition bench_without_threads : Collaborators := {|
  Solver := @Solver bench;
  getBaseFrame := @getBaseFrame bench;
  searchPositionIK := @searchPositionIK bench;
  Affine3d := @Affine3d bench;
  poseMsgToEigen := @poseMsgToEigen bench;
  poseEigenToMsg := @poseEigenToMsg bench;
  compose := @compose bench;
  inverse := @inverse bench;
  unassigned_Affine3d := @unassigned_Affine3d bench;
  RobotState := @RobotState bench;
  LinkModel := @LinkModel bench;
  getModelFrame := @getModelFrame bench;
  getLinkModel := @getLinkModel bench;
  getGlobalLinkTransform := @getGlobalLinkTransform bench;
  getJointModelGroup := @getJointModelGroup bench;
  sameFrame := @sameFrame bench;
  setJointGroupPositions := @setJointGroupPositions bench;
  PlanningSceneMonitor := @PlanningSceneMonitor bench;
  PlanningScene := @PlanningScene bench;
  clone := @clone bench;
  isStateColliding := @isStateColliding bench;
  getPreGraspPose := @getPreGraspPose bench;
  hardware_concurrency := 0;
  asin := @asin bench
|}.

(** * Stage B and the selection *)

Section Facts.
Context `{C : Collaborators}.

(** *** What the loop computes *)

Lemma nth_error_split_at {A} (v : list A) (n : nat) (a : A) :
  nth_error v n = Some a ->
  skipn n v = a :: skipn (S n) v /\ firstn (S n) v = firstn n v ++ [a].
Proof.
  revert v. induction n as [|n IH]; intros [|b v] Hn; simpl in Hn; try discriminate.
  - injection Hn as ->. split; reflexivity.
  - destruct (IH v Hn) as [Hs Hf]. split.
    + exact Hs.
    + change (firstn (S (S n)) (b :: v)) with (b :: firstn (S n) v).
      rewrite Hf. reflexivity.
Qed.

Lemma erase_cons {A} (b : A) (v : list A) (pos : nat) :
  erase (b :: v) (S pos) = b :: erase v pos.
Proof. reflexivity. Qed.

Lemma firstn_erase {A} (v : list A) (pos : nat) :
  firstn pos (erase v pos) = firstn pos v.
Proof.
  revert v. induction pos as [|n IH]; intros v.
  - reflexivity.
  - destruct v as [|b v].
    + reflexivity.
    + rewrite erase_cons. simpl. f_equal. apply IH.
Qed.

Lemma skipn_erase {A} (v : list A) (pos : nat) :
  skipn pos (erase v pos) = skipn (S pos) v.
Proof.
  revert v. induction pos as [|n IH]; intros v.
  - reflexivity.
  - destruct v as [|b v].
    + reflexivity.
    + rewrite erase_cons. simpl. apply IH.
Qed.

Lemma prune_cons cloned_scene arm_jmg verbose gf g l :
  prune cloned_scene arm_jmg verbose gf (g :: l) =
  let '(hit, gf') := check_grasp cloned_scene arm_jmg verbose gf g in
  let '(gf'', kept) := prune cloned_scene arm_jmg verbose gf' l in
  (gf'', if hit then kept else g :: kept).
Proof. reflexivity. Qed.

Ltac destruct_prune :=
  match goal with
  | |- context [prune ?s ?a ?v ?gf ?l] => destruct (prune s a v gf l) eqn:?
  end.

Lemma collision_loop_prune cloned_scene arm_jmg verbose gf possible_grasps grasp_it :
  collision_loop cloned_scene arm_jmg verbose gf possible_grasps grasp_it =
  let '(gf', kept) := prune cloned_scene arm_jmg verbose gf (skipn grasp_it possible_grasps) in
  (gf', firstn grasp_it possible_grasps ++ kept).
Proof.
  funelim (collision_loop cloned_scene arm_jmg verbose gf possible_grasps grasp_it).
  - (* an element is under the iterator *)
    clear Heqcall.
    destruct (nth_error_split_at _ _ Hg) as [Hs Hf].
    rewrite Hs, prune_cons. unfold check_grasp.
    cbv zeta in *.
    destruct (isStateColliding cloned_scene _ (getName arm_jmg) verbose) eqn:Hc.
    + rewrite H, skipn_erase, firstn_erase.
      destruct_prune.
      reflexivity.
    + rewrite H0.
      destruct_prune.
      rewrite Hf, <- app_assoc. reflexivity.
  - (* the iterator is at end() *)
    clear Heqcall.
    assert (Hlen : length possible_grasps <= grasp_it) by (apply nth_error_None; assumption).
    rewrite skipn_all2, firstn_all2 by lia. simpl. now rewrite app_nil_r.
Qed.

(** *** The collision test of one solution *)

Lemma pruning_passes_app c1 c2 :
  pruning_passes (c1 ++ c2) = pruning_passes c1 + pruning_passes c2.
Proof. unfold pruning_passes. now rewrite filter_app, length_app. Qed.

Lemma check_grasp_passes cloned_scene arm_jmg verbose gf g :
  pruning_passes (console (snd (check_grasp cloned_scene arm_jmg verbose gf g))) =
  pruning_passes (console gf).
Proof.
  unfold check_grasp. cbv zeta.
  destruct (isStateColliding _ _ _ _); [destruct verbose|]; simpl; try reflexivity.
  rewrite pruning_passes_app. unfold pruning_passes at 2. simpl. lia.
Qed.

Lemma prune_passes cloned_scene arm_jmg verbose l : forall gf,
  pruning_passes (console (fst (prune cloned_scene arm_jmg verbose gf l))) =
  pruning_passes (console gf).
Proof.
  induction l as [|g l IH]; intros gf.
  - reflexivity.
  - rewrite prune_cons.
    pose proof (check_grasp_passes cloned_scene arm_jmg verbose gf g) as Hc.
    destruct (check_grasp cloned_scene arm_jmg verbose gf g) as [hit gf'].
    specialize (IH gf'). destruct_prune. simpl in *. congruence.
Qed.

Lemma check_grasp_hit planning_scene_monitor arm_jmg robot_state verbose gf g :
  overwrites arm_jmg ->
  (forall b, setJointGroupPositions (robot_state_ gf) arm_jmg b =
             setJointGroupPositions robot_state arm_jmg b) ->
  let r := check_grasp (clone planning_scene_monitor) arm_jmg verbose gf g in
  fst r = grasp_in_collision planning_scene_monitor arm_jmg robot_state verbose g /\
  (forall b, setJointGroupPositions (robot_state_ (snd r)) arm_jmg b =
             setJointGroupPositions robot_state arm_jmg b).
Proof.
  intros Hov Hinv. unfold check_grasp, grasp_in_collision. cbv zeta. simpl.
  rewrite Hinv.
  destruct (isStateColliding _ _ _ _); [destruct verbose|]; simpl;
    (split; [reflexivity | intros b; apply Hov]).
Qed.

Lemma prune_filter planning_scene_monitor arm_jmg robot_state verbose l : forall gf,
  overwrites arm_jmg ->
  (forall b, setJointGroupPositions (robot_state_ gf) arm_jmg b =
             setJointGroupPositions robot_state arm_jmg b) ->
  snd (prune (clone planning_scene_monitor) arm_jmg verbose gf l) =
  filter (fun g => negb (grasp_in_collision planning_scene_monitor arm_jmg
                                            robot_state verbose g)) l.
Proof.
  induction l as [|g l IH]; intros gf Hov Hinv.
  - reflexivity.
  - rewrite prune_cons.
    destruct (@check_grasp_hit planning_scene_monitor arm_jmg robot_state verbose gf g
                               Hov Hinv) as [Hhit Hinv'].
    destruct (check_grasp (clone planning_scene_monitor) arm_jmg verbose gf g) as [hit gf'].
    simpl in Hhit, Hinv'. specialize (IH gf' Hov Hinv').
    destruct_prune. simpl in *. subst hit.
    destruct (grasp_in_collision _ _ _ _ g); simpl; congruence.
Qed.

Lemma helper_result possible_grasps planning_scene_monitor arm_jmg robot_state verbose gf :
  exists gf',
    filterGraspsInCollisionHelper possible_grasps planning_scene_monitor arm_jmg
                                  robot_state verbose gf =
    (true,
     snd (prune (clone planning_scene_monitor) arm_jmg verbose
                (set_robot_state_ robot_state gf) possible_grasps),
     gf') /\
    pruning_passes (console gf') = S (pruning_passes (console gf)).
Proof.
  unfold filterGraspsInCollisionHelper. rewrite collision_loop_prune.
  pose proof (prune_passes (clone planning_scene_monitor) arm_jmg verbose possible_grasps
                           (set_robot_state_ robot_state gf)) as Hp.
  simpl skipn. simpl firstn.
  destruct_prune. simpl in Hp. simpl app.
  eexists. split; [reflexivity|].
  destruct verbose; simpl; repeat rewrite pruning_passes_app;
    unfold pruning_passes in *; simpl; lia.
Qed.

Lemma filter_with_pregrasp (p : GraspSolution -> bool) f l :
  (forall g, p (with_pregrasp_ik_solution_ f g) = p g) ->
  filter p (map (with_pregrasp_ik_solution_ f) l) =
  map (with_pregrasp_ik_solution_ f) (filter p l).
Proof.
  intros Hp. induction l as [|g l IH]; simpl.
  - reflexivity.
  - rewrite Hp. destruct (p g); simpl; congruence.
Qed.

Lemma helper_filter possible_grasps planning_scene_monitor arm_jmg robot_state verbose gf :
  overwrites arm_jmg ->
  exists gf',
    filterGraspsInCollisionHelper possible_grasps planning_scene_monitor arm_jmg
                                  robot_state verbose gf =
    (true,
     filter (fun g => negb (grasp_in_collision planning_scene_monitor arm_jmg
                                               robot_state verbose g)) possible_grasps,
     gf').
Proof.
  intros Hov.
  destruct (helper_result possible_grasps planning_scene_monitor arm_jmg robot_state
                          verbose gf) as (gf' & Heq & _).
  exists gf'. rewrite Heq.
  rewrite (@prune_filter planning_scene_monitor arm_jmg robot_state verbose possible_grasps
                         (set_robot_state_ robot_state gf) Hov (fun b => eq_refl)).
  reflexivity.
Qed.

(** *** Properties of Stage B *)

(** C2.  [filterGraspsInCollisionHelper] returns [true] and leaves in
    [possible_grasps] exactly the solutions whose grasp joint values do not
    collide for the arm group, in their original order; the result is never
    longer than the input, and the pre-grasp joint values play no part:
    replacing them by any others keeps the same solutions. *)
Theorem filterGraspsInCollisionHelper_prunes
    possible_grasps planning_scene_monitor arm_jmg robot_state verbose gf :
  overwrites arm_jmg ->
  let '(ok, pruned, _) :=
    filterGraspsInCollisionHelper possible_grasps planning_scene_monitor arm_jmg
                                  robot_state verbose gf in
  ok = true /\
  pruned = filter (fun g => negb (grasp_in_collision planning_scene_monitor arm_jmg
                                                     robot_state verbose g))
                  possible_grasps /\
  length pruned <= length possible_grasps /\
  forall f gf0,
    let '(_, pruned', _) :=
      filterGraspsInCollisionHelper (map (with_pregrasp_ik_solution_ f) possible_grasps)
                                    planning_scene_monitor arm_jmg robot_state verbose gf0 in
    pruned' = map (with_pregrasp_ik_solution_ f) pruned.
Proof.
  intros Hov.
  destruct (@helper_filter possible_grasps planning_scene_monitor arm_jmg robot_state
                          verbose gf Hov)
    as [gf' ->].
  repeat split.
  - apply filter_length_le.
  - intros f gf0.
    destruct (@helper_filter (map (with_pregrasp_ik_solution_ f) possible_grasps)
                             planning_scene_monitor arm_jmg robot_state verbose gf0 Hov)
      as [gf0' ->].
    apply filter_with_pregrasp. reflexivity.
Qed.

(** C8.  On a list none of whose solutions collides,
    [filterGraspsInCollisionHelper] returns the list as it was. *)
Theorem filterGraspsInCollisionHelper_idempotent
    possible_grasps planning_scene_monitor arm_jmg robot_state verbose gf :
  overwrites arm_jmg ->
  (forall g, In g possible_grasps ->
             grasp_in_collision planning_scene_monitor arm_jmg robot_state verbose g = false) ->
  snd (fst (filterGraspsInCollisionHelper possible_grasps planning_scene_monitor arm_jmg
                                          robot_state verbose gf)) = possible_grasps.
Proof.
  intros Hov Hfree.
  destruct (@helper_filter possible_grasps planning_scene_monitor arm_jmg robot_state
                          verbose gf Hov)
    as [gf' ->].
  simpl. induction possible_grasps as [|g l IH]; simpl.
  - reflexivity.
  - rewrite (Hfree g (or_introl eq_refl)). simpl. f_equal.
    apply IH. intros g' Hin. apply Hfree. now right.
Qed.

(** Pruning what a pruning pass returned changes nothing. *)
Corollary filterGraspsInCollisionHelper_twice
    possible_grasps planning_scene_monitor arm_jmg robot_state verbose gf gf' :
  overwrites arm_jmg ->
  let pruned :=
    snd (fst (filterGraspsInCollisionHelper possible_grasps planning_scene_monitor arm_jmg
                                            robot_state verbose gf)) in
  snd (fst (filterGraspsInCollisionHelper pruned planning_scene_monitor arm_jmg
                                          robot_state verbose gf')) = pruned.
Proof.
  intros Hov pruned. subst pruned.
  destruct (@helper_filter possible_grasps planning_scene_monitor arm_jmg robot_state
                          verbose gf Hov)
    as [gf1 ->].
  destruct (@helper_filter
              (snd (fst (true,
                         filter (fun g => negb (grasp_in_collision planning_scene_monitor
                                                  arm_jmg robot_state verbose g))
                                possible_grasps, gf1)))
              planning_scene_monitor arm_jmg robot_state verbose gf' Hov) as [gf2 ->].
  simpl. induction possible_grasps as [|g l IH]; simpl.
  - reflexivity.
  - destruct (grasp_in_collision _ _ _ _ g) eqn:Hg; simpl.
    + exact IH.
    + rewrite Hg. simpl. f_equal. exact IH.
Qed.

(** C6, amended.  When the caller did not ask for verbose output and the
    first pass removes every solution of a non-empty list, the call is the
    first pass followed by one verbose pass over the original list, with the
    same scene monitor, arm group and robot state; there are exactly two
    passes, and the call returns [true]. *)
Theorem filterGraspsInCollision_rerun
    possible_grasps planning_scene_monitor arm_jmg robot_state gf :
  possible_grasps <> [] ->
  let first_pass :=
    filterGraspsInCollisionHelper possible_grasps planning_scene_monitor arm_jmg
                                  robot_state false gf in
  snd (fst first_pass) = [] ->
  let second_pass :=
    filterGraspsInCollisionHelper possible_grasps planning_scene_monitor arm_jmg
                                  robot_state true
                                  (emit rerun_announcement (snd first_pass)) in
  let result :=
    filterGraspsInCollision possible_grasps planning_scene_monitor arm_jmg
                            robot_state false gf in
  result = (true, [], snd second_pass) /\
  pruning_passes (console (snd result)) = 2 + pruning_passes (console gf).
Proof.
  intros Hne first_pass Hempty second_pass result.
  subst result second_pass first_pass.
  unfold filterGraspsInCollision.
  destruct possible_grasps as [|g0 l]; [congruence|].
  change (length (g0 :: l) =? 0) with false. cbv iota.
  destruct (helper_result (g0 :: l) planning_scene_monitor arm_jmg robot_state false gf)
    as (gf1 & Heq1 & Hp1).
  rewrite Heq1 in *. cbn [fst snd] in Hempty. rewrite Hempty. simpl negb. cbv iota.
  change (length (@nil GraspSolution) =? 0) with true. simpl andb. cbv iota.
  fold rerun_announcement. simpl snd.
  destruct (helper_result (g0 :: l) planning_scene_monitor arm_jmg robot_state true
                          (emit rerun_announcement gf1)) as (gf2 & Heq2 & Hp2).
  rewrite Heq2. simpl. split; [reflexivity|].
  rewrite Hp2. simpl. rewrite pruning_passes_app, Hp1.
  unfold pruning_passes at 2. simpl. lia.
Qed.

(** C10.  When the first pass of a call without verbose output empties the
    list, the list the caller gets back is empty, whatever the second pass
    keeps in its own copy. *)
Theorem filterGraspsInCollision_rerun_private
    possible_grasps planning_scene_monitor arm_jmg robot_state gf :
  possible_grasps <> [] ->
  snd (fst (filterGraspsInCollisionHelper possible_grasps planning_scene_monitor arm_jmg
                                          robot_state false gf)) = [] ->
  snd (fst (filterGraspsInCollision possible_grasps planning_scene_monitor arm_jmg
                                    robot_state false gf)) = [].
Proof.
  intros Hne Hempty.
  unfold filterGraspsInCollision.
  destruct possible_grasps as [|g0 l]; [congruence|].
  change (length (g0 :: l) =? 0) with false. cbv iota.
  destruct (helper_result (g0 :: l) planning_scene_monitor arm_jmg robot_state false gf)
    as (gf1 & Heq1 & _).
  rewrite Heq1 in *. cbn [fst snd] in Hempty. rewrite Hempty. simpl negb. cbv iota.
  change (length (@nil GraspSolution) =? 0) with true. simpl andb. cbv iota.
  destruct (helper_result (g0 :: l) planning_scene_monitor arm_jmg robot_state true
              (emit [cout_endl; cout_endl; cout_endl;
                     ROS_WARN All_grasps_were_filtered_due_to_collision_possible_error;
                     ROS_WARN Rerunning_again_in_debug_mode] gf1)) as (gf2 & Heq2 & _).
  rewrite Heq2. reflexivity.
Qed.

(** *** Properties of the selection *)

(** The order of the [double] values. *)

Ltac double_order :=
  repeat match goal with
         | H : _ && _ = true |- _ => apply andb_true_iff in H; destruct H
         | H : negb _ = true |- _ => apply negb_true_iff in H
         | H : negb _ = false |- _ => apply negb_false_iff in H
         | H : Qle_bool _ _ = true |- _ => apply Qle_bool_iff in H
         | H : Qle_bool ?x ?y = false |- _ =>
             assert (~ (x <= y)%Q) by (rewrite <- Qle_bool_iff; congruence); clear H
         | |- _ && _ = true => apply andb_true_iff; split
         | |- negb _ = true => apply negb_true_iff
         | |- negb _ = false => apply negb_false_iff
         | |- Qle_bool _ _ = true => apply Qle_bool_iff
         | |- Qle_bool _ _ = false => apply not_true_is_false; rewrite Qle_bool_iff; intro
         end;
  try discriminate; try reflexivity; try lra.

Lemma double_gt_not_nan a b :
  Binary64.gt a b = true -> Binary64.is_nan a = false /\ Binary64.is_nan b = false.
Proof. destruct a as [x|s|], b as [y|s'|]; cbn; intros H; try discriminate; now split. Qed.

Lemma double_le_refl a : Binary64.is_nan a = false -> Binary64.le a a = true.
Proof.
  destruct a as [x|[]|]; cbn; intros H; try discriminate; try reflexivity. double_order.
Qed.

Lemma double_le_trans a b c :
  Binary64.le a b = true -> Binary64.le b c = true -> Binary64.le a c = true.
Proof.
  unfold Binary64.le.
  destruct a as [x|[]|], b as [y|[]|], c as [z|[]|]; cbn; intros H1 H2; double_order.
Qed.

Lemma double_le_gt_trans a b c :
  Binary64.le a b = true -> Binary64.gt c b = true -> Binary64.gt c a = true.
Proof.
  unfold Binary64.le.
  destruct a as [x|[]|], b as [y|[]|], c as [z|[]|]; cbn; intros H1 H2; double_order.
Qed.

Lemma double_gt_le_trans a b c :
  Binary64.gt b a = true -> Binary64.le b c = true -> Binary64.gt c a = true.
Proof.
  unfold Binary64.le.
  destruct a as [x|[]|], b as [y|[]|], c as [z|[]|]; cbn; intros H1 H2; double_order.
Qed.

Lemma double_gt_le a b : Binary64.gt a b = true -> Binary64.le b a = true.
Proof.
  unfold Binary64.le.
  destruct a as [x|[]|], b as [y|[]|]; cbn; intros H; double_order.
Qed.

Lemma double_not_gt_le a b :
  Binary64.is_nan a = false -> Binary64.is_nan b = false ->
  Binary64.gt a b = false -> Binary64.le a b = true.
Proof. unfold Binary64.le. now intros -> -> ->. Qed.

Lemma double_le_not_gt a b : Binary64.le a b = true -> Binary64.gt a b = false.
Proof.
  unfold Binary64.le. intros H. apply andb_true_iff in H. destruct H as [_ H].
  now apply negb_true_iff in H.
Qed.

(** *** The selection *)

Lemma chooseBestGrasp_loop_cons g rest max_quality chosen :
  chooseBestGrasp_loop (g :: rest) max_quality chosen =
  if Binary64.gt (yall g) max_quality
  then chooseBestGrasp_loop rest (yall g) g
  else chooseBestGrasp_loop rest max_quality chosen.
Proof. reflexivity. Qed.

(** No yaw angle above [max_quality]: the loop assigns nothing. *)
Lemma chooseBestGrasp_loop_unchanged l : forall max_quality chosen,
  (forall g, In g l -> Binary64.gt (yall g) max_quality = false) ->
  chooseBestGrasp_loop l max_quality chosen = (max_quality, chosen).
Proof.
  induction l as [|g l IH]; intros m c Hle.
  - reflexivity.
  - rewrite chooseBestGrasp_loop_cons, (Hle g (or_introl eq_refl)).
    apply IH. intros g' Hin. apply Hle. now right.
Qed.

(** What the loop leaves in [max_quality] and [chosen]: no yaw angle is
    above [max_quality], which has not decreased, and either nothing was
    assigned, or [chosen] is the first solution of the list with that yaw
    angle: the solutions before it have a smaller one, or a NaN. *)
Lemma chooseBestGrasp_loop_max l : forall max_quality chosen,
  Binary64.is_nan max_quality = false ->
  let '(m, c) := chooseBestGrasp_loop l max_quality chosen in
  Binary64.le max_quality m = true /\
  (forall g, In g l -> Binary64.gt (yall g) m = false) /\
  ((m = max_quality /\ c = chosen) \/
   Binary64.gt m max_quality = true /\
   exists before after,
     l = before ++ c :: after /\ yall c = m /\
     forall g, In g before ->
       Binary64.gt m (yall g) = true \/ Binary64.is_nan (yall g) = true).
Proof.
  induction l as [|g l IH]; intros m0 c0 Hm0.
  - cbn. split; [now apply double_le_refl|]. split; [intros g []|]. now left.
  - rewrite chooseBestGrasp_loop_cons.
    destruct (Binary64.gt (yall g) m0) eqn:Hgt.
    + destruct (@double_gt_not_nan _ _ Hgt) as [Hv _].
      specialize (IH (yall g) g Hv).
      destruct (chooseBestGrasp_loop l (yall g) g) as [m c].
      destruct IH as (Hm & Hub & Hsel).
      split; [exact (@double_le_trans _ _ _ (@double_gt_le _ _ Hgt) Hm)|]. split.
      * intros g' [<-|Hin]; [now apply double_le_not_gt | now apply Hub].
      * right. split; [exact (@double_gt_le_trans _ _ _ Hgt Hm)|].
        destruct Hsel as [[-> ->]|(Hlt & before & after & -> & Hc & Hbefore)].
        -- exists [], l. repeat split. intros g' [].
        -- exists (g :: before), after. repeat split; [exact Hc|].
           intros g' [<-|Hin]; [now left | now apply Hbefore].
    + specialize (IH m0 c0 Hm0).
      destruct (chooseBestGrasp_loop l m0 c0) as [m c].
      destruct IH as (Hm & Hub & Hsel).
      split; [exact Hm|]. split.
      * intros g' [<-|Hin]; [|now apply Hub].
        destruct (Binary64.is_nan (yall g)) eqn:Hnan;
          [destruct (yall g); try discriminate; reflexivity|].
        apply double_le_not_gt. exact (@double_le_trans _ _ _ (@double_not_gt_le _ _ Hnan Hm0 Hgt) Hm).
      * destruct Hsel as [[-> ->]|(Hlt & before & after & -> & Hc & Hbefore)];
          [now left|right]. split; [exact Hlt|].
        exists (g :: before), after. repeat split; [exact Hc|].
        intros g' [<-|Hin]; [|now apply Hbefore].
        destruct (Binary64.is_nan (yall g)) eqn:Hnan; [now right|left].
        exact (@double_le_gt_trans _ _ _ (@double_not_gt_le _ _ Hnan Hm0 Hgt) Hlt).
Qed.

(** [chooseBestGrasp] fails exactly on the empty list. *)
Lemma chooseBestGrasp_fails_iff filtered_grasps chosen :
  fst (chooseBestGrasp filtered_grasps chosen) = false <-> filtered_grasps = [].
Proof.
  unfold chooseBestGrasp. destruct filtered_grasps as [|g l].
  - simpl. tauto.
  - destruct (chooseBestGrasp_loop (g :: l) (Binary64.Finite (-1)) chosen). simpl.
    split; intros; discriminate.
Qed.

(** What [chooseBestGrasp] selects when it assigns [chosen]. *)
Lemma chooseBestGrasp_first_greatest filtered_grasps chosen g0 :
  In g0 filtered_grasps -> Binary64.gt (yall g0) (Binary64.Finite (-1)) = true ->
  exists before c after,
    chooseBestGrasp filtered_grasps chosen = (true, c) /\
    filtered_grasps = before ++ c :: after /\
    Binary64.gt (yall c) (Binary64.Finite (-1)) = true /\
    (forall g, In g filtered_grasps -> Binary64.gt (yall g) (yall c) = false) /\
    (forall g, In g before ->
       Binary64.gt (yall c) (yall g) = true \/ Binary64.is_nan (yall g) = true).
Proof.
  intros Hin Hgt. unfold chooseBestGrasp.
  pose proof (@chooseBestGrasp_loop_max filtered_grasps (Binary64.Finite (-1)) chosen
                eq_refl) as Hmax.
  destruct filtered_grasps as [|g l]; [destruct Hin|].
  destruct (chooseBestGrasp_loop (g :: l) (Binary64.Finite (-1)) chosen) as [m c].
  destruct Hmax as (Hm & Hub & [[-> ->]|(Hlt & before & after & Heq & Hc & Hbefore)]).
  - rewrite (Hub g0 Hin) in Hgt. discriminate.
  - exists before, c, after. rewrite Hc. repeat split; assumption.
Qed.

(** X5.  When the yaw angle computed for some solution of the list is
    above -1, [chooseBestGrasp] returns [true] and the solution selected is
    the first one of greatest yaw angle: no solution has a greater one, and
    those before it in the list have a smaller one or a NaN.  The yaw
    angles are the [double] values the code computes and compares. *)
Theorem chooseBestGrasp_selects filtered_grasps chosen g0 :
  In g0 filtered_grasps -> Binary64.gt (yall g0) (Binary64.Finite (-1)) = true ->
  exists before c after,
    chooseBestGrasp filtered_grasps chosen = (true, c) /\
    filtered_grasps = before ++ c :: after /\
    Binary64.gt (yall c) (Binary64.Finite (-1)) = true /\
    (forall g, In g filtered_grasps -> Binary64.gt (yall g) (yall c) = false) /\
    (forall g, In g before ->
       Binary64.gt (yall c) (yall g) = true \/ Binary64.is_nan (yall g) = true).
Proof. apply chooseBestGrasp_first_greatest. Qed.

(** X6.  The stored score [grasp_quality] is not read: with any other
    scores in the solutions the flag is the same and the same solution is
    selected. *)
Lemma chooseBestGrasp_ignores_grasp_quality f filtered_grasps chosen :
  chooseBestGrasp (map (with_grasp_quality f) filtered_grasps) (with_grasp_quality f chosen) =
  (fst (chooseBestGrasp filtered_grasps chosen),
   with_grasp_quality f (snd (chooseBestGrasp filtered_grasps chosen))).
Proof.
  assert (Hloop : forall l m c,
             chooseBestGrasp_loop (map (with_grasp_quality f) l) m (with_grasp_quality f c) =
             (fst (chooseBestGrasp_loop l m c),
              with_grasp_quality f (snd (chooseBestGrasp_loop l m c)))).
  { induction l as [|g l IH]; intros m c.
    - reflexivity.
    - change (map (with_grasp_quality f) (g :: l))
        with (with_grasp_quality f g :: map (with_grasp_quality f) l).
      rewrite !chooseBestGrasp_loop_cons.
      change (yall (with_grasp_quality f g)) with (yall g).
      destruct (Binary64.gt (yall g) m); apply IH. }
  unfold chooseBestGrasp. destruct filtered_grasps as [|g l].
  - reflexivity.
  - change (map (with_grasp_quality f) (g :: l))
      with (with_grasp_quality f g :: map (with_grasp_quality f) l).
    rewrite (Hloop (g :: l)).
    destruct (chooseBestGrasp_loop (g :: l) (Binary64.Finite (-1)) chosen). reflexivity.
Qed.

(** C9.  On a non-empty list in which no yaw angle, as the code computes
    it, is above -1, the initial value of [max_quality], [chooseBestGrasp]
    returns [true] and [chosen] still holds what the caller put there.
    This covers the yaw angles at most -1 and those that are NaN. *)
Theorem chooseBestGrasp_leaves_chosen filtered_grasps chosen :
  filtered_grasps <> [] ->
  (forall g, In g filtered_grasps ->
     Binary64.gt (yall g) (Binary64.Finite (-1)) = false) ->
  chooseBestGrasp filtered_grasps chosen = (true, chosen).
Proof.
  intros Hne Hlow. unfold chooseBestGrasp.
  destruct filtered_grasps as [|g l]; [congruence|].
  now rewrite chooseBestGrasp_loop_unchanged.
Qed.

End Facts.

(** * The rounding error of the work split *)

Module DoubleFacts.
Import Double.
Local Open Scope Q_scope.

Lemma nearest_even_error x : Qabs (inject_Z (nearest_even x) - x) <= 1 # 2.
Proof.
  unfold nearest_even.
  pose proof (Qfloor_le x) as Hlo. pose proof (Qlt_floor x) as Hhi.
  rewrite inject_Z_plus in Hhi. change (inject_Z 1) with 1 in Hhi.
  apply Qabs_Qle_condition.
  destruct (Qcompare_spec (x - inject_Z (Qfloor x)) (1 # 2)) as [He|Hl|Hg].
  - destruct (Z.even (Qfloor x));
      [|rewrite inject_Z_plus; change (inject_Z 1) with 1]; lra.
  - lra.
  - rewrite inject_Z_plus. change (inject_Z 1) with 1. lra.
Qed.

Lemma nearest_even_integer x k : x == inject_Z k -> nearest_even x = k.
Proof.
  intros Hx. unfold nearest_even.
  assert (Hf : Qfloor x = k) by (rewrite Hx; apply Qfloor_Z).
  rewrite Hf.
  destruct (Qcompare_spec (x - inject_Z k) (1 # 2)); [lra | reflexivity | lra].
Qed.

Lemma two_power_pos e : 0 < 2 ^ e.
Proof. apply Qpower_0_lt. reflexivity. Qed.

Lemma two_power_Z e : (0 <= e)%Z -> 2 ^ e == inject_Z (2 ^ e).
Proof. intros He. rewrite Zpower_Qpower by exact He. reflexivity. Qed.

Lemma exponent_le x : 0 < x -> 2 ^ exponent x <= x.
Proof.
  intros Hx. unfold exponent.
  destruct (Qle_bool _ x) eqn:Hb; [now apply Qle_bool_iff|].
  clear Hb. destruct x as [a b]. simpl Qnum. simpl Qden.
  assert (Ha : (0 < a)%Z).
  { unfold Qlt in Hx. simpl in Hx. lia. }
  pose proof (Z.log2_spec a Ha) as [Ha1 _].
  pose proof (Z.log2_spec (Zpos b) (Pos2Z.is_pos b)) as [_ Hb2].
  pose proof (Z.log2_nonneg a) as Hla. pose proof (Z.log2_nonneg (Zpos b)) as Hlb.
  replace (Z.log2 a - Z.log2 (Zpos b) - 1)%Z
    with (Z.log2 a - Z.succ (Z.log2 (Zpos b)))%Z by lia.
  rewrite Qpower_minus by discriminate.
  rewrite !two_power_Z by lia.
  rewrite (Qmake_Qdiv a b).
  assert (H1 : inject_Z (2 ^ Z.log2 a) <= inject_Z a) by (rewrite <- Zle_Qle; lia).
  assert (H2 : inject_Z (Zpos b) < inject_Z (2 ^ Z.succ (Z.log2 (Zpos b))))
    by (rewrite <- Zlt_Qlt; lia).
  assert (H3 : 0 < inject_Z (Zpos b)) by reflexivity.
  assert (H4 : 0 < inject_Z (2 ^ Z.log2 a)).
  { rewrite <- two_power_Z by lia. apply two_power_pos. }
  apply Qle_shift_div_r; [lra|].
  apply Qle_trans with (inject_Z a); [exact H1|].
  setoid_replace (inject_Z a)
    with (inject_Z a / inject_Z (Zpos b) * inject_Z (Zpos b)) at 1 by (field; lra).
  apply Qmult_le_l.
  - apply Qlt_shift_div_l; lra.
  - lra.
Qed.

Lemma round_pos x : 0 < x ->
  round x = inject_Z (nearest_even (x * 2 ^ (52 - exponent x))) / 2 ^ (52 - exponent x).
Proof.
  intros Hx. unfold round.
  destruct (Qcompare_spec x 0); [lra | lra | reflexivity].
Qed.

Lemma round_error x : 0 < x -> Qabs (round x - x) <= x * unit_roundoff.
Proof.
  intros Hx. rewrite (round_pos Hx).
  pose proof (exponent_le Hx) as He.
  set (e := exponent x) in *.
  pose proof (two_power_pos e) as HE. pose proof (two_power_pos (52 - e)) as Hs.
  assert (Hprod : 2 ^ e * 2 ^ (52 - e) == 4503599627370496).
  { rewrite <- Qpower_plus by discriminate.
    replace (e + (52 - e))%Z with 52%Z by lia. reflexivity. }
  pose proof (nearest_even_error (x * 2 ^ (52 - e))) as Hm.
  set (s := 2 ^ (52 - e)) in *. set (E := 2 ^ e) in *.
  set (M := inject_Z (nearest_even (x * s))) in *.
  apply Qabs_Qle_condition in Hm. apply Qabs_Qle_condition.
  assert (Hxs : 4503599627370496 <= x * s).
  { rewrite <- Hprod. apply Qmult_le_compat_r; lra. }
  unfold unit_roundoff.
  split.
  - apply (Qmult_le_r _ _ s Hs).
    setoid_replace ((M / s - x) * s) with (M - x * s) by (field; lra).
    setoid_replace (- (x * (1 # 9007199254740992)) * s)
      with (- ((x * s) * (1 # 9007199254740992))) by ring.
    lra.
  - apply (Qmult_le_r _ _ s Hs).
    setoid_replace ((M / s - x) * s) with (M - x * s) by (field; lra).
    setoid_replace (x * (1 # 9007199254740992) * s)
      with ((x * s) * (1 # 9007199254740992)) by ring.
    lra.
Qed.

Lemma round_integer x k :
  x == inject_Z k -> (0 < k < 2 ^ 53)%Z -> round x == inject_Z k.
Proof.
  intros Hx Hk.
  assert (Hpos : 0 < x).
  { rewrite Hx. change 0 with (inject_Z 0). rewrite <- Zlt_Qlt. lia. }
  rewrite (round_pos Hpos).
  pose proof (exponent_le Hpos) as He.
  set (e := exponent x) in *.
  assert (Hlt : x < 2 ^ 53).
  { rewrite Hx, two_power_Z by lia. rewrite <- Zlt_Qlt. lia. }
  assert (He52 : (e <= 52)%Z).
  { destruct (Z_le_gt_dec e 52) as [|Hgt]; [assumption|].
    assert (2 ^ 53 <= 2 ^ e) by (apply Qpower_le_compat_l; [lia | discriminate]).
    lra. }
  assert (Hs : 2 ^ (52 - e) == inject_Z (2 ^ (52 - e))) by (apply two_power_Z; lia).
  assert (Hspos : (0 < 2 ^ (52 - e))%Z) by (apply Z.pow_pos_nonneg; lia).
  rewrite (@nearest_even_integer _ (k * 2 ^ (52 - e))%Z).
  - rewrite Hs, inject_Z_mult. field.
    change 0 with (inject_Z 0). rewrite inject_Z_injective. lia.
  - rewrite Hx, Hs, inject_Z_mult. reflexivity.
Qed.

Lemma of_nat_exact k :
  (0 < Z.of_nat k < 2 ^ 53)%Z -> of_nat k == inject_Z (Z.of_nat k).
Proof. intros Hk. apply round_integer; [reflexivity | exact Hk]. Qed.

Section Share.
Variables n t m : nat.
Hypothesis Ht : (1 <= t <= n)%nat.
Hypothesis Hm : (1 <= m <= t)%nat.
Hypothesis Hsmall : (3 * Z.of_nat n * Z.of_nat t < 2 ^ 53)%Z.

Let nQ := inject_Z (Z.of_nat n).
Let tQ := inject_Z (Z.of_nat t).
Let mQ := inject_Z (Z.of_nat m).

Lemma share_operands :
  of_nat n == nQ /\ of_nat t == tQ /\ of_nat m == mQ /\
  1 <= tQ /\ tQ <= nQ /\ 1 <= mQ /\ mQ <= tQ /\
  nQ * tQ * 3 < 9007199254740992.
Proof.
  assert (Hpow : (2 ^ 53 = 9007199254740992)%Z) by reflexivity.
  repeat split.
  - apply of_nat_exact. nia.
  - apply of_nat_exact. nia.
  - apply of_nat_exact. nia.
  - unfold tQ. change 1 with (inject_Z 1). rewrite <- Zle_Qle. lia.
  - unfold tQ, nQ. rewrite <- Zle_Qle. lia.
  - unfold mQ. change 1 with (inject_Z 1). rewrite <- Zle_Qle. lia.
  - unfold tQ, mQ. rewrite <- Zle_Qle. lia.
  - unfold tQ, nQ. change 3 with (inject_Z 3).
    change 9007199254740992 with (inject_Z 9007199254740992).
    rewrite <- !inject_Z_mult, <- Zlt_Qlt. lia.
Qed.

Lemma share_error : Qabs ((share n t m) - nQ * mQ / tQ) < 1 / tQ.
Proof.
  destruct share_operands as (HN & HT & HM & Ht1 & Htn & Hm1 & Hmt & Hnt).
  unfold share, mul, div.
  set (x1 := of_nat n / of_nat t).
  assert (Hx1 : x1 == nQ / tQ) by (unfold x1; rewrite HN, HT; reflexivity).
  set (a := nQ / tQ) in *.
  assert (Hat : a * tQ == nQ) by (unfold a; field; lra).
  assert (Ha : 0 < a) by (unfold a; apply Qlt_shift_div_l; lra).
  assert (Hx1pos : 0 < x1) by (rewrite Hx1; exact Ha).
  pose proof (round_error Hx1pos) as Hq.
  set (q := round x1) in *.
  apply Qabs_Qle_condition in Hq. rewrite Hx1 in Hq. unfold unit_roundoff in Hq.
  set (x2 := q * of_nat m).
  assert (Hx2 : x2 == q * mQ) by (unfold x2; rewrite HM; reflexivity).
  assert (Hqpos : 0 < q) by lra.
  assert (Hx2pos : 0 < x2) by (rewrite Hx2; apply Qmult_lt_0_compat; lra).
  pose proof (round_error Hx2pos) as Hp.
  set (p := round x2) in *.
  apply Qabs_Qle_condition in Hp. rewrite Hx2 in Hp. unfold unit_roundoff in Hp.
  (* the products met below, as atoms *)
  assert (HB1 : q * mQ <= (a + a * (1 # 9007199254740992)) * mQ)
    by (apply Qmult_le_compat_r; lra).
  assert (HB2 : (a - a * (1 # 9007199254740992)) * mQ <= q * mQ)
    by (apply Qmult_le_compat_r; lra).
  assert (HA : a * mQ <= nQ).
  { rewrite <- Hat. apply Qmult_le_l; lra. }
  assert (HApos : 0 < a * mQ) by (apply Qmult_lt_0_compat; lra).
  assert (Hw : nQ * (3 # 9007199254740992) < 1 / tQ).
  { apply Qlt_shift_div_l; [lra|].
    setoid_replace (nQ * (3 # 9007199254740992) * tQ)
      with (nQ * tQ * 3 * (1 # 9007199254740992)) by ring.
    lra. }
  setoid_replace (nQ * mQ / tQ) with (a * mQ) by (unfold a; field; lra).
  set (A := a * mQ) in *. set (B := q * mQ) in *.
  setoid_replace ((a + a * (1 # 9007199254740992)) * mQ)
    with (A + A * (1 # 9007199254740992)) in HB1 by (unfold A; ring).
  setoid_replace ((a - a * (1 # 9007199254740992)) * mQ)
    with (A - A * (1 # 9007199254740992)) in HB2 by (unfold A; ring).
  set (W := 1 / tQ) in *.
  apply Qabs_case; intros _; lra.
Qed.

Lemma share_exact :
  (Z.of_nat n mod Z.of_nat t = 0)%Z ->
  (share n t m) == inject_Z (Z.of_nat n / Z.of_nat t * Z.of_nat m).
Proof.
  intros Hdiv.
  destruct share_operands as (HN & HT & HM & Ht1 & Htn & Hm1 & Hmt & Hnt).
  assert (Hn : (Z.of_nat n = Z.of_nat t * (Z.of_nat n / Z.of_nat t))%Z).
  { pose proof (Z.div_mod (Z.of_nat n) (Z.of_nat t)). lia. }
  set (q0 := (Z.of_nat n / Z.of_nat t)%Z) in *.
  assert (Hq0 : (1 <= q0)%Z) by nia.
  assert (Hq : div (of_nat n) (of_nat t) == inject_Z q0).
  { unfold div. apply round_integer.
    - rewrite HN, HT. unfold nQ, tQ. rewrite Hn, inject_Z_mult. field.
      fold tQ. lra.
    - nia. }
  unfold share, mul. apply round_integer.
  - rewrite Hq, HM. unfold mQ. rewrite inject_Z_mult. reflexivity.
  - nia.
Qed.

(** The end index computed in pass [i = m - 1], before it is limited to
    the size: the ceiling of the exact (share n t m), or one more where the exact
    (share n t m) is a whole number that the rounded product exceeds. *)
Lemma ceil_share :
  let a := (Z.of_nat n * Z.of_nat m)%Z in
  let E := ceil (share n t m) in
  (a / Z.of_nat t + (if (a mod Z.of_nat t =? 0)%Z then 0 else 1) <= E <= a / Z.of_nat t + 1)%Z /\
  ((Z.of_nat n mod Z.of_nat t = 0)%Z -> E = (a / Z.of_nat t)%Z).
Proof.
  intros a E.
  destruct share_operands as (HN & HT & HM & Ht1 & Htn & Hm1 & Hmt & Hnt).
  pose proof share_error as Herr.
  assert (HtZ : (0 < Z.of_nat t)%Z) by lia.
  pose proof (Z.div_mod a (Z.of_nat t)) as Hdm.
  pose proof (Z.mod_pos_bound a (Z.of_nat t) HtZ) as Hr.
  set (k := (a / Z.of_nat t)%Z) in *. set (r := (a mod Z.of_nat t)%Z) in *.
  assert (Ha : nQ * mQ == inject_Z k * tQ + inject_Z r).
  { unfold nQ, mQ, tQ. rewrite <- !inject_Z_mult, <- inject_Z_plus.
    apply inject_Z_injective. fold a. lia. }
  assert (Hexact : nQ * mQ / tQ == inject_Z k + inject_Z r / tQ).
  { rewrite Ha. field. lra. }
  rewrite Hexact in Herr.
  assert (Hr0 : 0 <= inject_Z r)
    by (change 0 with (inject_Z 0); rewrite <- Zle_Qle; lia).
  assert (Hr1 : inject_Z r + 1 <= tQ).
  { unfold tQ. change 1 with (inject_Z 1). rewrite <- inject_Z_plus, <- Zle_Qle. lia. }
  assert (Hrt : inject_Z r / tQ + 1 / tQ <= 1).
  { setoid_replace (inject_Z r / tQ + 1 / tQ) with ((inject_Z r + 1) / tQ) by (field; lra).
    apply Qle_shift_div_r; lra. }
  assert (Hw : 0 < 1 / tQ <= 1).
  { split; [apply Qlt_shift_div_l; lra | apply Qle_shift_div_r; lra]. }
  assert (Hrq : 0 <= inject_Z r / tQ) by (apply Qle_shift_div_l; lra).
  pose proof (Qle_ceiling (share n t m)) as Hc1. pose proof (Qceiling_lt (share n t m)) as Hc2.
  fold (ceil (share n t m)) in Hc1, Hc2. fold E in Hc1, Hc2.
  unfold Z.sub in Hc2. rewrite inject_Z_plus in Hc2.
  change (inject_Z (- (1))) with (- (1)) in Hc2.
  set (W := 1 / tQ) in *. set (F := inject_Z r / tQ) in *.
  assert (Hbounds : inject_Z k + inject_Z (- (1)) < inject_Z E /\
                    inject_Z E < inject_Z k + inject_Z 2).
  { change (inject_Z (- (1))) with (- (1)). change (inject_Z 2) with 2.
    revert Herr. apply Qabs_case; intros Hsign Herr; split; lra. }
  destruct Hbounds as [Hb1 Hb2].
  rewrite <- inject_Z_plus, <- Zlt_Qlt in Hb1.
  rewrite <- inject_Z_plus, <- Zlt_Qlt in Hb2.
  split.
  - destruct (Z.eqb_spec r 0) as [Hz|Hnz]; [lia|].
    assert (Hr2 : 1 <= inject_Z r)
      by (change 1 with (inject_Z 1); rewrite <- Zle_Qle; lia).
    assert (HF : W <= F).
    { unfold W, F. apply Qle_shift_div_l; [lra|].
      setoid_replace (1 / tQ * tQ) with 1 by (field; lra). exact Hr2. }
    assert (Hb3 : inject_Z k < inject_Z E).
    { revert Herr. apply Qabs_case; intros Hsign Herr; lra. }
    rewrite <- Zlt_Qlt in Hb3. lia.
  - intros Hdiv. unfold E, ceil. rewrite (share_exact Hdiv), Qceiling_Z.
    unfold k, a.
    pose proof (Z.div_mod (Z.of_nat n) (Z.of_nat t)) as Hn.
    set (q0 := (Z.of_nat n / Z.of_nat t)%Z) in *.
    replace (Z.of_nat n * Z.of_nat m)%Z with (q0 * Z.of_nat m * Z.of_nat t)%Z by nia.
    rewrite Z.div_mul by lia. reflexivity.
Qed.
End Share.
End DoubleFacts.

(** * The work split *)

Local Open Scope Z_scope.

Lemma step_arith (n t a k r k' r' q0 r0 E E' : Z) :
  0 < t <= n -> 0 <= a ->
  a = t * k + r -> 0 <= r < t ->
  a + n = t * k' + r' -> 0 <= r' < t ->
  n = t * q0 + r0 -> 0 <= r0 < t ->
  k + (if r =? 0 then 0 else 1) <= E <= k + 1 ->
  k' + (if r' =? 0 then 0 else 1) <= E' <= k' + 1 ->
  (r0 = 0 -> E = k /\ E' = k') ->
  E <= E' /\ E' - E <= q0 + (if r0 =? 0 then 0 else 1).
Proof.
  intros Ht Ha Hk Hr Hk' Hr' Hq Hr0 HE HE' Hex.
  assert (Hq0 : 1 <= q0) by nia.
  assert (Hd0 : t * (k' - k - q0) = r + r0 - r').
  { replace (t * (k' - k - q0)) with (t * k' - t * k - t * q0) by ring. lia. }
  assert (Hd1 : -1 < k' - k - q0 < 2) by nia.
  assert (Hd : k' - k - q0 = 0 /\ r' = r + r0 \/ k' - k - q0 = 1 /\ r' = r + r0 - t).
  { assert (Hc : k' - k - q0 = 0 \/ k' - k - q0 = 1) by lia.
    destruct Hc as [Hc|Hc]; rewrite Hc in Hd0; [left|right]; split; lia. }
  destruct (Z.eqb_spec r0 0) as [Hz|Hnz].
  - destruct (Hex Hz) as [-> ->]. nia.
  - clear Hex. destruct (Z.eqb_spec r 0), (Z.eqb_spec r' 0); nia.
Qed.

Lemma ceiling_share_arith (n t q0 r0 : Z) :
  0 < t -> n = t * q0 + r0 -> 0 <= r0 < t ->
  (n + t - 1) / t = q0 + (if r0 =? 0 then 0 else 1).
Proof.
  intros Ht Hn Hr0. destruct (Z.eqb_spec r0 0) as [Hz|Hnz].
  - symmetry. apply (Z.div_unique _ _ _ (t - 1)); lia.
  - symmetry. apply (Z.div_unique _ _ _ (r0 - 1)); lia.
Qed.

Lemma limit_to_size_min e n : 0 <= e -> limit_to_size e n = Z.min e (Z.of_nat n).
Proof.
  intros He. unfold limit_to_size.
  destruct (Z.ltb_spec e 0); [lia|]. simpl.
  destruct (Z.leb_spec (Z.of_nat n) e); lia.
Qed.

Section Ends.
Variables n t : nat.
Hypothesis Ht : (1 <= t <= n)%nat.
Hypothesis Hsmall : 3 * Z.of_nat n * Z.of_nat t < 2 ^ 53.

Lemma share_end_last : share_end n t t = Z.of_nat n.
Proof.
  unfold share_end. destruct t as [|t'] eqn:Et; [lia|]. rewrite <- Et in *.
  assert (Hm : (1 <= t <= t)%nat) by lia.
  destruct (DoubleFacts.ceil_share Ht Hm Hsmall) as [[Hlo Hhi] _].
  rewrite Z.div_mul, Z_mod_mult in Hlo by lia. rewrite Z.div_mul in Hhi by lia.
  simpl in Hlo. rewrite limit_to_size_min by lia. lia.
Qed.

Lemma share_end_step m :
  (m < t)%nat ->
  0 <= share_end n t m <= share_end n t (S m) /\
  share_end n t (S m) <= Z.of_nat n /\
  share_end n t (S m) - share_end n t m <= ceiling_share n t.
Proof.
  intros Hm.
  assert (HtZ : 0 < Z.of_nat t) by lia.
  pose proof (Z.div_mod (Z.of_nat n) (Z.of_nat t)) as Hn.
  pose proof (Z.mod_pos_bound (Z.of_nat n) (Z.of_nat t) HtZ) as Hr0.
  unfold ceiling_share.
  rewrite (@ceiling_share_arith (Z.of_nat n) (Z.of_nat t) (Z.of_nat n / Z.of_nat t)
                                (Z.of_nat n mod Z.of_nat t)) by lia.
  assert (Hm' : (1 <= S m <= t)%nat) by lia.
  destruct (DoubleFacts.ceil_share Ht Hm' Hsmall) as [HE' Hex'].
  pose proof (Z.div_mod (Z.of_nat n * Z.of_nat (S m)) (Z.of_nat t)) as Hk'.
  pose proof (Z.mod_pos_bound (Z.of_nat n * Z.of_nat (S m)) (Z.of_nat t) HtZ) as Hr'.
  assert (Hk'0 : 0 <= Z.of_nat n * Z.of_nat (S m) / Z.of_nat t)
    by (apply Z.div_pos; lia).
  set (E' := Double.ceil (share n t (S m))) in *.
  set (k' := Z.of_nat n * Z.of_nat (S m) / Z.of_nat t) in *.
  set (r' := (Z.of_nat n * Z.of_nat (S m)) mod Z.of_nat t) in *.
  set (q0 := Z.of_nat n / Z.of_nat t) in *.
  set (r0 := Z.of_nat n mod Z.of_nat t) in *.
  assert (HE'0 : 0 <= E') by (destruct (r' =? 0); lia).
  change (share_end n t (S m)) with (limit_to_size E' n).
  rewrite (limit_to_size_min n HE'0).
  destruct m as [|m0].
  - (* the first range starts at 0 *)
    change (share_end n t 0) with 0.
    assert (Hk1 : k' = q0 /\ r' = r0).
    { unfold k', r', q0, r0. rewrite Z.mul_1_r. split; reflexivity. }
    destruct Hk1 as [Hk1 Hr1]. rewrite Hk1, Hr1 in *.
    destruct (Z.eqb_spec r0 0) as [Hz|Hnz].
    + rewrite (Hex' Hz). lia.
    + lia.
  - assert (Hm1 : (1 <= S m0 <= t)%nat) by lia.
    destruct (DoubleFacts.ceil_share Ht Hm1 Hsmall) as [HE Hex].
    pose proof (Z.div_mod (Z.of_nat n * Z.of_nat (S m0)) (Z.of_nat t)) as Hk.
    pose proof (Z.mod_pos_bound (Z.of_nat n * Z.of_nat (S m0)) (Z.of_nat t) HtZ) as Hr.
    assert (Hk0 : 0 <= Z.of_nat n * Z.of_nat (S m0) / Z.of_nat t)
      by (apply Z.div_pos; lia).
    set (E := Double.ceil (share n t (S m0))) in *.
    set (k := Z.of_nat n * Z.of_nat (S m0) / Z.of_nat t) in *.
    set (r := (Z.of_nat n * Z.of_nat (S m0)) mod Z.of_nat t) in *.
    assert (HE0 : 0 <= E) by (destruct (r =? 0); lia).
    change (share_end n t (S m0)) with (limit_to_size E n).
    rewrite (limit_to_size_min n HE0).
    assert (Hstep : E <= E' /\ E' - E <= q0 + (if r0 =? 0 then 0 else 1)).
    { apply (@step_arith (Z.of_nat n) (Z.of_nat t) (Z.of_nat n * Z.of_nat (S m0))
                         k r k' r' q0 r0 E E'); try lia.
      all: intros Hz; split; [apply Hex | apply Hex']; exact Hz. }
    lia.
Qed.
End Ends.

Section WorkSplit.
Context `{C : Collaborators}.
Variables (possible_grasps : list moveit_msgs.Grasp) (link_transform : Affine3d)
          (solvers : list (option Solver)) (filter_pregrasp : bool)
          (ee_jmg : option (JointModelGroup Solver)) (timeout : R) (verbose : bool)
          (num_threads : nat).

Let n := length possible_grasps.
Let t := num_threads.

Lemma create_threads_ranges : forall count i,
  (i + count <= length solvers)%nat ->
  exists threads,
    create_threads possible_grasps link_transform solvers filter_pregrasp ee_jmg
                   timeout verbose
                   (Double.div (Double.of_nat n) (Double.of_nat t))
                   count i (share_end n t i) = Returns threads /\
    map range_of threads = share_ranges n t count i /\
    Forall (fun tc => possible_grasps_ tc = possible_grasps /\
                      filter_pregrasp_ tc = filter_pregrasp /\
                      (exists k, nth_error solvers k = Some (kin_solver_ tc))) threads.
Proof.
  induction count as [|count IH]; intros i Hlen.
  - exists []. repeat split. constructor.
  - cbn [create_threads].
    assert (Hi : (i < length solvers)%nat) by lia.
    destruct (nth_error solvers i) as [ks|] eqn:Hks;
      [|apply nth_error_None in Hks; lia].
    unfold at_index at 1.
    destruct (Z.ltb_spec (Z.of_nat i) 0) as [|_]; [lia|].
    rewrite Nat2Z.id, Hks. cbn [deref bind].
    replace (i + 1)%nat with (S i) by lia.
    fold n.
    change (limit_to_size
              (Double.ceil (Double.mul (Double.div (Double.of_nat n) (Double.of_nat t))
                                       (Double.of_nat (S i)))) n)
      with (share_end n t (S i)).
    destruct (IH (S i)) as (threads & -> & Hranges & Hall); [lia|].
    cbn [bind]. eexists. split; [reflexivity|]. split.
    + cbn [map share_ranges]. unfold range_of at 1. cbn. now rewrite Hranges.
    + constructor; [|exact Hall]. cbn. repeat split. now exists i.
Qed.

Lemma map_seq_from len : forall (s : Z) a,
  map (fun k => s + Z.of_nat k) (seq a len) =
  map (fun k => s + Z.of_nat a + Z.of_nat k) (seq 0 len).
Proof.
  induction len as [|len IH]; intros s a.
  - reflexivity.
  - cbn [seq map]. f_equal; [lia|].
    rewrite (IH s (S a)), (IH (s + Z.of_nat a) 1%nat). apply map_ext. intros k. lia.
Qed.

Lemma int_range_app s m e :
  s <= m <= e -> int_range s m ++ int_range m e = int_range s e.
Proof.
  intros H. unfold int_range.
  replace (Z.to_nat (e - s)) with (Z.to_nat (m - s) + Z.to_nat (e - m))%nat by lia.
  rewrite seq_app, map_app. f_equal.
  cbn [Nat.add]. rewrite (map_seq_from (Z.to_nat (e - m)) s (Z.to_nat (m - s))).
  apply map_ext. intros k. lia.
Qed.

Lemma share_ranges_cover :
  (1 <= t <= n)%nat -> 3 * Z.of_nat n * Z.of_nat t < 2 ^ 53 ->
  forall count i, (i + count)%nat = t ->
    flat_map (fun r => int_range (fst r) (snd r)) (share_ranges n t count i) =
    int_range (share_end n t i) (Z.of_nat n) /\
    Forall (fun r => 0 <= fst r <= snd r /\ snd r <= Z.of_nat n /\
                     snd r - fst r <= ceiling_share n t)
           (share_ranges n t count i).
Proof.
  intros Ht Hsmall. induction count as [|count IH]; intros i Hi.
  - replace i with t by lia. rewrite (share_end_last Ht Hsmall).
    cbn. unfold int_range. rewrite Z.sub_diag. split; [reflexivity|constructor].
  - destruct (IH (S i)) as [Hcover Hall]; [lia|].
    assert (Hit : (i < t)%nat) by lia.
    destruct (share_end_step Ht Hsmall Hit) as (Hmono & Hle & Hsize).
    cbn [share_ranges flat_map fst snd]. split.
    + rewrite Hcover. apply int_range_app. lia.
    + constructor; [|exact Hall]. cbn [fst snd]. lia.
Qed.

(** C4.  For a non-empty candidate list and a worker count between 1 and
    the number of candidates, the loop that creates the threads gives as
    many ranges as workers; the indices of the ranges, taken in order, are
    the indices of the candidates, each once; and no range is longer than
    the ceiling share.  The two counts are in the range where the rounding
    of the [double] arithmetic cannot move an end index past the next
    whole number: their product is below 2^53 / 3, which holds for any
    list of fewer than 2^25 candidates. *)
Theorem create_threads_partition :
  possible_grasps <> [] ->
  (1 <= num_threads <= length possible_grasps)%nat ->
  3 * Z.of_nat (length possible_grasps) * Z.of_nat num_threads < 2 ^ 53 ->
  length solvers = num_threads ->
  exists threads,
    create_threads possible_grasps link_transform solvers filter_pregrasp ee_jmg
                   timeout verbose
                   (Double.div (Double.of_nat (length possible_grasps))
                               (Double.of_nat num_threads))
                   num_threads 0 0 = Returns threads /\
    length threads = num_threads /\
    flat_map (fun tc => int_range (grasps_id_start_ tc) (grasps_id_end_ tc)) threads =
    int_range 0 (Z.of_nat (length possible_grasps)) /\
    forall tc, In tc threads ->
      0 <= grasps_id_start_ tc <= grasps_id_end_ tc /\
      grasps_id_end_ tc <= Z.of_nat (length possible_grasps) /\
      grasps_id_end_ tc - grasps_id_start_ tc <=
      (Z.of_nat (length possible_grasps) + Z.of_nat num_threads - 1) / Z.of_nat num_threads.
Proof.
  intros _ Ht Hsmall Hsolvers.
  change (length possible_grasps) with n in Ht, Hsmall |- *.
  change num_threads with t in Ht, Hsmall, Hsolvers |- *.
  destruct (create_threads_ranges t 0) as (threads & Hrun & Hranges & _); [lia|].
  change (share_end n t 0) with 0 in Hrun.
  destruct (share_ranges_cover Ht Hsmall t 0 eq_refl) as [Hcover Hall].
  exists threads. split; [exact Hrun|]. rewrite <- Hranges in Hcover, Hall.
  split; [|split].
  - assert (Hlen : forall count i, length (share_ranges n t count i) = count)
      by (induction count; intros; cbn; auto).
    rewrite <- (Hlen t 0%nat), <- Hranges. now rewrite length_map.
  - change (int_range 0 (Z.of_nat n)) with (int_range (share_end n t 0) (Z.of_nat n)).
    rewrite <- Hcover. rewrite flat_map_concat_map, flat_map_concat_map, map_map.
    reflexivity.
  - intros tc Hin. rewrite Forall_forall in Hall.
    apply (Hall (range_of tc)). now apply in_map.
Qed.
End WorkSplit.

Local Close Scope Z_scope.

(** * Stage A *)

Section StageA.
Context `{C : Collaborators}.

Lemma stage_runs_app c1 c2 : stage_runs (c1 ++ c2) = stage_runs c1 + stage_runs c2.
Proof. unfold stage_runs. now rewrite filter_app, length_app. Qed.

Lemma quietly_after_refl gf : quietly_after gf gf.
Proof.
  split; [repeat split|]. exists []. now rewrite app_nil_r.
Qed.

Lemma quietly_after_trans gf1 gf2 gf3 :
  quietly_after gf1 gf2 -> quietly_after gf2 gf3 -> quietly_after gf1 gf3.
Proof.
  intros [(A1 & A2 & A3 & A4) (es & E1 & Q1)] [(B1 & B2 & B3 & B4) (es' & E2 & Q2)].
  split; [repeat split; congruence|].
  exists (es ++ es'). split.
  - rewrite E2, E1, app_assoc. reflexivity.
  - rewrite stage_runs_app. lia.
Qed.

Lemma quietly_after_emit es gf :
  stage_runs es = 0 -> quietly_after gf (emit es gf).
Proof.
  intros Hq. split; [repeat split|]. now exists es.
Qed.

(** One pass through the loop body of [filterGraspThread], for a
    candidate that exists, a solver that is not null and, where the
    pre-grasp is filtered, an end-effector group that is not null. *)
Lemma filterGraspThread_body_spec tc i ik_seed_state filtered_grasps gf
      kin_solver candidate :
  at_index (possible_grasps_ tc) i = Returns candidate ->
  kin_solver_ tc = Some kin_solver ->
  forall ee_jmg, (filter_pregrasp_ tc = true -> ee_jmg_ tc = Some ee_jmg) ->
  let grasp_ik := grasp_ik_call tc kin_solver candidate ik_seed_state in
  let pregrasp_ik := pregrasp_ik_call tc kin_solver ee_jmg candidate (fst grasp_ik) in
  let accepted :=
    snd grasp_ik = moveit_msgs.MoveItErrorCodes.SUCCESS /\
    (filter_pregrasp_ tc = true ->
     snd pregrasp_ik = moveit_msgs.MoveItErrorCodes.SUCCESS) in
  exists ik_seed_state' filtered_grasps' gf',
    filterGraspThread_body tc i (ik_seed_state, filtered_grasps, gf) =
    Returns (ik_seed_state', filtered_grasps', gf') /\
    quietly_after gf gf' /\
    (accepted /\
     filtered_grasps' =
     filtered_grasps ++
     [solution_of candidate (fst grasp_ik)
                  (if filter_pregrasp_ tc then fst pregrasp_ik else [])]
     \/
     ~ accepted /\ filtered_grasps' = filtered_grasps).
Proof.
  intros Hcand Hks ee_jmg Hee grasp_ik pregrasp_ik accepted.
  unfold filterGraspThread_body. rewrite Hcand, Hks. cbn [bind deref].
  set (gf1 := if verbose_ tc then emit _ gf else gf).
  assert (Hgf1 : quietly_after gf gf1).
  { unfold gf1. destruct (verbose_ tc);
      [apply quietly_after_emit; reflexivity | apply quietly_after_refl]. }
  subst accepted pregrasp_ik grasp_ik. unfold grasp_ik_call, pregrasp_ik_call.
  destruct (searchPositionIK kin_solver _ ik_seed_state (timeout_ tc))
    as [grasp_ik_solution error_code] eqn:Hik.
  cbn [fst snd].
  destruct (Z.eqb_spec error_code moveit_msgs.MoveItErrorCodes.SUCCESS) as [Hok|Hko].
  - destruct (filter_pregrasp_ tc) eqn:Hfp.
    + rewrite (Hee eq_refl). cbn [bind deref].
      destruct (searchPositionIK kin_solver _ grasp_ik_solution (timeout_ tc))
        as [pregrasp_ik_solution error_code'] eqn:Hpre.
      cbn [fst snd].
      destruct (Z.eqb_spec error_code' moveit_msgs.MoveItErrorCodes.NO_IK_SOLUTION)
        as [Hno|Hno'].
      { do 3 eexists. split; [reflexivity|]. split; [exact Hgf1|].
        right. split; [|reflexivity]. intros [_ Hacc].
        specialize (Hacc eq_refl). rewrite Hno in Hacc. discriminate. }
      destruct (Z.eqb_spec error_code' moveit_msgs.MoveItErrorCodes.TIMED_OUT)
        as [Hto|Hto'].
      { do 3 eexists. split; [reflexivity|]. split; [exact Hgf1|].
        right. split; [|reflexivity]. intros [_ Hacc].
        specialize (Hacc eq_refl). rewrite Hto in Hacc. discriminate. }
      destruct (Z.eqb_spec error_code' moveit_msgs.MoveItErrorCodes.SUCCESS)
        as [Hok'|Hko'].
      * do 3 eexists. split; [reflexivity|]. split; [exact Hgf1|].
        left. split; [split; [exact Hok | intros _; exact Hok'] | reflexivity].
      * do 3 eexists. split; [reflexivity|]. split.
        { apply (quietly_after_trans Hgf1). apply quietly_after_emit. reflexivity. }
        right. split; [|reflexivity]. intros [_ Hacc]. now specialize (Hacc eq_refl).
    + do 3 eexists. split; [reflexivity|]. split.
      { apply (quietly_after_trans Hgf1). apply quietly_after_emit. reflexivity. }
      left. split; [split; [exact Hok | discriminate] | reflexivity].
  - destruct (Z.eqb_spec error_code moveit_msgs.MoveItErrorCodes.NO_IK_SOLUTION).
    { do 3 eexists. split; [reflexivity|]. split; [exact Hgf1|].
      right. split; [|reflexivity]. intros [Hacc _]. contradiction. }
    destruct (Z.eqb_spec error_code moveit_msgs.MoveItErrorCodes.TIMED_OUT).
    { do 3 eexists. split; [reflexivity|]. split; [exact Hgf1|].
      right. split; [|reflexivity]. intros [Hacc _]. contradiction. }
    do 3 eexists. split; [reflexivity|]. split.
    { apply (quietly_after_trans Hgf1). apply quietly_after_emit. reflexivity. }
    right. split; [|reflexivity]. intros [Hacc _]. contradiction.
Qed.

Lemma filterGraspThread_loop_app tc ids1 ids2 st :
  filterGraspThread_loop tc (ids1 ++ ids2) st =
  (st' <- filterGraspThread_loop tc ids1 st ;; filterGraspThread_loop tc ids2 st').
Proof.
  revert st. induction ids1 as [|i ids1 IH]; intros st.
  - reflexivity.
  - cbn [app filterGraspThread_loop].
    destruct (filterGraspThread_body tc i st) as [st'|]; cbn [bind]; [apply IH|reflexivity].
Qed.

Lemma at_index_in_range {A} (v : list A) (first last i : Z) :
  (0 <= first)%Z -> (last <= Z.of_nat (length v))%Z -> In i (int_range first last) ->
  exists a, at_index v i = Returns a.
Proof.
  intros Hfirst Hlast Hin. unfold int_range in Hin.
  apply in_map_iff in Hin. destruct Hin as (k & <- & Hk). apply in_seq in Hk.
  unfold at_index. destruct (Z.ltb_spec (first + Z.of_nat k) 0) as [|_]; [lia|].
  destruct (nth_error v (Z.to_nat (first + Z.of_nat k))) as [a|] eqn:Hn.
  - now exists a.
  - apply nth_error_None in Hn. lia.
Qed.

(** The loop runs to its end, and only appends. *)
Lemma filterGraspThread_loop_returns tc ids :
  kin_solver_ tc <> None ->
  (filter_pregrasp_ tc = true -> ee_jmg_ tc <> None) ->
  (forall i, In i ids -> exists c, at_index (possible_grasps_ tc) i = Returns c) ->
  forall ik_seed_state filtered_grasps gf,
  exists ik_seed_state' appended gf',
    filterGraspThread_loop tc ids (ik_seed_state, filtered_grasps, gf) =
    Returns (ik_seed_state', filtered_grasps ++ appended, gf') /\
    quietly_after gf gf'.
Proof.
  intros Hks Hee. induction ids as [|i ids IH]; intros Hids seed fg gf.
  - exists seed, [], gf. rewrite app_nil_r. split; [reflexivity|apply quietly_after_refl].
  - destruct (Hids i (or_introl eq_refl)) as [c Hc].
    destruct (kin_solver_ tc) as [ks|] eqn:Eks; [|congruence].
    assert (Hee' : exists ee, filter_pregrasp_ tc = true -> ee_jmg_ tc = Some ee).
    { destruct (filter_pregrasp_ tc).
      - destruct (ee_jmg_ tc) as [ee|]; [now exists ee | now destruct (Hee eq_refl)].
      - exists (Build_JointModelGroup ""%string 0%R 0 [] None (""%string, ""%string)).
        discriminate. }
    destruct Hee' as [ee Hee'].
    destruct (@filterGraspThread_body_spec tc i seed fg gf ks c Hc Eks ee Hee')
      as (seed1 & fg1 & gf1 & Hbody & Hq1 & Hfg1).
    cbn [filterGraspThread_loop]. rewrite Hbody. cbn [bind].
    destruct (IH (fun j Hj => Hids j (or_intror Hj)) seed1 fg1 gf1)
      as (seed2 & app2 & gf2 & Hloop & Hq2).
    rewrite Hloop.
    destruct Hfg1 as [[_ ->]|[_ ->]].
    + do 3 eexists. split; [rewrite <- app_assoc; reflexivity|].
      exact (quietly_after_trans Hq1 Hq2).
    + do 3 eexists. split; [reflexivity|]. exact (quietly_after_trans Hq1 Hq2).
Qed.

Lemma filterGraspThread_returns tc filtered_grasps gf :
  well_formed_thread tc ->
  exists appended gf',
    filterGraspThread tc filtered_grasps gf = Returns (filtered_grasps ++ appended, gf') /\
    quietly_after gf gf'.
Proof.
  intros (Hfirst & Hlast & Hks & Hee). unfold filterGraspThread.
  destruct (@filterGraspThread_loop_returns tc
              (int_range (grasps_id_start_ tc) (grasps_id_end_ tc)) Hks Hee
              (fun i Hi => @at_index_in_range _ _ _ _ _ Hfirst Hlast Hi)
              (repeat 0%R (num_variables_ gf)) filtered_grasps gf)
    as (seed' & appended & gf' & -> & Hq).
  cbn [bind]. now exists appended, gf'.
Qed.

(** C1.  A thread whose run is defined runs to its end.  For every
    candidate [i] of its range, with the loop at the point where [i] is
    next: the pass for [i] appends one solution, made of that candidate,
    to the shared vector exactly when the IK call for the grasp pose
    returns SUCCESS and, if the pre-grasp is filtered, the IK call for the
    pre-grasp pose returns SUCCESS too; after any other outcome the shared
    vector is as before.  What the pass leaves in the vector is still
    there, in front, when the thread ends. *)
Theorem filterGraspThread_accepts tc filtered_grasps gf kin_solver ee_jmg :
  well_formed_thread tc ->
  kin_solver_ tc = Some kin_solver ->
  (filter_pregrasp_ tc = true -> ee_jmg_ tc = Some ee_jmg) ->
  forall before i after,
    int_range (grasps_id_start_ tc) (grasps_id_end_ tc) = before ++ i :: after ->
    exists candidate ik_seed_state filtered_grasps1 gf1,
      at_index (possible_grasps_ tc) i = Returns candidate /\
      filterGraspThread_loop tc before
        (repeat 0%R (num_variables_ gf), filtered_grasps, gf) =
      Returns (ik_seed_state, filtered_grasps1, gf1) /\
      let grasp_ik := grasp_ik_call tc kin_solver candidate ik_seed_state in
      let pregrasp_ik := pregrasp_ik_call tc kin_solver ee_jmg candidate (fst grasp_ik) in
      let accepted :=
        snd grasp_ik = moveit_msgs.MoveItErrorCodes.SUCCESS /\
        (filter_pregrasp_ tc = true ->
         snd pregrasp_ik = moveit_msgs.MoveItErrorCodes.SUCCESS) in
      exists ik_seed_state2 filtered_grasps2 gf2 later gf',
        filterGraspThread_body tc i (ik_seed_state, filtered_grasps1, gf1) =
        Returns (ik_seed_state2, filtered_grasps2, gf2) /\
        (accepted /\
         filtered_grasps2 =
         filtered_grasps1 ++
         [solution_of candidate (fst grasp_ik)
                      (if filter_pregrasp_ tc then fst pregrasp_ik else [])]
         \/
         ~ accepted /\ filtered_grasps2 = filtered_grasps1) /\
        filterGraspThread tc filtered_grasps gf = Returns (filtered_grasps2 ++ later, gf').
Proof.
  intros (Hfirst & Hlast & Hks & Hee) Eks Eee before i after Hsplit.
  assert (Hvalid : forall j, In j (before ++ i :: after) ->
                             exists c, at_index (possible_grasps_ tc) j = Returns c).
  { intros j Hj. rewrite <- Hsplit in Hj. exact (@at_index_in_range _ _ _ _ _ Hfirst Hlast Hj). }
  destruct (Hvalid i) as [candidate Hcand]; [apply in_elt|].
  destruct (@filterGraspThread_loop_returns tc before Hks Hee
              (fun j Hj => Hvalid j (in_or_app _ _ j (or_introl Hj)))
              (repeat 0%R (num_variables_ gf)) filtered_grasps gf)
    as (seed1 & app1 & gf1 & Hloop1 & _).
  exists candidate, seed1, (filtered_grasps ++ app1), gf1.
  split; [exact Hcand|]. split; [exact Hloop1|]. cbv zeta.
  destruct (@filterGraspThread_body_spec tc i seed1 (filtered_grasps ++ app1) gf1
              kin_solver candidate Hcand Eks ee_jmg Eee)
    as (seed2 & fg2 & gf2 & Hbody & _ & Hfg2).
  destruct (@filterGraspThread_loop_returns tc after Hks Hee
              (fun j Hj => Hvalid j (in_or_app before (i :: after) j
                                              (or_intror (in_cons i j after Hj))))
              seed2 fg2 gf2)
    as (seed3 & later & gf3 & Hloop3 & _).
  exists seed2, fg2, gf2, later, gf3.
  split; [exact Hbody|]. split; [exact Hfg2|].
  unfold filterGraspThread. rewrite Hsplit.
  rewrite filterGraspThread_loop_app, Hloop1. cbn [bind filterGraspThread_loop].
  rewrite Hbody. cbn [bind]. rewrite Hloop3. reflexivity.
Qed.

(** *** The coordinator *)

Lemma bind_returns {A B} (o : Outcome A) (k : A -> Outcome B) b :
  bind o k = Returns b -> exists a, o = Returns a /\ k a = Returns b.
Proof. destruct o as [a|]; [now exists a | discriminate]. Qed.

Lemma filterGraspThread_body_quiet tc i ik_seed_state filtered_grasps gf st' :
  filterGraspThread_body tc i (ik_seed_state, filtered_grasps, gf) = Returns st' ->
  quietly_after gf (snd st').
Proof.
  unfold filterGraspThread_body. intros H.
  apply bind_returns in H. destruct H as (candidate & _ & H).
  apply bind_returns in H. destruct H as (kin_solver & _ & H).
  set (gf1 := if verbose_ tc then emit _ gf else gf) in H.
  assert (Hgf1 : quietly_after gf gf1).
  { unfold gf1. destruct (verbose_ tc);
      [apply quietly_after_emit; reflexivity | apply quietly_after_refl]. }
  assert (Hemit : forall e, stage_runs [e] = 0 -> quietly_after gf (emit [e] gf1)).
  { intros e He. apply (quietly_after_trans Hgf1). now apply quietly_after_emit. }
  destruct (searchPositionIK kin_solver _ ik_seed_state (timeout_ tc))
    as [grasp_ik_solution error_code].
  destruct (error_code =? moveit_msgs.MoveItErrorCodes.SUCCESS)%Z.
  - destruct (filter_pregrasp_ tc).
    + apply bind_returns in H. destruct H as (ee & _ & H).
      destruct (searchPositionIK kin_solver _ grasp_ik_solution (timeout_ tc))
        as [pregrasp_ik_solution error_code'].
      destruct (error_code' =? moveit_msgs.MoveItErrorCodes.NO_IK_SOLUTION)%Z;
        [injection H as <-; exact Hgf1|].
      destruct (error_code' =? moveit_msgs.MoveItErrorCodes.TIMED_OUT)%Z;
        [injection H as <-; exact Hgf1|].
      destruct (negb (error_code' =? moveit_msgs.MoveItErrorCodes.SUCCESS)%Z);
        injection H as <-; [now apply Hemit | exact Hgf1].
    + injection H as <-. now apply Hemit.
  - destruct (error_code =? moveit_msgs.MoveItErrorCodes.NO_IK_SOLUTION)%Z;
      [injection H as <-; exact Hgf1|].
    destruct (error_code =? moveit_msgs.MoveItErrorCodes.TIMED_OUT)%Z;
      injection H as <-; [exact Hgf1 | now apply Hemit].
Qed.

Lemma filterGraspThread_loop_quiet tc ids : forall st st',
  filterGraspThread_loop tc ids st = Returns st' ->
  quietly_after (snd st) (snd st').
Proof.
  induction ids as [|i ids IH]; intros st st' H.
  - injection H as <-. apply quietly_after_refl.
  - cbn [filterGraspThread_loop] in H.
    apply bind_returns in H. destruct H as (st1 & Hbody & Hloop).
    destruct st as [[seed fg] gf].
    apply filterGraspThread_body_quiet in Hbody. apply IH in Hloop.
    exact (quietly_after_trans Hbody Hloop).
Qed.

Lemma filterGraspThread_quiet tc filtered_grasps gf filtered_grasps' gf' :
  filterGraspThread tc filtered_grasps gf = Returns (filtered_grasps', gf') ->
  quietly_after gf gf'.
Proof.
  unfold filterGraspThread. intros H.
  apply bind_returns in H. destruct H as ([[seed fg1] gf1] & Hloop & H).
  injection H as _ <-. exact (filterGraspThread_loop_quiet _ _ _ Hloop).
Qed.

Lemma join_all_quiet threads : forall filtered_grasps gf filtered_grasps' gf',
  join_all threads filtered_grasps gf = Returns (filtered_grasps', gf') ->
  quietly_after gf gf'.
Proof.
  induction threads as [|tc threads IH]; intros fg gf fg' gf' H.
  - injection H as _ <-. apply quietly_after_refl.
  - cbn [join_all] in H.
    apply bind_returns in H. destruct H as ([fg1 gf1] & Hthread & Hrest).
    apply filterGraspThread_quiet in Hthread. apply IH in Hrest.
    exact (quietly_after_trans Hthread Hrest).
Qed.

Lemma load_solvers_failed arm_jmg num_threads : forall solvers,
  fst (load_solvers arm_jmg num_threads solvers) = false ->
  getSolverInstance arm_jmg = None.
Proof.
  induction num_threads as [|k IH]; intros solvers H.
  - discriminate.
  - cbn [load_solvers] in H. destruct (getSolverInstance arm_jmg); [eauto|reflexivity].
Qed.

(** A run of [filterGraspsHelper] that returns. *)
Lemma filterGraspsHelper_returns
      possible_grasps filtered_grasps filter_pregrasp ee_jmg arm_jmg verbose gf
      result filtered_grasps' gf' :
  filterGraspsHelper possible_grasps filtered_grasps filter_pregrasp ee_jmg arm_jmg
                     verbose gf = Returns (result, filtered_grasps', gf') ->
  robot_state_ gf' = robot_state_ gf /\
  solver_timeout_ gf' = solver_timeout_ gf /\
  num_variables_ gf' = num_variables_ gf /\
  (exists es, console gf' = console gf ++ run_header possible_grasps verbose ++ es /\
              stage_runs es = 0) /\
  (result = false ->
   filtered_grasps' = filtered_grasps /\
   (getSolverInstance arm_jmg = None \/
    exists kin_solver, frame_unknown (robot_state_ gf) kin_solver)).
Proof.
  unfold filterGraspsHelper. intros H.
  set (nt := threads_used possible_grasps verbose).
  set (gf1 := emit (run_header possible_grasps verbose) gf).
  assert (Hhead :
    (let '(num_threads, gf0) :=
       if verbose
       then (1, emit [ROS_WARN (Using_only_threads 1)] gf)
       else (if length possible_grasps <? hardware_concurrency
             then length possible_grasps else hardware_concurrency, gf) in
     (num_threads,
      console (emit [ROS_INFO (Filtering_possible_grasps_with_threads num_threads)] gf0),
      robot_state_ gf0, solver_timeout_ gf0, num_variables_ gf0, kin_solvers_ gf0)) =
    (nt, console gf1, robot_state_ gf, solver_timeout_ gf, num_variables_ gf,
     kin_solvers_ gf)).
  { unfold nt, gf1, run_header, threads_used. destruct verbose; cbn.
    - now rewrite <- app_assoc.
    - reflexivity. }
  destruct (if verbose
            then (1, emit [ROS_WARN (Using_only_threads 1)] gf)
            else (if length possible_grasps <? hardware_concurrency
                  then length possible_grasps else hardware_concurrency, gf))
    as [num_threads gf0].
  injection Hhead as -> Hcons Hrs Hto Hnv Hkin.
  set (gf2 := emit [ROS_INFO (Filtering_possible_grasps_with_threads nt)] gf0) in *.
  assert (Hgf2 : robot_state_ gf2 = robot_state_ gf /\
                 solver_timeout_ gf2 = solver_timeout_ gf /\
                 num_variables_ gf2 = num_variables_ gf /\
                 console gf2 = console gf ++ run_header possible_grasps verbose).
  { repeat split; try assumption. }
  clearbody gf2. clear Hcons Hrs Hto Hnv Hkin gf0 gf1.
  destruct Hgf2 as (Hrs & Hto & Hnv & Hcons).
  set (loaded_gf :=
         if negb (length (kin_solvers_ gf2 (getName arm_jmg)) =? nt)
         then let '(ok, solvers) := load_solvers arm_jmg nt [] in
              (ok, set_kin_solvers_ (getName arm_jmg) solvers gf2)
         else (true, gf2)) in H.
  assert (Hload : robot_state_ (snd loaded_gf) = robot_state_ gf /\
                  solver_timeout_ (snd loaded_gf) = solver_timeout_ gf /\
                  num_variables_ (snd loaded_gf) = num_variables_ gf /\
                  console (snd loaded_gf) = console gf ++ run_header possible_grasps verbose /\
                  (fst loaded_gf = false -> getSolverInstance arm_jmg = None)).
  { unfold loaded_gf.
    destruct (negb (length (kin_solvers_ gf2 (getName arm_jmg)) =? nt)).
    - pose proof (@load_solvers_failed arm_jmg nt []) as Hf.
      destruct (load_solvers arm_jmg nt []) as [ok solvers]. cbn in *.
      repeat split; assumption.
    - cbn. repeat split; try assumption. discriminate. }
  destruct loaded_gf as [loaded gf3]. cbn [fst snd] in Hload.
  destruct Hload as (Hrs3 & Hto3 & Hnv3 & Hcons3 & Hfail).
  destruct loaded; cbn [negb] in H.
  - (* the solvers are there *)
    apply bind_returns in H. destruct H as (first_solver & _ & H).
    apply bind_returns in H. destruct H as (kin_solver & _ & H).
    destruct (sameFrame (getBaseFrame kin_solver) (getModelFrame (robot_state_ gf3)))
      eqn:Hsame; cbn [negb] in H.
    + apply bind_returns in H. destruct H as (threads & _ & H).
      apply bind_returns in H. destruct H as ([fg4 gf4] & Hjoin & H).
      injection H as <- <- <-.
      apply join_all_quiet in Hjoin.
      destruct Hjoin as [(Hrs4 & _ & Hto4 & Hnv4) (es & Hcons4 & Hq)].
      repeat split; cbn [emit robot_state_ solver_timeout_ num_variables_];
        try congruence.
      exists (es ++ [ROS_INFO (Grasp_filter_complete_found_IK_solutions_out_of
                                 (length fg4) (length possible_grasps))]).
      split.
      * cbn. rewrite Hcons4, Hcons3, <- !app_assoc. reflexivity.
      * rewrite stage_runs_app, Hq. reflexivity.
    + destruct (getLinkModel (robot_state_ gf3)
                             (without_leading_slash (getBaseFrame kin_solver)))
        as [lm|] eqn:Hlm.
      * apply bind_returns in H. destruct H as (threads & _ & H).
        apply bind_returns in H. destruct H as ([fg4 gf4] & Hjoin & H).
        injection H as <- <- <-.
        apply join_all_quiet in Hjoin.
        destruct Hjoin as [(Hrs4 & _ & Hto4 & Hnv4) (es & Hcons4 & Hq)].
        repeat split; cbn [emit robot_state_ solver_timeout_ num_variables_];
          try congruence.
        exists (es ++ [ROS_INFO (Grasp_filter_complete_found_IK_solutions_out_of
                                   (length fg4) (length possible_grasps))]).
        split.
        -- cbn. rewrite Hcons4, Hcons3, <- !app_assoc. reflexivity.
        -- rewrite stage_runs_app, Hq. reflexivity.
      * injection H as <- <- <-.
        repeat split; try assumption.
        -- exists []. now rewrite !app_nil_r.
        -- right. exists kin_solver. rewrite Hrs3 in *. now split.
  - (* a solver is missing *)
    injection H as <- <- <-. cbn.
    repeat split; try assumption.
    + exists [ROS_ERROR No_kinematic_solver_found].
      rewrite Hcons3, <- app_assoc. now split.
    + left. now apply Hfail.
Qed.

Lemma filterGrasps_runs possible_grasps filtered_grasps filter_pregrasp arm_jmg gf ee_name :
  possible_grasps <> [] ->
  getAttachedEndEffectorNames arm_jmg = [ee_name] ->
  filterGrasps possible_grasps filtered_grasps filter_pregrasp arm_jmg gf =
  ('(result, filtered_grasps, gf) <-
     filterGraspsHelper possible_grasps [] filter_pregrasp
                        (getJointModelGroup arm_jmg ee_name) arm_jmg false
                        (prepared arm_jmg gf) ;;
   if negb result || (length filtered_grasps =? 0)
   then filterGraspsHelper possible_grasps filtered_grasps filter_pregrasp
                           (getJointModelGroup arm_jmg ee_name) arm_jmg true
                           (emit rerun_notice gf)
   else Returns (result, filtered_grasps, gf)).
Proof.
  intros Hne Hee. unfold filterGrasps. rewrite Hee.
  destruct possible_grasps as [|g l]; [congruence|]. reflexivity.
Qed.

End StageA.

(** * Further properties of Stage B *)

Section MoreStageB.
Context `{C : Collaborators}.

Ltac case_prune :=
  match goal with
  | |- context [prune ?s ?a ?v ?gf ?l] =>
      let p := fresh "p" in
      remember (prune s a v gf l) as p eqn:Hprune; clear Hprune; destruct p
  end.

Lemma prune_kept_length cloned_scene arm_jmg verbose l : forall gf,
  length (snd (prune cloned_scene arm_jmg verbose gf l)) <= length l.
Proof.
  induction l as [|g l IH]; intros gf.
  - apply Nat.le_refl.
  - rewrite prune_cons.
    destruct (check_grasp cloned_scene arm_jmg verbose gf g) as [hit gf1].
    specialize (IH gf1). case_prune. cbn [snd length] in *.
    destruct hit; cbn [length]; lia.
Qed.

Lemma prune_console cloned_scene arm_jmg verbose l : forall gf,
  console (fst (prune cloned_scene arm_jmg verbose gf l)) =
  console gf ++
  concat (repeat (if verbose then collision_display else [])
                 (length l - length (snd (prune cloned_scene arm_jmg verbose gf l)))).
Proof.
  induction l as [|g l IH]; intros gf.
  - cbn. now rewrite app_nil_r.
  - rewrite prune_cons.
    assert (Hc : check_grasp cloned_scene arm_jmg verbose gf g =
                 (fst (check_grasp cloned_scene arm_jmg verbose gf g),
                  snd (check_grasp cloned_scene arm_jmg verbose gf g)))
      by (destruct (check_grasp _ _ _ _ _); reflexivity).
    assert (Hcons : console (snd (check_grasp cloned_scene arm_jmg verbose gf g)) =
                    console gf ++
                    (if fst (check_grasp cloned_scene arm_jmg verbose gf g)
                     then (if verbose then collision_display else []) else [])).
    { unfold check_grasp. cbv zeta.
      destruct (isStateColliding _ _ _ _); [destruct verbose|]; cbn;
        try reflexivity; now rewrite app_nil_r. }
    destruct (check_grasp cloned_scene arm_jmg verbose gf g) as [hit gf1].
    cbn [fst snd] in Hcons.
    pose proof (prune_kept_length cloned_scene arm_jmg verbose l gf1) as Hlen.
    specialize (IH gf1). case_prune. cbn [fst snd] in *.
    rewrite IH, Hcons, <- app_assoc. f_equal.
    destruct hit; cbn [length].
    + replace (S (length l) - length l0) with (S (length l - length l0)) by lia.
      reflexivity.
    + replace (S (length l) - S (length l0)) with (length l - length l0) by lia.
      reflexivity.
Qed.

(** X1.  The console output of one pruning pass: for every solution
    removed, the five-event display if the pass is verbose and nothing
    otherwise; then the line with the number of solutions kept, which is the
    length of the list returned; then [hideRobot] if the pass is verbose.  A
    pass that is not verbose prints that one line, calls no visual tool and
    never sleeps. *)
Theorem filterGraspsInCollisionHelper_console
    possible_grasps planning_scene_monitor arm_jmg robot_state verbose gf :
  let '(_, pruned, gf') :=
    filterGraspsInCollisionHelper possible_grasps planning_scene_monitor arm_jmg
                                  robot_state verbose gf in
  length pruned <= length possible_grasps /\
  console gf' =
  console gf ++
  pass_output verbose (length possible_grasps - length pruned) (length pruned).
Proof.
  unfold filterGraspsInCollisionHelper. rewrite collision_loop_prune.
  cbn [skipn firstn].
  pose proof (prune_console (clone planning_scene_monitor) arm_jmg verbose possible_grasps
                            (set_robot_state_ robot_state gf)) as Hcons.
  pose proof (prune_kept_length (clone planning_scene_monitor) arm_jmg verbose
                                possible_grasps (set_robot_state_ robot_state gf)) as Hlen.
  case_prune. cbn [fst snd app] in *.
  split; [exact Hlen|].
  unfold pass_output. destruct verbose; cbn [emit console];
    rewrite Hcons; cbn [console set_robot_state_]; rewrite <- ?app_assoc; reflexivity.
Qed.

(** What a pass returns depends on the object only through its console:
    the scratch state of the object is overwritten before the first test. *)
Lemma prune_state_irrelevant cloned_scene arm_jmg verbose l : forall gf1 gf2,
  robot_state_ gf1 = robot_state_ gf2 ->
  snd (prune cloned_scene arm_jmg verbose gf1 l) =
  snd (prune cloned_scene arm_jmg verbose gf2 l) /\
  robot_state_ (fst (prune cloned_scene arm_jmg verbose gf1 l)) =
  robot_state_ (fst (prune cloned_scene arm_jmg verbose gf2 l)).
Proof.
  induction l as [|g l IH]; intros gf1 gf2 Hrs.
  - now split.
  - rewrite !prune_cons.
    assert (Hstep : fst (check_grasp cloned_scene arm_jmg verbose gf1 g) =
                    fst (check_grasp cloned_scene arm_jmg verbose gf2 g) /\
                    robot_state_ (snd (check_grasp cloned_scene arm_jmg verbose gf1 g)) =
                    robot_state_ (snd (check_grasp cloned_scene arm_jmg verbose gf2 g))).
    { unfold check_grasp. cbv zeta. cbn [robot_state_ set_robot_state_]. rewrite Hrs.
      destruct (isStateColliding _ _ _ _); [destruct verbose|]; now split. }
    destruct (check_grasp cloned_scene arm_jmg verbose gf1 g) as [hit1 gf1'].
    destruct (check_grasp cloned_scene arm_jmg verbose gf2 g) as [hit2 gf2'].
    cbn [fst snd] in Hstep. destruct Hstep as [-> Hrs'].
    specialize (IH gf1' gf2' Hrs').
    destruct (prune cloned_scene arm_jmg verbose gf1' l) as [gfa ka].
    destruct (prune cloned_scene arm_jmg verbose gf2' l) as [gfb kb].
    cbn [fst snd] in *. destruct IH as [-> Hfinal]. now split.
Qed.

(** X2.  A pruning pass does not read what earlier calls left in the
    object: whatever the object held, the flag and the list returned are
    the same, and so is the scratch robot state left behind. *)
Theorem filterGraspsInCollisionHelper_fresh_state
    possible_grasps planning_scene_monitor arm_jmg robot_state verbose gf1 gf2 :
  let r1 := filterGraspsInCollisionHelper possible_grasps planning_scene_monitor arm_jmg
                                          robot_state verbose gf1 in
  let r2 := filterGraspsInCollisionHelper possible_grasps planning_scene_monitor arm_jmg
                                          robot_state verbose gf2 in
  fst r1 = fst r2 /\ robot_state_ (snd r1) = robot_state_ (snd r2).
Proof.
  cbv zeta. unfold filterGraspsInCollisionHelper. rewrite !collision_loop_prune.
  cbn [skipn firstn].
  destruct (@prune_state_irrelevant (clone planning_scene_monitor) arm_jmg verbose
              possible_grasps (set_robot_state_ robot_state gf1)
              (set_robot_state_ robot_state gf2) eq_refl) as [Hk Hrs].
  destruct (prune (clone planning_scene_monitor) arm_jmg verbose
                  (set_robot_state_ robot_state gf1) possible_grasps) as [gfa ka].
  destruct (prune (clone planning_scene_monitor) arm_jmg verbose
                  (set_robot_state_ robot_state gf2) possible_grasps) as [gfb kb].
  cbn [fst snd app] in *. subst kb.
  split; [reflexivity|]. destruct verbose; cbn; exact Hrs.
Qed.

Lemma filterGraspsInCollision_flag_list
    possible_grasps planning_scene_monitor arm_jmg robot_state verbose gf :
  possible_grasps <> [] ->
  fst (filterGraspsInCollision possible_grasps planning_scene_monitor arm_jmg
                               robot_state verbose gf) =
  (true,
   snd (fst (filterGraspsInCollisionHelper possible_grasps planning_scene_monitor arm_jmg
                                           robot_state verbose gf))).
Proof.
  intros Hne. unfold filterGraspsInCollision.
  destruct possible_grasps as [|g0 l]; [congruence|].
  change (length (g0 :: l) =? 0) with false. cbv iota.
  destruct (helper_result (g0 :: l) planning_scene_monitor arm_jmg robot_state verbose gf)
    as (gf1 & Heq1 & _).
  rewrite Heq1. cbn [fst snd negb]. cbv iota.
  destruct (_ && negb verbose); [|reflexivity].
  match goal with
  | |- context [filterGraspsInCollisionHelper ?a ?b ?c ?d ?e ?f] =>
      destruct (helper_result a b c d e f) as (gf2 & Heq2 & _); rewrite Heq2
  end.
  reflexivity.
Qed.

(** X3.  [filterGraspsInCollision] returns [false] exactly when it is given
    an empty list, and then prints one error line and makes no pass.  The
    list it gives back is the one its first pass returned, also after a
    second pass; and "Grasp filter failed" is never printed. *)
Theorem filterGraspsInCollision_outcome
    possible_grasps planning_scene_monitor arm_jmg robot_state verbose gf :
  let '(ok, pruned, gf') :=
    filterGraspsInCollision possible_grasps planning_scene_monitor arm_jmg
                            robot_state verbose gf in
  (ok = false <-> possible_grasps = []) /\
  (possible_grasps = [] ->
   pruned = [] /\
   console gf' =
   console gf ++
   [ROS_ERROR Unable_to_filter_grasps_for_collision_because_none_were_passed_in]) /\
  (possible_grasps <> [] ->
   pruned = snd (fst (filterGraspsInCollisionHelper possible_grasps planning_scene_monitor
                                                    arm_jmg robot_state verbose gf))) /\
  (In (ROS_ERROR Grasp_filter_failed) (console gf') ->
   In (ROS_ERROR Grasp_filter_failed) (console gf)).
Proof.
  unfold filterGraspsInCollision.
  destruct possible_grasps as [|g0 l].
  - cbn. split; [tauto|]. split; [now split|]. split; [congruence|].
    intros Hin. apply in_app_or in Hin. destruct Hin as [Hin|[Hin|[]]];
      [exact Hin | discriminate Hin].
  - change (length (g0 :: l) =? 0) with false. cbv iota.
    pose proof (filterGraspsInCollisionHelper_console (g0 :: l) planning_scene_monitor
                  arm_jmg robot_state verbose gf) as Hc1.
    destruct (helper_result (g0 :: l) planning_scene_monitor arm_jmg robot_state verbose gf)
      as (gf1 & Heq1 & _).
    rewrite Heq1 in *. cbn [fst snd negb]. cbv iota.
    destruct Hc1 as [_ Hc1].
    set (pruned := snd (prune (clone planning_scene_monitor) arm_jmg verbose
                              (set_robot_state_ robot_state gf) (g0 :: l))) in *.
    assert (Hquiet : forall v n k es,
               In (ROS_ERROR Grasp_filter_failed) (es ++ pass_output v n k) ->
               In (ROS_ERROR Grasp_filter_failed) es).
    { intros v n k es Hin. apply in_app_or in Hin. destruct Hin as [Hin|Hin]; [exact Hin|].
      exfalso. unfold pass_output in Hin.
      apply in_app_or in Hin. destruct Hin as [Hin|Hin].
      - apply in_concat in Hin. destruct Hin as (x & Hx & Hin).
        apply repeat_spec in Hx. subst x.
        destruct v; [|destruct Hin].
        cbn in Hin. intuition discriminate.
      - destruct v; cbn in Hin; intuition discriminate. }
    destruct ((length pruned =? 0) && negb verbose) eqn:Hrerun.
    + pose proof (filterGraspsInCollisionHelper_console (g0 :: l) planning_scene_monitor
                    arm_jmg robot_state true (emit rerun_announcement gf1)) as Hc2.
      fold rerun_announcement.
      destruct (helper_result (g0 :: l) planning_scene_monitor arm_jmg robot_state true
                              (emit rerun_announcement gf1)) as (gf2 & Heq2 & _).
      rewrite Heq2 in *. cbn [fst snd negb]. cbv iota.
      destruct Hc2 as [_ Hc2].
      split; [split; discriminate|]. split; [discriminate|]. split; [reflexivity|].
      intros Hin. rewrite Hc2 in Hin. apply Hquiet in Hin.
      cbn [emit console] in Hin. apply in_app_or in Hin.
      destruct Hin as [Hin|Hin]; [|cbn in Hin; intuition discriminate].
      rewrite Hc1 in Hin. now apply Hquiet in Hin.
    + split; [split; discriminate|]. split; [discriminate|]. split; [reflexivity|].
      intros Hin. rewrite Hc1 in Hin. now apply Hquiet in Hin.
Qed.

(** X4.  With a non-empty list, whatever the verbose flag and whether or
    not a second pass is made, [filterGraspsInCollision] returns [true] and
    leaves the caller the solutions that do not collide, in their order. *)
Theorem filterGraspsInCollision_filters
    possible_grasps planning_scene_monitor arm_jmg robot_state verbose gf :
  overwrites arm_jmg ->
  possible_grasps <> [] ->
  fst (filterGraspsInCollision possible_grasps planning_scene_monitor arm_jmg
                               robot_state verbose gf) =
  (true,
   filter (fun g => negb (grasp_in_collision planning_scene_monitor arm_jmg
                                             robot_state verbose g)) possible_grasps).
Proof.
  intros Hov Hne.
  rewrite (@filterGraspsInCollision_flag_list possible_grasps planning_scene_monitor
             arm_jmg robot_state verbose gf Hne).
  destruct (@helper_filter _ possible_grasps planning_scene_monitor arm_jmg robot_state
                           verbose gf Hov) as [gf1 Heq].
  rewrite Heq. reflexivity.
Qed.
(** X16.  One pass is all there is when the caller asked for verbose
    output or the first pass kept a solution: the call is then the first
    pass itself, with its list, its flag and its console output, and
    nothing is run or printed after it. *)
Theorem filterGraspsInCollision_single_pass
    possible_grasps planning_scene_monitor arm_jmg robot_state verbose gf :
  possible_grasps <> [] ->
  verbose = true \/
  snd (fst (filterGraspsInCollisionHelper possible_grasps planning_scene_monitor arm_jmg
                                          robot_state verbose gf)) <> [] ->
  filterGraspsInCollision possible_grasps planning_scene_monitor arm_jmg robot_state
                          verbose gf =
  filterGraspsInCollisionHelper possible_grasps planning_scene_monitor arm_jmg
                                robot_state verbose gf.
Proof.
  intros Hne Hone. unfold filterGraspsInCollision.
  destruct possible_grasps as [|g0 l]; [congruence|].
  change (length (g0 :: l) =? 0) with false. cbv iota.
  destruct (helper_result (g0 :: l) planning_scene_monitor arm_jmg robot_state verbose gf)
    as (gf1 & Heq1 & _).
  rewrite Heq1 in *. cbn [fst snd negb] in *. cbv iota.
  destruct Hone as [->|Hkept].
  - rewrite andb_false_r. reflexivity.
  - destruct (snd (prune _ _ _ _ _)) as [|k rest]; [congruence|]. reflexivity.
Qed.
End MoreStageB.

(** * Further properties of the work split *)

Local Open Scope Z_scope.

Lemma step_arith_lower (n t a k r k' r' q0 r0 E E' : Z) :
  0 < t <= n -> 0 <= a -> a + n <= n * t ->
  a = t * k + r -> 0 <= r < t ->
  a + n = t * k' + r' -> 0 <= r' < t ->
  n = t * q0 + r0 -> 0 <= r0 < t ->
  k + (if r =? 0 then 0 else 1) <= E <= k + 1 ->
  k' + (if r' =? 0 then 0 else 1) <= E' <= k' + 1 ->
  (r0 = 0 -> E = k /\ E' = k') ->
  q0 <= E' - E /\ E <= n - q0.
Proof.
  intros Ht Ha Han Hk Hr Hk' Hr' Hq Hr0 HE HE' Hex.
  assert (Hq0 : 1 <= q0) by nia.
  assert (Hd0 : t * (k' - k - q0) = r + r0 - r').
  { replace (t * (k' - k - q0)) with (t * k' - t * k - t * q0) by ring. lia. }
  assert (Hd1 : -1 < k' - k - q0 < 2) by nia.
  assert (Hd : k' - k - q0 = 0 /\ r' = r + r0 \/ k' - k - q0 = 1 /\ r' = r + r0 - t).
  { assert (Hc : k' - k - q0 = 0 \/ k' - k - q0 = 1) by lia.
    destruct Hc as [Hc|Hc]; rewrite Hc in Hd0; [left|right]; split; lia. }
  assert (Hk'n : k' <= n) by nia.
  assert (Hk'r : r' = 0 \/ k' <= n - 1).
  { destruct (Z.eq_dec r' 0) as [Hz|Hnz]; [now left|right]. nia. }
  destruct (Z.eqb_spec r0 0) as [Hz|Hnz].
  - destruct (Hex Hz) as [-> ->]. lia.
  - clear Hex. destruct (Z.eqb_spec r 0), (Z.eqb_spec r' 0); lia.
Qed.

Section Balance.
Variables n t : nat.
Hypothesis Ht : (1 <= t <= n)%nat.
Hypothesis Hsmall : 3 * Z.of_nat n * Z.of_nat t < 2 ^ 53.

Lemma share_end_step_lower m :
  (m < t)%nat ->
  Z.of_nat n / Z.of_nat t <= share_end n t (S m) - share_end n t m.
Proof.
  intros Hm.
  assert (HtZ : 0 < Z.of_nat t) by lia.
  pose proof (Z.div_mod (Z.of_nat n) (Z.of_nat t)) as Hn.
  pose proof (Z.mod_pos_bound (Z.of_nat n) (Z.of_nat t) HtZ) as Hr0.
  assert (Hm' : (1 <= S m <= t)%nat) by lia.
  destruct (DoubleFacts.ceil_share Ht Hm' Hsmall) as [HE' Hex'].
  pose proof (Z.div_mod (Z.of_nat n * Z.of_nat (S m)) (Z.of_nat t)) as Hk'.
  pose proof (Z.mod_pos_bound (Z.of_nat n * Z.of_nat (S m)) (Z.of_nat t) HtZ) as Hr'.
  assert (Hk'0 : 0 <= Z.of_nat n * Z.of_nat (S m) / Z.of_nat t)
    by (apply Z.div_pos; lia).
  set (E' := Double.ceil (share n t (S m))) in *.
  set (k' := Z.of_nat n * Z.of_nat (S m) / Z.of_nat t) in *.
  set (r' := (Z.of_nat n * Z.of_nat (S m)) mod Z.of_nat t) in *.
  set (q0 := Z.of_nat n / Z.of_nat t) in *.
  set (r0 := Z.of_nat n mod Z.of_nat t) in *.
  assert (Hq0n : q0 <= Z.of_nat n) by nia.
  assert (HE'0 : 0 <= E') by (destruct (r' =? 0); lia).
  change (share_end n t (S m)) with (limit_to_size E' n).
  rewrite (limit_to_size_min n HE'0).
  destruct m as [|m0].
  - (* the first range starts at 0 *)
    change (share_end n t 0) with 0.
    assert (Hk1 : k' = q0 /\ r' = r0).
    { unfold k', r', q0, r0. rewrite Z.mul_1_r. split; reflexivity. }
    destruct Hk1 as [Hk1 Hr1]. rewrite Hk1, Hr1 in *.
    destruct (r0 =? 0); lia.
  - assert (Hm1 : (1 <= S m0 <= t)%nat) by lia.
    destruct (DoubleFacts.ceil_share Ht Hm1 Hsmall) as [HE Hex].
    pose proof (Z.div_mod (Z.of_nat n * Z.of_nat (S m0)) (Z.of_nat t)) as Hk.
    pose proof (Z.mod_pos_bound (Z.of_nat n * Z.of_nat (S m0)) (Z.of_nat t) HtZ) as Hr.
    assert (Hk0 : 0 <= Z.of_nat n * Z.of_nat (S m0) / Z.of_nat t)
      by (apply Z.div_pos; lia).
    set (E := Double.ceil (share n t (S m0))) in *.
    set (k := Z.of_nat n * Z.of_nat (S m0) / Z.of_nat t) in *.
    set (r := (Z.of_nat n * Z.of_nat (S m0)) mod Z.of_nat t) in *.
    assert (HE0 : 0 <= E) by (destruct (r =? 0); lia).
    change (share_end n t (S m0)) with (limit_to_size E n).
    rewrite (limit_to_size_min n HE0).
    assert (Hstep : q0 <= E' - E /\ E <= Z.of_nat n - q0).
    { apply (@step_arith_lower (Z.of_nat n) (Z.of_nat t) (Z.of_nat n * Z.of_nat (S m0))
                               k r k' r' q0 r0 E E'); try lia;
        try (intros Hz; split; [apply Hex | apply Hex']; exact Hz); nia. }
    lia.
Qed.

Lemma share_ranges_lower : forall count i,
  (i + count <= t)%nat ->
  Forall (fun r => Z.of_nat n / Z.of_nat t <= snd r - fst r) (share_ranges n t count i).
Proof.
  induction count as [|count IH]; intros i Hi.
  - constructor.
  - cbn [share_ranges]. constructor.
    + cbn [fst snd]. apply share_end_step_lower. lia.
    + apply IH. lia.
Qed.
End Balance.

Lemma limit_to_size_bounds e n : 0 <= limit_to_size e n <= Z.of_nat n.
Proof.
  unfold limit_to_size.
  destruct (Z.ltb_spec e 0); [cbn; lia|]. cbn.
  destruct (Z.leb_spec (Z.of_nat n) e); lia.
Qed.

Section MoreWorkSplit.
Context `{C : Collaborators}.
Variables (possible_grasps : list moveit_msgs.Grasp) (link_transform : Affine3d)
          (solvers : list (option Solver)) (filter_pregrasp : bool)
          (ee_jmg : option (JointModelGroup Solver)) (timeout : R) (verbose : bool).

(** X7.  Under the conditions of the partition (a worker count between 1 and
    the number of candidates, the two counts in the range where the rounding
    is harmless), every thread is given at least the whole part of
    candidates / workers, which is at least one: no thread is created
    without work, and with the ceiling share as upper bound the shares of
    two threads differ by one at most. *)
Theorem create_threads_balanced (num_threads : nat) :
  (1 <= num_threads <= length possible_grasps)%nat ->
  3 * Z.of_nat (length possible_grasps) * Z.of_nat num_threads < 2 ^ 53 ->
  length solvers = num_threads ->
  exists threads,
    create_threads possible_grasps link_transform solvers filter_pregrasp ee_jmg
                   timeout verbose
                   (Double.div (Double.of_nat (length possible_grasps))
                               (Double.of_nat num_threads))
                   num_threads 0 0 = Returns threads /\
    forall tc, In tc threads ->
      1 <= Z.of_nat (length possible_grasps) / Z.of_nat num_threads <=
      grasps_id_end_ tc - grasps_id_start_ tc.
Proof.
  intros Ht Hsmall Hsolvers.
  destruct (@create_threads_ranges _ possible_grasps link_transform solvers filter_pregrasp
              ee_jmg timeout verbose num_threads num_threads 0%nat)
    as (threads & Hrun & Hranges & _); [lia|].
  exists threads. split; [exact Hrun|].
  pose proof (share_ranges_lower Ht Hsmall num_threads 0%nat (Nat.le_refl _)) as Hlow.
  rewrite <- Hranges in Hlow. rewrite Forall_map in Hlow.
  rewrite Forall_forall in Hlow.
  intros tc Hin. specialize (Hlow tc Hin). cbn in Hlow. split; [|exact Hlow].
  apply Z.div_le_lower_bound; lia.
Qed.

Lemma create_threads_fields num_grasps_per_thread : forall count i grasps_id_end threads,
  create_threads possible_grasps link_transform solvers filter_pregrasp ee_jmg
                 timeout verbose num_grasps_per_thread count i grasps_id_end =
  Returns threads ->
  0 <= grasps_id_end <= Z.of_nat (length possible_grasps) ->
  length threads = count /\
  Forall (fun tc => possible_grasps_ tc = possible_grasps /\
                    link_transform_ tc = link_transform /\
                    filter_pregrasp_ tc = filter_pregrasp /\
                    ee_jmg_ tc = ee_jmg /\
                    timeout_ tc = timeout /\
                    verbose_ tc = verbose /\
                    In (kin_solver_ tc) solvers /\
                    0 <= grasps_id_start_ tc /\
                    grasps_id_end_ tc <= Z.of_nat (length possible_grasps)) threads.
Proof.
  induction count as [|count IH]; intros i e threads H He.
  - injection H as <-. split; [reflexivity|constructor].
  - cbn [create_threads] in H.
    destruct (at_index solvers (Z.of_nat i)) as [ks|] eqn:Hks; [|discriminate].
    cbn [bind] in H.
    match type of H with
    | context [create_threads ?a ?b ?c ?d ?e' ?f ?g ?h ?k ?l ?m] =>
        destruct (create_threads a b c d e' f g h k l m) as [rest|] eqn:Hrest;
          [|discriminate]
    end.
    cbn [bind] in H. injection H as <-.
    pose proof (limit_to_size_bounds
                  (Double.ceil (Double.mul num_grasps_per_thread (Double.of_nat (i + 1))))
                  (length possible_grasps)) as Hb.
    destruct (IH _ _ _ Hrest Hb) as [Hlen Hall].
    split; [cbn; now rewrite Hlen|].
    constructor; [|exact Hall]. cbn.
    repeat split; try lia.
    unfold at_index in Hks. destruct (Z.of_nat i <? 0); [discriminate|].
    destruct (nth_error solvers (Z.to_nat (Z.of_nat i))) as [x|] eqn:Hn; [|discriminate].
    injection Hks as <-. exact (nth_error_In _ _ Hn).
Qed.
End MoreWorkSplit.

Local Close Scope Z_scope.

(** * Further properties of Stage A *)

Section MoreStageA.
Context `{C : Collaborators}.

Lemma load_solvers_none arm_jmg num_threads :
  getSolverInstance arm_jmg = None ->
  load_solvers arm_jmg (S num_threads) [] = (false, [None]).
Proof. intros H. cbn [load_solvers]. rewrite H. reflexivity. Qed.

Lemma load_solvers_some arm_jmg kin_solver :
  getSolverInstance arm_jmg = Some kin_solver ->
  forall num_threads solvers,
    load_solvers arm_jmg num_threads solvers =
    (true, solvers ++ repeat (Some kin_solver) num_threads).
Proof.
  intros H. induction num_threads as [|k IH]; intros solvers.
  - cbn. now rewrite app_nil_r.
  - cbn [load_solvers]. rewrite H, IH, <- app_assoc. reflexivity.
Qed.

Lemma threads_used_positive possible_grasps verbose :
  possible_grasps <> [] -> 1 <= hardware_concurrency ->
  1 <= threads_used possible_grasps verbose <= length possible_grasps.
Proof.
  intros Hne Hhc. unfold threads_used.
  destruct possible_grasps as [|g l]; [congruence|]. cbn [length].
  destruct verbose; [lia|].
  destruct (Nat.ltb_spec (S (length l)) hardware_concurrency); lia.
Qed.

(** X8.  When the arm group has no solver to give ([getSolverInstance]
    returns null) and the solvers held for the arm are not already as many
    as the first run wants, [filterGrasps] does not return [false]: the
    first run stores the null solver and fails, the verbose run wants one
    solver, finds that one in the vector, skips the loading and calls
    [getBaseFrame] through the null pointer. *)
Theorem filterGrasps_null_solver
    possible_grasps filtered_grasps filter_pregrasp arm_jmg gf ee_name :
  possible_grasps <> [] ->
  getAttachedEndEffectorNames arm_jmg = [ee_name] ->
  getSolverInstance arm_jmg = None ->
  1 <= hardware_concurrency ->
  length (kin_solvers_ gf (getName arm_jmg)) <> threads_used possible_grasps false ->
  filterGrasps possible_grasps filtered_grasps filter_pregrasp arm_jmg gf = Undefined.
Proof.
  intros Hne Hee Hnone Hhc Hcache.
  rewrite (@filterGrasps_runs _ possible_grasps filtered_grasps filter_pregrasp arm_jmg gf
                              ee_name Hne Hee).
  destruct (@threads_used_positive possible_grasps false Hne Hhc) as [Hnt _].
  unfold filterGraspsHelper at 1. cbv beta iota zeta.
  fold (threads_used possible_grasps false).
  change (kin_solvers_
            (emit [ROS_INFO (Filtering_possible_grasps_with_threads
                               (threads_used possible_grasps false))]
                  (prepared arm_jmg gf)) (getName arm_jmg))
    with (kin_solvers_ gf (getName arm_jmg)).
  destruct (Nat.eqb_spec (length (kin_solvers_ gf (getName arm_jmg)))
                         (threads_used possible_grasps false)) as [Heq|_];
    [contradiction|].
  cbn [negb]. cbv iota.
  destruct (threads_used possible_grasps false) as [|k]; [lia|].
  rewrite (load_solvers_none arm_jmg k Hnone). cbv iota. cbn [negb bind orb].
  cbv iota.
  unfold filterGraspsHelper. cbv beta iota zeta.
  cbn [kin_solvers_ emit set_kin_solvers_]. rewrite String.eqb_refl.
  cbn [length Nat.eqb negb]. cbv iota.
  cbn [kin_solvers_ emit set_kin_solvers_]. rewrite String.eqb_refl.
  reflexivity.
Qed.

Lemma filterGraspsHelper_no_threads
      possible_grasps filtered_grasps filter_pregrasp ee_jmg arm_jmg verbose gf :
  threads_used possible_grasps verbose = 0 ->
  filterGraspsHelper possible_grasps filtered_grasps filter_pregrasp ee_jmg arm_jmg
                     verbose gf = Undefined.
Proof.
  intros Hnt. destruct verbose; [discriminate|].
  unfold filterGraspsHelper. cbv beta iota zeta.
  fold (threads_used possible_grasps false). rewrite Hnt.
  change (kin_solvers_ (emit [ROS_INFO (Filtering_possible_grasps_with_threads 0)] gf)
                       (getName arm_jmg))
    with (kin_solvers_ gf (getName arm_jmg)).
  destruct (kin_solvers_ gf (getName arm_jmg)) as [|ks rest] eqn:Hcache.
  - cbn [length Nat.eqb negb]. cbv iota. cbn [kin_solvers_ emit].
    rewrite Hcache. reflexivity.
  - cbn [length Nat.eqb negb load_solvers]. cbv iota.
    cbn [negb kin_solvers_ emit set_kin_solvers_]. rewrite String.eqb_refl.
    reflexivity.
Qed.

Lemma threads_used_hardware_concurrency possible_grasps :
  possible_grasps <> [] ->
  hardware_concurrency = 0 <-> threads_used possible_grasps false = 0.
Proof.
  intros Hne. unfold threads_used.
  destruct possible_grasps as [|g l]; [congruence|]. cbn [length].
  destruct (Nat.ltb_spec (S (length l)) hardware_concurrency); lia.
Qed.

(** X9.  When the number of hardware threads is not known
    ([hardware_concurrency] returns 0), the first run of a non-empty list
    wants no thread and loads no solver, and then reads the first solver of
    an empty vector: the call has no defined result. *)
Theorem filterGrasps_without_hardware_concurrency
    possible_grasps filtered_grasps filter_pregrasp arm_jmg gf ee_name :
  possible_grasps <> [] ->
  getAttachedEndEffectorNames arm_jmg = [ee_name] ->
  hardware_concurrency = 0 ->
  filterGrasps possible_grasps filtered_grasps filter_pregrasp arm_jmg gf = Undefined.
Proof.
  intros Hne Hee Hhc.
  rewrite (@filterGrasps_runs _ possible_grasps filtered_grasps filter_pregrasp arm_jmg gf
                              ee_name Hne Hee).
  rewrite filterGraspsHelper_no_threads;
    [reflexivity | now apply threads_used_hardware_concurrency].
Qed.

Lemma at_index_In {A} (v : list A) i a : at_index v i = Returns a -> In a v.
Proof.
  unfold at_index. destruct (i <? 0)%Z; [discriminate|].
  destruct (nth_error v (Z.to_nat i)) as [x|] eqn:Hn; [|discriminate].
  intros H. injection H as <-. exact (nth_error_In _ _ Hn).
Qed.

Lemma deref_returns {A} (p : option A) a : deref p = Returns a -> p = Some a.
Proof. destruct p; [|discriminate]. intros H. now injection H as <-. Qed.

(** A pass through the loop body leaves the shared vector as it was or
    appends one feasible solution. *)
Lemma filterGraspThread_body_appends tc i ik_seed_state filtered_grasps gf st' :
  filterGraspThread_body tc i (ik_seed_state, filtered_grasps, gf) = Returns st' ->
  snd (fst st') = filtered_grasps \/
  exists s, snd (fst st') = filtered_grasps ++ [s] /\
            feasible (possible_grasps_ tc) (filter_pregrasp_ tc) (ee_jmg_ tc)
                     (timeout_ tc) s.
Proof.
  unfold filterGraspThread_body. intros H.
  apply bind_returns in H. destruct H as (candidate & Hc & H).
  apply bind_returns in H. destruct H as (kin_solver & _ & H).
  apply at_index_In in Hc.
  destruct (searchPositionIK kin_solver _ ik_seed_state (timeout_ tc))
    as [grasp_ik_solution error_code] eqn:Hg.
  destruct (Z.eqb_spec error_code moveit_msgs.MoveItErrorCodes.SUCCESS) as [->|_].
  - destruct (filter_pregrasp_ tc) eqn:Hfp.
    + apply bind_returns in H. destruct H as (ee & Hee & H).
      apply deref_returns in Hee.
      destruct (searchPositionIK kin_solver _ grasp_ik_solution (timeout_ tc))
        as [pregrasp_ik_solution error_code'] eqn:Hp.
      destruct (error_code' =? moveit_msgs.MoveItErrorCodes.NO_IK_SOLUTION)%Z;
        [injection H as <-; now left|].
      destruct (error_code' =? moveit_msgs.MoveItErrorCodes.TIMED_OUT)%Z;
        [injection H as <-; now left|].
      destruct (Z.eqb_spec error_code' moveit_msgs.MoveItErrorCodes.SUCCESS) as [->|_];
        cbn [negb] in H; injection H as <-; [right|now left].
      eexists. split; [reflexivity|]. split; [exact Hc|].
      exists kin_solver, (link_transform_ tc). split.
      * exists ik_seed_state. exact Hg.
      * exists ee. split; [exact Hee | exact Hp].
    + injection H as <-. right.
      eexists. split; [reflexivity|]. split; [exact Hc|].
      exists kin_solver, (link_transform_ tc). split.
      * exists ik_seed_state. exact Hg.
      * reflexivity.
  - destruct (error_code =? moveit_msgs.MoveItErrorCodes.NO_IK_SOLUTION)%Z;
      [injection H as <-; now left|].
    destruct (error_code =? moveit_msgs.MoveItErrorCodes.TIMED_OUT)%Z;
      injection H as <-; now left.
Qed.

Lemma filterGraspThread_loop_appends tc ids : forall st st',
  filterGraspThread_loop tc ids st = Returns st' ->
  exists appended,
    snd (fst st') = snd (fst st) ++ appended /\
    Forall (feasible (possible_grasps_ tc) (filter_pregrasp_ tc) (ee_jmg_ tc) (timeout_ tc))
           appended /\
    length appended <= length ids.
Proof.
  induction ids as [|i ids IH]; intros st st' H.
  - injection H as <-. exists []. rewrite app_nil_r. repeat split; [constructor|cbn; lia].
  - cbn [filterGraspThread_loop] in H.
    apply bind_returns in H. destruct H as (st1 & Hbody & Hloop).
    destruct st as [[seed fg] gf].
    apply filterGraspThread_body_appends in Hbody.
    destruct (IH _ _ Hloop) as (appended & Heq & Hall & Hlen).
    cbn [fst snd] in *.
    destruct Hbody as [Hsame|(s & Hs & Hfeasible)].
    + exists appended. rewrite Heq, Hsame. repeat split; [exact Hall|cbn; lia].
    + exists (s :: appended). rewrite Heq, Hs, <- app_assoc.
      repeat split; [now constructor|cbn; lia].
Qed.

Lemma join_all_appends possible_grasps filter_pregrasp ee_jmg timeout threads :
  Forall (fun tc => possible_grasps_ tc = possible_grasps /\
                    filter_pregrasp_ tc = filter_pregrasp /\
                    ee_jmg_ tc = ee_jmg /\
                    timeout_ tc = timeout) threads ->
  forall filtered_grasps gf filtered_grasps' gf',
    join_all threads filtered_grasps gf = Returns (filtered_grasps', gf') ->
    exists appended,
      filtered_grasps' = filtered_grasps ++ appended /\
      Forall (feasible possible_grasps filter_pregrasp ee_jmg timeout) appended /\
      length appended <=
      length (flat_map (fun tc => int_range (grasps_id_start_ tc) (grasps_id_end_ tc))
                       threads).
Proof.
  induction 1 as [|tc threads (Hpg & Hfp & Hee & Hto) _ IH]; intros fg gf fg' gf' H.
  - injection H as <- _. exists []. rewrite app_nil_r. repeat split; [constructor|cbn; lia].
  - cbn [join_all] in H.
    apply bind_returns in H. destruct H as ([fg1 gf1] & Hthread & Hrest).
    unfold filterGraspThread in Hthread.
    apply bind_returns in Hthread. destruct Hthread as ([[seed fg2] gf2] & Hloop & Hret).
    injection Hret as -> ->.
    apply filterGraspThread_loop_appends in Hloop.
    destruct Hloop as (app1 & Heq1 & Hall1 & Hlen1). cbn [fst snd] in Heq1.
    rewrite Hpg, Hfp, Hee, Hto in Hall1.
    destruct (IH _ _ _ _ Hrest) as (app2 & Heq2 & Hall2 & Hlen2).
    exists (app1 ++ app2). rewrite Heq2, Heq1, <- app_assoc.
    repeat split.
    + apply Forall_app. now split.
    + cbn [flat_map]. rewrite !length_app. lia.
Qed.

Lemma load_solvers_length arm_jmg num_threads : forall solvers,
  fst (load_solvers arm_jmg num_threads solvers) = true ->
  length (snd (load_solvers arm_jmg num_threads solvers)) = length solvers + num_threads.
Proof.
  induction num_threads as [|k IH]; intros solvers H.
  - cbn. lia.
  - cbn [load_solvers] in *. destruct (getSolverInstance arm_jmg); [|discriminate].
    rewrite (IH _ H), length_app. cbn. lia.
Qed.

(** A run of [filterGraspsHelper] that returns [true]: the threads it
    created and joined. *)
Lemma filterGraspsHelper_true
      possible_grasps filtered_grasps filter_pregrasp ee_jmg arm_jmg verbose gf
      filtered_grasps' gf' :
  filterGraspsHelper possible_grasps filtered_grasps filter_pregrasp ee_jmg arm_jmg
                     verbose gf = Returns (true, filtered_grasps', gf') ->
  let num_threads := threads_used possible_grasps verbose in
  exists solvers link_transform threads gf3 gf4,
    length solvers = num_threads /\ 1 <= num_threads /\
    create_threads possible_grasps link_transform solvers filter_pregrasp ee_jmg
                   (solver_timeout_ gf) verbose
                   (Double.div (Double.of_nat (length possible_grasps))
                               (Double.of_nat num_threads))
                   num_threads 0 0 = Returns threads /\
    join_all threads filtered_grasps gf3 = Returns (filtered_grasps', gf4) /\
    gf' = emit [run_report (length filtered_grasps') (length possible_grasps)] gf4.
Proof.
  unfold filterGraspsHelper. intros H.
  set (nt := threads_used possible_grasps verbose).
  assert (Hhead :
    (let '(num_threads, gf0) :=
       if verbose
       then (1, emit [ROS_WARN (Using_only_threads 1)] gf)
       else (if length possible_grasps <? hardware_concurrency
             then length possible_grasps else hardware_concurrency, gf) in
     (num_threads, solver_timeout_ gf0, kin_solvers_ gf0)) =
    (nt, solver_timeout_ gf, kin_solvers_ gf)).
  { unfold nt, threads_used. destruct verbose; reflexivity. }
  destruct (if verbose
            then (1, emit [ROS_WARN (Using_only_threads 1)] gf)
            else (if length possible_grasps <? hardware_concurrency
                  then length possible_grasps else hardware_concurrency, gf))
    as [num_threads gf0].
  injection Hhead as -> Hto Hkin.
  set (gf2 := emit [ROS_INFO (Filtering_possible_grasps_with_threads nt)] gf0) in *.
  assert (Hgf2 : solver_timeout_ gf2 = solver_timeout_ gf /\
                 kin_solvers_ gf2 = kin_solvers_ gf) by (split; assumption).
  clearbody gf2. clear Hto Hkin gf0. destruct Hgf2 as [Hto Hkin].
  set (loaded_gf :=
         if negb (length (kin_solvers_ gf2 (getName arm_jmg)) =? nt)
         then let '(ok, solvers) := load_solvers arm_jmg nt [] in
              (ok, set_kin_solvers_ (getName arm_jmg) solvers gf2)
         else (true, gf2)) in H.
  assert (Hload : solver_timeout_ (snd loaded_gf) = solver_timeout_ gf /\
                  (fst loaded_gf = true ->
                   length (kin_solvers_ (snd loaded_gf) (getName arm_jmg)) = nt)).
  { unfold loaded_gf.
    destruct (Nat.eqb_spec (length (kin_solvers_ gf2 (getName arm_jmg))) nt) as [Heq|_];
      cbn [negb].
    - cbn. split; [assumption|]. intros _. exact Heq.
    - pose proof (@load_solvers_length arm_jmg nt []) as Hlen.
      destruct (load_solvers arm_jmg nt []) as [ok solvers]. cbn in *.
      split; [assumption|]. rewrite String.eqb_refl. exact Hlen. }
  destruct loaded_gf as [loaded gf3]. cbn [fst snd] in Hload.
  destruct Hload as [Hto3 Hlen3].
  destruct loaded; cbn [negb] in H; [|discriminate].
  specialize (Hlen3 eq_refl).
  apply bind_returns in H. destruct H as (first_solver & Hfirst & H).
  apply bind_returns in H. destruct H as (kin_solver & _ & H).
  assert (Hnt : 1 <= nt).
  { apply at_index_In in Hfirst.
    destruct (kin_solvers_ gf3 (getName arm_jmg)); [destruct Hfirst|].
    cbn in Hlen3. lia. }
  destruct (if negb (sameFrame (getBaseFrame kin_solver) (getModelFrame (robot_state_ gf3)))
            then match getLinkModel (robot_state_ gf3)
                                    (without_leading_slash (getBaseFrame kin_solver)) with
                 | Some lm => Some (inverse (getGlobalLinkTransform (robot_state_ gf3) lm))
                 | None => None
                 end
            else Some unassigned_Affine3d) as [link_transform|]; [|discriminate].
  apply bind_returns in H. destruct H as (threads & Hthreads & H).
  apply bind_returns in H. destruct H as ([fg4 gf4] & Hjoin & H).
  injection H as <- <-.
  exists (kin_solvers_ gf3 (getName arm_jmg)), link_transform, threads, gf3, gf4.
  rewrite <- Hto3. repeat split; assumption.
Qed.
Lemma threads_used_le possible_grasps verbose :
  possible_grasps <> [] -> threads_used possible_grasps verbose <= length possible_grasps.
Proof.
  intros Hne. unfold threads_used.
  destruct possible_grasps as [|g l]; [congruence|]. cbn [length].
  destruct verbose; [lia|].
  destruct (Nat.ltb_spec (S (length l)) hardware_concurrency); lia.
Qed.

Lemma threads_used_le_hardware_concurrency possible_grasps verbose :
  1 <= hardware_concurrency ->
  threads_used possible_grasps verbose <= hardware_concurrency.
Proof.
  intros Hhc. unfold threads_used. destruct verbose; [lia|].
  destruct (Nat.ltb_spec (length possible_grasps) hardware_concurrency); lia.
Qed.

Lemma int_range_length n : length (int_range 0 (Z.of_nat n)) = n.
Proof. unfold int_range. rewrite length_map, length_seq. lia. Qed.

(** What a run that returns [true] has appended. *)
Lemma filterGraspsHelper_sound
      possible_grasps filtered_grasps filter_pregrasp ee_jmg arm_jmg verbose gf
      filtered_grasps' gf' :
  filterGraspsHelper possible_grasps filtered_grasps filter_pregrasp ee_jmg arm_jmg
                     verbose gf = Returns (true, filtered_grasps', gf') ->
  exists appended,
    filtered_grasps' = filtered_grasps ++ appended /\
    Forall (feasible possible_grasps filter_pregrasp ee_jmg (solver_timeout_ gf)) appended /\
    (exists es, console gf' =
                es ++ [run_report (length filtered_grasps') (length possible_grasps)]) /\
    (possible_grasps <> [] ->
     (3 * Z.of_nat (length possible_grasps) *
      Z.of_nat (threads_used possible_grasps verbose) < 2 ^ 53)%Z ->
     length appended <= length possible_grasps).
Proof.
  intros H.
  destruct (filterGraspsHelper_true _ _ _ _ _ _ _ H)
    as (solvers & link_transform & threads & gf3 & gf4 & Hlen & Hnt & Hcreate & Hjoin & ->).
  assert (Hzero : (0 <= 0 <= Z.of_nat (length possible_grasps))%Z) by lia.
  destruct (@create_threads_fields _ _ _ _ _ _ _ _ _ _ _ _ _ Hcreate Hzero) as [_ Hfields].
  assert (Hsame : Forall (fun tc => possible_grasps_ tc = possible_grasps /\
                                    filter_pregrasp_ tc = filter_pregrasp /\
                                    ee_jmg_ tc = ee_jmg /\
                                    timeout_ tc = solver_timeout_ gf) threads).
  { revert Hfields. apply Forall_impl. intros tc Htc. tauto. }
  destruct (join_all_appends Hsame _ _ Hjoin) as (appended & Heq & Hall & Hcount).
  exists appended. split; [exact Heq|]. split; [exact Hall|]. split.
  - exists (console gf4). reflexivity.
  - intros Hne Hsmall.
    assert (Ht : 1 <= threads_used possible_grasps verbose <= length possible_grasps)
      by (split; [exact Hnt | now apply threads_used_le]).
    destruct (@create_threads_ranges _ possible_grasps link_transform solvers filter_pregrasp
                ee_jmg (solver_timeout_ gf) verbose
                (threads_used possible_grasps verbose)
                (threads_used possible_grasps verbose) 0)
      as (threads0 & Hrun & Hranges & _); [lia|].
    change (share_end (length possible_grasps) (threads_used possible_grasps verbose) 0)
      with 0%Z in Hrun.
    rewrite Hcreate in Hrun. injection Hrun as <-.
    destruct (@share_ranges_cover possible_grasps
                (threads_used possible_grasps verbose) Ht Hsmall
                (threads_used possible_grasps verbose) 0 eq_refl) as [Hcover _].
    rewrite <- Hranges in Hcover.
    rewrite flat_map_concat_map, map_map, <- flat_map_concat_map in Hcover.
    change (share_end (length possible_grasps) (threads_used possible_grasps verbose) 0)
      with 0%Z in Hcover.
    unfold range_of in Hcover. cbn [fst snd] in Hcover.
    rewrite Hcover, int_range_length in Hcount. exact Hcount.
Qed.

(** What a call that returns [true] leaves in the vector and on the
    console. *)
Lemma filterGrasps_true
    possible_grasps filtered_grasps filter_pregrasp arm_jmg gf filtered_grasps' gf' :
  filterGrasps possible_grasps filtered_grasps filter_pregrasp arm_jmg gf =
  Returns (true, filtered_grasps', gf') ->
  exists ee_name,
    getAttachedEndEffectorNames arm_jmg = [ee_name] /\
    Forall (feasible possible_grasps filter_pregrasp (getJointModelGroup arm_jmg ee_name)
                     (getDefaultIKTimeout arm_jmg)) filtered_grasps' /\
    (exists es, console gf' =
                es ++ [run_report (length filtered_grasps') (length possible_grasps)]) /\
    ((3 * Z.of_nat (length possible_grasps) * Z.of_nat hardware_concurrency < 2 ^ 53)%Z ->
     length filtered_grasps' <= length possible_grasps).
Proof.
  intros H.
  assert (Hne : possible_grasps <> []).
  { intros ->. discriminate H. }
  assert (Hee : exists ee_name, getAttachedEndEffectorNames arm_jmg = [ee_name]).
  { unfold filterGrasps in H. destruct possible_grasps as [|g l]; [congruence|].
    destruct (getAttachedEndEffectorNames arm_jmg) as [|ee_name [|other rest]];
      [discriminate H | now exists ee_name | discriminate H]. }
  destruct Hee as [ee_name Hee]. exists ee_name. split; [exact Hee|].
  rewrite (@filterGrasps_runs _ possible_grasps filtered_grasps filter_pregrasp arm_jmg gf
                              ee_name Hne Hee) in H.
  apply bind_returns in H. destruct H as ([[result fg1] gf1] & Hfirst & H).
  assert (Hhc : 1 <= hardware_concurrency).
  { destruct (Nat.eq_dec hardware_concurrency 0) as [Hz|Hnz]; [|lia].
    apply (threads_used_hardware_concurrency Hne) in Hz.
    rewrite filterGraspsHelper_no_threads in Hfirst by exact Hz. discriminate. }
  assert (Hsmaller : forall verbose,
             (3 * Z.of_nat (length possible_grasps) * Z.of_nat hardware_concurrency
              < 2 ^ 53)%Z ->
             (3 * Z.of_nat (length possible_grasps) *
              Z.of_nat (threads_used possible_grasps verbose) < 2 ^ 53)%Z).
  { intros verbose Hsmall.
    pose proof (@threads_used_le_hardware_concurrency possible_grasps verbose Hhc). nia. }
  assert (Hto : solver_timeout_ (prepared arm_jmg gf) = getDefaultIKTimeout arm_jmg)
    by reflexivity.
  destruct (negb result || (length fg1 =? 0)) eqn:Hrerun.
  - (* the verbose run gave the result *)
    assert (Hfg1 : fg1 = []).
    { destruct result.
      - cbn in Hrerun. destruct fg1; [reflexivity|discriminate].
      - apply filterGraspsHelper_returns in Hfirst.
        destruct Hfirst as (_ & _ & _ & _ & Hfalse). now destruct (Hfalse eq_refl). }
    apply filterGraspsHelper_returns in Hfirst.
    destruct Hfirst as (_ & Hto1 & _).
    destruct (filterGraspsHelper_sound _ _ _ _ _ _ _ H)
      as (appended & Heq & Hall & Hlast & Hcount).
    subst fg1. cbn [app] in Heq. subst appended.
    change (solver_timeout_ (emit rerun_notice gf1)) with (solver_timeout_ gf1) in Hall.
    rewrite Hto1, Hto in Hall.
    split; [exact Hall|]. split; [exact Hlast|].
    intros Hsmall. exact (Hcount Hne (Hsmaller true Hsmall)).
  - injection H as -> -> ->.
    destruct (filterGraspsHelper_sound _ _ _ _ _ _ _ Hfirst)
      as (appended & Heq & Hall & Hlast & Hcount).
    cbn [app] in Heq. subst appended. rewrite Hto in Hall.
    split; [exact Hall|]. split; [exact Hlast|].
    intros Hsmall. exact (Hcount Hne (Hsmaller false Hsmall)).
Qed.

(** X10.  What [filterGrasps] returns with [true]: the arm has exactly one
    end effector; every solution of the vector is made of one of the
    candidates, with grasp joint values that a solver found with SUCCESS
    within the default IK timeout of the arm group and, where the pre-grasp
    is filtered, with pre-grasp joint values found the same way from the
    grasp joint values as seed (otherwise with none); the last line printed
    reports the number of solutions and of candidates; and in the range
    where the work split is a partition there are no more solutions than
    candidates. *)
Theorem filterGrasps_sound
    possible_grasps filtered_grasps filter_pregrasp arm_jmg gf filtered_grasps' gf' :
  filterGrasps possible_grasps filtered_grasps filter_pregrasp arm_jmg gf =
  Returns (true, filtered_grasps', gf') ->
  exists ee_name,
    getAttachedEndEffectorNames arm_jmg = [ee_name] /\
    Forall (feasible possible_grasps filter_pregrasp (getJointModelGroup arm_jmg ee_name)
                     (getDefaultIKTimeout arm_jmg)) filtered_grasps' /\
    (exists es, console gf' =
                es ++ [run_report (length filtered_grasps') (length possible_grasps)]) /\
    ((3 * Z.of_nat (length possible_grasps) * Z.of_nat hardware_concurrency < 2 ^ 53)%Z ->
     length filtered_grasps' <= length possible_grasps).
Proof. apply filterGrasps_true. Qed.
Lemma join_all_returns threads :
  Forall well_formed_thread threads ->
  forall filtered_grasps gf,
  exists filtered_grasps' gf',
    join_all threads filtered_grasps gf = Returns (filtered_grasps', gf').
Proof.
  induction 1 as [|tc threads Htc _ IH]; intros fg gf.
  - now exists fg, gf.
  - cbn [join_all].
    destruct (filterGraspThread_returns fg gf Htc) as (appended & gf1 & -> & _).
    cbn [bind]. apply IH.
Qed.

(** A run with a solver to instantiate, at least one hardware thread and,
    where the pre-grasp is filtered, an end-effector group, returns. *)
Lemma filterGraspsHelper_defined
      possible_grasps filtered_grasps filter_pregrasp ee_jmg arm_jmg verbose gf :
  possible_grasps <> [] ->
  1 <= hardware_concurrency ->
  getSolverInstance arm_jmg <> None ->
  (filter_pregrasp = true -> ee_jmg <> None) ->
  solvers_not_null arm_jmg gf ->
  exists result filtered_grasps' gf',
    filterGraspsHelper possible_grasps filtered_grasps filter_pregrasp ee_jmg arm_jmg
                       verbose gf = Returns (result, filtered_grasps', gf') /\
    solvers_not_null arm_jmg gf'.
Proof.
  intros Hne Hhc Hsolver Hee Hcache. unfold filterGraspsHelper.
  destruct (@threads_used_positive possible_grasps verbose Hne Hhc) as [Hnt _].
  set (nt := threads_used possible_grasps verbose) in *.
  assert (Hhead :
    (let '(num_threads, gf0) :=
       if verbose
       then (1, emit [ROS_WARN (Using_only_threads 1)] gf)
       else (if length possible_grasps <? hardware_concurrency
             then length possible_grasps else hardware_concurrency, gf) in
     (num_threads, kin_solvers_ gf0)) = (nt, kin_solvers_ gf)).
  { unfold nt, threads_used. destruct verbose; reflexivity. }
  destruct (if verbose
            then (1, emit [ROS_WARN (Using_only_threads 1)] gf)
            else (if length possible_grasps <? hardware_concurrency
                  then length possible_grasps else hardware_concurrency, gf))
    as [num_threads gf0].
  injection Hhead as -> Hkin.
  set (gf2 := emit [ROS_INFO (Filtering_possible_grasps_with_threads nt)] gf0) in *.
  assert (Hgf2 : kin_solvers_ gf2 = kin_solvers_ gf) by exact Hkin.
  clearbody gf2. clear Hkin gf0.
  set (loaded_gf :=
         if negb (length (kin_solvers_ gf2 (getName arm_jmg)) =? nt)
         then let '(ok, solvers) := load_solvers arm_jmg nt [] in
              (ok, set_kin_solvers_ (getName arm_jmg) solvers gf2)
         else (true, gf2)).
  assert (Hload : fst loaded_gf = true /\
                  length (kin_solvers_ (snd loaded_gf) (getName arm_jmg)) = nt /\
                  solvers_not_null arm_jmg (snd loaded_gf)).
  { unfold loaded_gf, solvers_not_null.
    destruct (Nat.eqb_spec (length (kin_solvers_ gf2 (getName arm_jmg))) nt) as [Heq|_];
      cbn [negb].
    - cbn [fst snd]. rewrite Hgf2 in *. repeat split; assumption.
    - destruct (getSolverInstance arm_jmg) as [kin_solver|] eqn:Hks; [|congruence].
      rewrite (load_solvers_some arm_jmg Hks). cbn [fst snd app kin_solvers_ set_kin_solvers_].
      rewrite String.eqb_refl. repeat split.
      + apply repeat_length.
      + apply Forall_forall. intros x Hx. apply repeat_spec in Hx. now subst x. }
  destruct loaded_gf as [loaded gf3]. cbn [fst snd] in Hload.
  destruct Hload as (-> & Hlen3 & Hnull3). cbn [negb].
  unfold solvers_not_null in Hnull3.
  destruct (kin_solvers_ gf3 (getName arm_jmg)) as [|first_solver others] eqn:Hcache3;
    [cbn in Hlen3; lia|].
  change (at_index (first_solver :: others) 0) with (Returns first_solver). cbn [bind].
  destruct first_solver as [kin_solver|];
    [|exfalso; apply (Forall_inv Hnull3); reflexivity].
  cbn [deref bind].
  destruct (if negb (sameFrame (getBaseFrame kin_solver) (getModelFrame (robot_state_ gf3)))
            then match getLinkModel (robot_state_ gf3)
                                    (without_leading_slash (getBaseFrame kin_solver)) with
                 | Some lm => Some (inverse (getGlobalLinkTransform (robot_state_ gf3) lm))
                 | None => None
                 end
            else Some unassigned_Affine3d) as [link_transform|].
  - destruct (@create_threads_ranges _ possible_grasps link_transform
                (Some kin_solver :: others) filter_pregrasp ee_jmg (solver_timeout_ gf3)
                verbose nt nt 0) as (threads & Hrun & _); [lia|].
    change (share_end (length possible_grasps) nt 0) with 0%Z in Hrun.
    rewrite Hrun. cbn [bind].
    assert (Hzero : (0 <= 0 <= Z.of_nat (length possible_grasps))%Z) by lia.
    destruct (@create_threads_fields _ _ _ _ _ _ _ _ _ _ _ _ _ Hrun Hzero) as [_ Hfields].
    assert (Hwf : Forall well_formed_thread threads).
    { revert Hfields. apply Forall_impl.
      intros tc (Hpg & _ & Hfp & Heej & _ & _ & Hin & Hstart & Hend).
      unfold well_formed_thread. rewrite Hpg, Hfp, Heej. repeat split; try assumption.
      rewrite Forall_forall in Hnull3. now apply Hnull3. }
    destruct (join_all_returns Hwf filtered_grasps gf3) as (fg4 & gf4 & Hjoin).
    rewrite Hjoin. cbn [bind].
    do 3 eexists. split; [reflexivity|].
    apply join_all_quiet in Hjoin. destruct Hjoin as [(_ & Hkin4 & _) _].
    unfold solvers_not_null. cbn [kin_solvers_ emit]. rewrite Hkin4, Hcache3.
    exact Hnull3.
  - do 3 eexists. split; [reflexivity|].
    unfold solvers_not_null. rewrite Hcache3. exact Hnull3.
Qed.

(** X11.  For an object with valid visual tools, as the embedding takes
    every object to be, [filterGrasps] returns, with [true] or [false],
    whenever the list is not empty, the arm has one end effector, the arm
    group has a solver to give, there is at least one hardware thread, the
    solvers the object already holds for the arm are not null and, where
    the pre-grasp is filtered, the robot model knows the end-effector
    group: under these conditions the solver and end-effector pointers
    that the two runs follow are not null and no vector is read outside
    its bounds. *)
Theorem filterGrasps_returns
    possible_grasps filtered_grasps filter_pregrasp arm_jmg gf ee_name :
  possible_grasps <> [] ->
  getAttachedEndEffectorNames arm_jmg = [ee_name] ->
  1 <= hardware_concurrency ->
  getSolverInstance arm_jmg <> None ->
  (filter_pregrasp = true -> getJointModelGroup arm_jmg ee_name <> None) ->
  solvers_not_null arm_jmg gf ->
  exists result filtered_grasps' gf',
    filterGrasps possible_grasps filtered_grasps filter_pregrasp arm_jmg gf =
    Returns (result, filtered_grasps', gf').
Proof.
  intros Hne Hee Hhc Hsolver Hgroup Hcache.
  rewrite (@filterGrasps_runs _ possible_grasps filtered_grasps filter_pregrasp arm_jmg gf
                              ee_name Hne Hee).
  destruct (@filterGraspsHelper_defined possible_grasps [] filter_pregrasp
              (getJointModelGroup arm_jmg ee_name) arm_jmg false (prepared arm_jmg gf)
              Hne Hhc Hsolver Hgroup Hcache) as (result & fg1 & gf1 & -> & Hcache1).
  cbn [bind].
  destruct (negb result || (length fg1 =? 0)).
  - destruct (@filterGraspsHelper_defined possible_grasps fg1 filter_pregrasp
                (getJointModelGroup arm_jmg ee_name) arm_jmg true (emit rerun_notice gf1)
                Hne Hhc Hsolver Hgroup Hcache1) as (result2 & fg2 & gf2 & -> & _).
    now exists result2, fg2, gf2.
  - now exists result, fg1, gf1.
Qed.
(** X12.  What a failing call leaves in the caller's vector.  On the
    early checks (empty candidate list, not exactly one end effector) the
    vector is not cleared: it holds what the caller had put there, no run
    is made and the solvers are as before.  On any later failure the vector
    is empty. *)
Theorem filterGrasps_failure_output
    possible_grasps filtered_grasps filter_pregrasp arm_jmg gf filtered_grasps' gf' :
  filterGrasps possible_grasps filtered_grasps filter_pregrasp arm_jmg gf =
  Returns (false, filtered_grasps', gf') ->
  ((possible_grasps = [] \/ length (getAttachedEndEffectorNames arm_jmg) <> 1) /\
   filtered_grasps' = filtered_grasps /\
   kin_solvers_ gf' = kin_solvers_ gf /\
   stage_runs (console gf') = stage_runs (console gf)) \/
  (possible_grasps <> [] /\ length (getAttachedEndEffectorNames arm_jmg) = 1 /\
   filtered_grasps' = []).
Proof.
  intros H.
  destruct possible_grasps as [|g0 l] eqn:Hpg.
  { cbn in H. injection H as <- <-. left. split; [now left|].
    repeat split.
    cbn [console emit set_num_variables_ set_solver_timeout_].
    rewrite stage_runs_app. cbn. lia. }
  rewrite <- Hpg in *.
  assert (Hne : possible_grasps <> []) by (rewrite Hpg; discriminate).
  clear Hpg g0 l.
  destruct (getAttachedEndEffectorNames arm_jmg) as [|ee_name [|other rest]] eqn:Hee.
  - unfold filterGrasps in H. rewrite Hee in H.
    destruct possible_grasps; [congruence|]. cbn in H. injection H as <- <-.
    left. split; [right; cbn; lia|]. repeat split.
    cbn [console emit set_num_variables_ set_solver_timeout_].
    rewrite stage_runs_app. cbn. lia.
  - right. split; [exact Hne|]. split; [reflexivity|].
    rewrite (@filterGrasps_runs _ possible_grasps filtered_grasps filter_pregrasp arm_jmg gf
                                ee_name Hne Hee) in H.
    apply bind_returns in H. destruct H as ([[result fg1] gf1] & Hfirst & H).
    destruct (negb result || (length fg1 =? 0)) eqn:Hrerun.
    + assert (Hfg1 : fg1 = []).
      { destruct result.
        - cbn in Hrerun. destruct fg1; [reflexivity|discriminate].
        - apply filterGraspsHelper_returns in Hfirst.
          destruct Hfirst as (_ & _ & _ & _ & Hfalse). now destruct (Hfalse eq_refl). }
      apply filterGraspsHelper_returns in H.
      destruct H as (_ & _ & _ & _ & Hfalse). destruct (Hfalse eq_refl) as [-> _].
      exact Hfg1.
    + injection H as -> _ _. discriminate Hrerun.
  - unfold filterGrasps in H. rewrite Hee in H.
    destruct possible_grasps; [congruence|]. cbn in H. injection H as <- <-.
    left. split; [right; cbn; lia|]. repeat split.
    cbn [console emit set_num_variables_ set_solver_timeout_].
    rewrite stage_runs_app. cbn. lia.
Qed.

Lemma filterGraspThread_body_verbose tc verbose i ik_seed_state filtered_grasps gf1 gf2 :
  outcome_map fst (filterGraspThread_body (with_verbose_ verbose tc) i
                                          (ik_seed_state, filtered_grasps, gf1)) =
  outcome_map fst (filterGraspThread_body tc i (ik_seed_state, filtered_grasps, gf2)).
Proof.
  unfold filterGraspThread_body, with_verbose_.
  cbn [possible_grasps_ link_transform_ kin_solver_ filter_pregrasp_ ee_jmg_ timeout_
       verbose_].
  destruct (at_index (possible_grasps_ tc) i) as [candidate|]; [|reflexivity].
  cbn [bind].
  destruct (kin_solver_ tc) as [kin_solver|]; [|reflexivity]. cbn [deref bind].
  destruct (searchPositionIK kin_solver _ ik_seed_state (timeout_ tc))
    as [grasp_ik_solution error_code].
  destruct (error_code =? moveit_msgs.MoveItErrorCodes.SUCCESS)%Z.
  - destruct (filter_pregrasp_ tc); [|reflexivity].
    destruct (ee_jmg_ tc) as [ee|]; [|reflexivity]. cbn [deref bind].
    destruct (searchPositionIK kin_solver _ grasp_ik_solution (timeout_ tc))
      as [pregrasp_ik_solution error_code'].
    destruct (error_code' =? moveit_msgs.MoveItErrorCodes.NO_IK_SOLUTION)%Z;
      [reflexivity|].
    destruct (error_code' =? moveit_msgs.MoveItErrorCodes.TIMED_OUT)%Z; [reflexivity|].
    destruct (negb (error_code' =? moveit_msgs.MoveItErrorCodes.SUCCESS)%Z); reflexivity.
  - destruct (error_code =? moveit_msgs.MoveItErrorCodes.NO_IK_SOLUTION)%Z; [reflexivity|].
    destruct (error_code =? moveit_msgs.MoveItErrorCodes.TIMED_OUT)%Z; reflexivity.
Qed.

Lemma filterGraspThread_loop_verbose tc verbose ids : forall st1 st2,
  fst st1 = fst st2 ->
  outcome_map fst (filterGraspThread_loop (with_verbose_ verbose tc) ids st1) =
  outcome_map fst (filterGraspThread_loop tc ids st2).
Proof.
  induction ids as [|i ids IH]; intros [[seed1 fg1] gf1] [[seed2 fg2] gf2] Hst.
  - cbn in *. now rewrite Hst.
  - cbn [fst] in Hst. injection Hst as -> ->.
    cbn [filterGraspThread_loop].
    pose proof (filterGraspThread_body_verbose tc verbose i seed2 fg2 gf1 gf2) as Hbody.
    destruct (filterGraspThread_body (with_verbose_ verbose tc) i (seed2, fg2, gf1))
      as [st1'|];
      destruct (filterGraspThread_body tc i (seed2, fg2, gf2)) as [st2'|];
      cbn [outcome_map] in Hbody; try discriminate; [|reflexivity].
    cbn [bind]. apply IH. now injection Hbody.
Qed.

(** X13.  The [verbose_] flag of a thread only adds console output and
    display calls: with the flag set or not, the thread is defined for the
    same inputs and leaves the same solutions in the shared vector. *)
Theorem filterGraspThread_verbose_same_solutions tc verbose filtered_grasps gf :
  outcome_map fst (filterGraspThread (with_verbose_ verbose tc) filtered_grasps gf) =
  outcome_map fst (filterGraspThread tc filtered_grasps gf).
Proof.
  unfold filterGraspThread.
  pose proof (@filterGraspThread_loop_verbose tc verbose
                (int_range (grasps_id_start_ tc) (grasps_id_end_ tc))
                (repeat 0%R (num_variables_ gf), filtered_grasps, gf)
                (repeat 0%R (num_variables_ gf), filtered_grasps, gf) eq_refl) as Hloop.
  change (grasps_id_start_ (with_verbose_ verbose tc)) with (grasps_id_start_ tc).
  change (grasps_id_end_ (with_verbose_ verbose tc)) with (grasps_id_end_ tc).
  destruct (filterGraspThread_loop (with_verbose_ verbose tc) _ _) as [[[s1 f1] g1]|];
    destruct (filterGraspThread_loop tc _ _) as [[[s2 f2] g2]|];
    cbn [outcome_map fst] in Hloop; try discriminate; [|reflexivity].
  cbn [bind outcome_map fst]. now injection Hloop as _ ->.
Qed.

(** X14.  The first call on a newly constructed object.  The constructor
    stores the robot state and assigns neither [solver_timeout_] nor
    [num_variables_]; [filterGrasps] assigns both before it reads them:
    under the conditions in which the call returns, its result is the same
    whatever the two members held, and afterwards they hold the default IK
    timeout and the variable count of the arm group. *)
Theorem filterGrasps_on_new_object
    robot_state solver_timeout num_variables solver_timeout' num_variables'
    possible_grasps filtered_grasps filter_pregrasp arm_jmg ee_name :
  possible_grasps <> [] ->
  getAttachedEndEffectorNames arm_jmg = [ee_name] ->
  1 <= hardware_concurrency ->
  getSolverInstance arm_jmg <> None ->
  (filter_pregrasp = true -> getJointModelGroup arm_jmg ee_name <> None) ->
  exists result filtered_grasps' gf',
    filterGrasps possible_grasps filtered_grasps filter_pregrasp arm_jmg
                 (GraspFilter_ robot_state solver_timeout num_variables) =
    Returns (result, filtered_grasps', gf') /\
    filterGrasps possible_grasps filtered_grasps filter_pregrasp arm_jmg
                 (GraspFilter_ robot_state solver_timeout' num_variables') =
    Returns (result, filtered_grasps', gf') /\
    robot_state_ gf' = robot_state /\
    solver_timeout_ gf' = getDefaultIKTimeout arm_jmg /\
    num_variables_ gf' = getVariableCount arm_jmg.
Proof.
  intros Hne Hee Hhc Hsolver Hgroup.
  rewrite !(@filterGrasps_runs _ possible_grasps filtered_grasps filter_pregrasp arm_jmg _
                               ee_name Hne Hee).
  change (prepared arm_jmg (GraspFilter_ robot_state solver_timeout' num_variables'))
    with (prepared arm_jmg (GraspFilter_ robot_state solver_timeout num_variables)).
  set (gf := prepared arm_jmg (GraspFilter_ robot_state solver_timeout num_variables)).
  assert (Hcache : solvers_not_null arm_jmg gf) by constructor.
  destruct (@filterGraspsHelper_defined possible_grasps [] filter_pregrasp
              (getJointModelGroup arm_jmg ee_name) arm_jmg false gf
              Hne Hhc Hsolver Hgroup Hcache) as (result & fg1 & gf1 & Hfirst & Hcache1).
  rewrite Hfirst. cbn [bind].
  apply filterGraspsHelper_returns in Hfirst.
  destruct Hfirst as (Hrs1 & Hto1 & Hnv1 & _).
  destruct (negb result || (length fg1 =? 0)).
  - destruct (@filterGraspsHelper_defined possible_grasps fg1 filter_pregrasp
                (getJointModelGroup arm_jmg ee_name) arm_jmg true (emit rerun_notice gf1)
                Hne Hhc Hsolver Hgroup Hcache1) as (result2 & fg2 & gf2 & Hsecond & _).
    rewrite Hsecond. exists result2, fg2, gf2.
    apply filterGraspsHelper_returns in Hsecond.
    destruct Hsecond as (Hrs2 & Hto2 & Hnv2 & _).
    repeat split; [rewrite Hrs2 | rewrite Hto2 | rewrite Hnv2]; assumption.
  - exists result, fg1, gf1. repeat split; assumption.
Qed.
(** X17.  When the first run finds a solution there is no verbose run:
    [filterGrasps] returns what that run returned, and the console shows
    one run more than before the call. *)
Theorem filterGrasps_single_run
    possible_grasps filtered_grasps filter_pregrasp arm_jmg gf ee_name filtered_grasps1 gf1 :
  possible_grasps <> [] ->
  getAttachedEndEffectorNames arm_jmg = [ee_name] ->
  filterGraspsHelper possible_grasps [] filter_pregrasp
                     (getJointModelGroup arm_jmg ee_name) arm_jmg false
                     (prepared arm_jmg gf) = Returns (true, filtered_grasps1, gf1) ->
  filtered_grasps1 <> [] ->
  filterGrasps possible_grasps filtered_grasps filter_pregrasp arm_jmg gf =
  Returns (true, filtered_grasps1, gf1) /\
  stage_runs (console gf1) = S (stage_runs (console gf)).
Proof.
  intros Hne Hee Hfirst Hfound.
  rewrite (@filterGrasps_runs _ possible_grasps filtered_grasps filter_pregrasp arm_jmg gf
                              ee_name Hne Hee).
  rewrite Hfirst. cbn [bind negb orb].
  destruct filtered_grasps1 as [|s0 rest] eqn:Hfg1; [congruence|]. rewrite <- Hfg1 in *.
  replace (length filtered_grasps1 =? 0) with false by (rewrite Hfg1; reflexivity).
  split; [reflexivity|].
  apply filterGraspsHelper_returns in Hfirst.
  destruct Hfirst as (_ & _ & _ & (es & Hcons & Hquiet) & _).
  cbn [console prepared set_num_variables_ set_solver_timeout_] in Hcons.
  rewrite Hcons, !stage_runs_app, Hquiet. cbn. lia.
Qed.
End MoreStageA.

(** * The failures and the re-run of Stage A *)

Section StageARuns.
Context `{C : Collaborators}.

Lemma load_solvers_prefix arm_jmg num_threads : forall solvers,
  exists pushed, snd (load_solvers arm_jmg num_threads solvers) = solvers ++ pushed.
Proof.
  induction num_threads as [|k IH]; intros solvers.
  - exists []. cbn. now rewrite app_nil_r.
  - cbn [load_solvers]. destruct (getSolverInstance arm_jmg) as [kin_solver|].
    + destruct (IH (solvers ++ [Some kin_solver])) as [pushed ->].
      exists (Some kin_solver :: pushed). now rewrite <- app_assoc.
    + now exists [None].
Qed.

Lemma load_solvers_head arm_jmg num_threads kin_solver :
  hd_error (snd (load_solvers arm_jmg num_threads [])) = Some (Some kin_solver) ->
  getSolverInstance arm_jmg = Some kin_solver.
Proof.
  destruct num_threads as [|k]; [discriminate|]. cbn [load_solvers app].
  destruct (getSolverInstance arm_jmg) as [s|]; [|discriminate].
  destruct (load_solvers_prefix arm_jmg k [Some s]) as [pushed ->].
  cbn. congruence.
Qed.

(** The solver a returning run has used for the frame, and the first
    solver it leaves in the object. *)
Lemma filterGraspsHelper_solver
      possible_grasps filtered_grasps filter_pregrasp ee_jmg arm_jmg verbose gf
      result filtered_grasps' gf' :
  filterGraspsHelper possible_grasps filtered_grasps filter_pregrasp ee_jmg arm_jmg
                     verbose gf = Returns (result, filtered_grasps', gf') ->
  (forall kin_solver,
      hd_error (kin_solvers_ gf' (getName arm_jmg)) = Some (Some kin_solver) ->
      arm_solver arm_jmg gf kin_solver) /\
  (result = false ->
   getSolverInstance arm_jmg = None \/
   exists kin_solver,
     arm_solver arm_jmg gf kin_solver /\ frame_unknown (robot_state_ gf) kin_solver).
Proof.
  unfold filterGraspsHelper. intros H.
  set (nt := threads_used possible_grasps verbose).
  assert (Hhead :
    (let '(num_threads, gf0) :=
       if verbose
       then (1, emit [ROS_WARN (Using_only_threads 1)] gf)
       else (if length possible_grasps <? hardware_concurrency
             then length possible_grasps else hardware_concurrency, gf) in
     (num_threads, robot_state_ gf0, kin_solvers_ gf0)) =
    (nt, robot_state_ gf, kin_solvers_ gf)).
  { unfold nt, threads_used. destruct verbose; reflexivity. }
  destruct (if verbose
            then (1, emit [ROS_WARN (Using_only_threads 1)] gf)
            else (if length possible_grasps <? hardware_concurrency
                  then length possible_grasps else hardware_concurrency, gf))
    as [num_threads gf0].
  injection Hhead as -> Hrs Hkin.
  set (gf2 := emit [ROS_INFO (Filtering_possible_grasps_with_threads nt)] gf0) in *.
  assert (Hgf2 : robot_state_ gf2 = robot_state_ gf /\ kin_solvers_ gf2 = kin_solvers_ gf)
    by (split; assumption).
  clearbody gf2. clear Hrs Hkin gf0. destruct Hgf2 as [Hrs Hkin].
  set (loaded_gf :=
         if negb (length (kin_solvers_ gf2 (getName arm_jmg)) =? nt)
         then let '(ok, solvers) := load_solvers arm_jmg nt [] in
              (ok, set_kin_solvers_ (getName arm_jmg) solvers gf2)
         else (true, gf2)) in H.
  assert (Hload : robot_state_ (snd loaded_gf) = robot_state_ gf /\
                  (forall kin_solver,
                      hd_error (kin_solvers_ (snd loaded_gf) (getName arm_jmg)) =
                      Some (Some kin_solver) ->
                      arm_solver arm_jmg gf kin_solver) /\
                  (fst loaded_gf = false -> getSolverInstance arm_jmg = None)).
  { unfold loaded_gf.
    destruct (negb (length (kin_solvers_ gf2 (getName arm_jmg)) =? nt)).
    - pose proof (@load_solvers_failed _ arm_jmg nt []) as Hf.
      pose proof (@load_solvers_head arm_jmg nt) as Hh.
      destruct (load_solvers arm_jmg nt []) as [ok solvers]. cbn in *.
      rewrite String.eqb_refl. repeat split; try assumption.
      intros kin_solver Hhd. left. now apply Hh.
    - cbn. rewrite Hkin. repeat split; try assumption.
      + intros kin_solver Hhd. now right.
      + discriminate. }
  destruct loaded_gf as [loaded gf3]. cbn [fst snd] in Hload.
  destruct Hload as (Hrs3 & Harm3 & Hfail).
  destruct loaded; cbn [negb] in H.
  - apply bind_returns in H. destruct H as (first_solver & Hfirst & H).
    apply bind_returns in H. destruct H as (kin_solver & Hderef & H).
    apply deref_returns in Hderef. subst first_solver.
    assert (Hks : arm_solver arm_jmg gf kin_solver).
    { apply Harm3. unfold at_index in Hfirst. cbn in Hfirst.
      destruct (kin_solvers_ gf3 (getName arm_jmg)) as [|s0 rest]; [discriminate|].
      cbn in *. congruence. }
    destruct (sameFrame (getBaseFrame kin_solver) (getModelFrame (robot_state_ gf3)))
      eqn:Hsame; cbn [negb] in H.
    + apply bind_returns in H. destruct H as (threads & _ & H).
      apply bind_returns in H. destruct H as ([fg4 gf4] & Hjoin & H).
      injection H as <- <- <-.
      apply join_all_quiet in Hjoin. destruct Hjoin as [(_ & Hkin4 & _) _].
      split; [|discriminate].
      cbn [kin_solvers_ emit]. rewrite Hkin4. exact Harm3.
    + destruct (getLinkModel (robot_state_ gf3)
                             (without_leading_slash (getBaseFrame kin_solver)))
        as [lm|] eqn:Hlm.
      * apply bind_returns in H. destruct H as (threads & _ & H).
        apply bind_returns in H. destruct H as ([fg4 gf4] & Hjoin & H).
        injection H as <- <- <-.
        apply join_all_quiet in Hjoin. destruct Hjoin as [(_ & Hkin4 & _) _].
        split; [|discriminate].
        cbn [kin_solvers_ emit]. rewrite Hkin4. exact Harm3.
      * injection H as <- <- <-. split; [exact Harm3|].
        intros _. right. exists kin_solver. split; [exact Hks|].
        rewrite Hrs3 in *. now split.
  - injection H as <- <- <-. split; [exact Harm3|].
    intros _. left. now apply Hfail.
Qed.

(** C3, amended.  [filterGrasps] returns [false] only if the candidate
    list is empty, or no solver can be instantiated, or the arm does not
    have exactly one end effector attached, or the base frame of the arm's
    solver (a new instance, or the first solver the object holds for the
    arm) is not the model frame and names no link of the robot.  On an
    empty candidate list it returns [false] at once: the solvers held by
    the object are as before and the console has the error line only. *)
Theorem filterGrasps_failure possible_grasps filtered_grasps filter_pregrasp arm_jmg gf :
  (forall filtered_grasps' gf',
      filterGrasps possible_grasps filtered_grasps filter_pregrasp arm_jmg gf =
      Returns (false, filtered_grasps', gf') ->
      possible_grasps = [] \/
      getSolverInstance arm_jmg = None \/
      length (getAttachedEndEffectorNames arm_jmg) <> 1 \/
      exists kin_solver,
        arm_solver arm_jmg gf kin_solver /\
        frame_unknown (robot_state_ gf) kin_solver) /\
  (possible_grasps = [] ->
   exists gf',
     filterGrasps possible_grasps filtered_grasps filter_pregrasp arm_jmg gf =
     Returns (false, filtered_grasps, gf') /\
     kin_solvers_ gf' = kin_solvers_ gf /\
     console gf' =
     console gf ++ [ROS_ERROR Unable_to_filter_grasps_because_vector_is_empty]).
Proof.
  split.
  - intros fg' gf' H.
    destruct possible_grasps as [|g l] eqn:Epg; [now left|]. right.
    destruct (getAttachedEndEffectorNames arm_jmg) as [|ee_name [|ee2 names]] eqn:Eee;
      [right; left; cbn; lia | | right; left; cbn; lia].
    rewrite (@filterGrasps_runs _ (g :: l) filtered_grasps filter_pregrasp arm_jmg gf
                                ee_name) in H by (congruence || assumption).
    apply bind_returns in H. destruct H as ([[result1 fg1] gf1] & Hfirst & H).
    pose proof (filterGraspsHelper_solver _ _ _ _ _ _ _ Hfirst) as [Hheld1 _].
    apply filterGraspsHelper_returns in Hfirst.
    destruct Hfirst as (Hrs1 & _ & _ & _ & _).
    destruct (negb result1 || (length fg1 =? 0)) eqn:Hretry.
    + apply filterGraspsHelper_solver in H. destruct H as [_ Hfalse].
      destruct (Hfalse eq_refl) as [Hnone|(ks & Harm & Hks)]; [now left|].
      right. right. exists ks. split.
      * destruct Harm as [Hnew|Hheld]; [now left|]. exact (Hheld1 ks Hheld).
      * cbn [emit robot_state_] in Hks. rewrite Hrs1 in Hks. exact Hks.
    + injection H as -> _ _. discriminate Hretry.
  - intros ->. eexists. split; [reflexivity|]. split; reflexivity.
Qed.


End StageARuns.

(** * The three stages in sequence *)

Section Pipeline.
Context `{C : Collaborators}.

(** X15.  The three stages one after the other: the candidates filtered by
    [filterGrasps], its solutions pruned by [filterGraspsInCollision], the
    best of what is left chosen by [chooseBestGrasp].  When the three
    calls succeed, [chosen] either still holds the caller's value, or it is
    a solution made of one of the candidates, with joint values the solver
    found, whose grasp joint values do not collide, and whose yaw angle, as
    the code computes it, is above -1 and not exceeded by that of any
    solution that passed the pruning. *)
Theorem stages_in_sequence
    possible_grasps filtered_grasps0 filter_pregrasp arm_jmg gf filtered_grasps gf1
    planning_scene_monitor robot_state verbose pruned gf2 chosen best :
  overwrites arm_jmg ->
  filterGrasps possible_grasps filtered_grasps0 filter_pregrasp arm_jmg gf =
  Returns (true, filtered_grasps, gf1) ->
  filterGraspsInCollision filtered_grasps planning_scene_monitor arm_jmg robot_state
                          verbose gf1 = (true, pruned, gf2) ->
  chooseBestGrasp pruned chosen = (true, best) ->
  best = chosen \/
  (exists ee_name,
      feasible possible_grasps filter_pregrasp (getJointModelGroup arm_jmg ee_name)
               (getDefaultIKTimeout arm_jmg) best) /\
  grasp_in_collision planning_scene_monitor arm_jmg robot_state verbose best = false /\
  Binary64.gt (yall best) (Binary64.Finite (-1)) = true /\
  forall g, In g pruned -> Binary64.gt (yall g) (yall best) = false.
Proof.
  intros Hov HA HB HS.
  (* selection *)
  unfold chooseBestGrasp in HS.
  pose proof (@chooseBestGrasp_loop_max _ pruned (Binary64.Finite (-1)) chosen eq_refl)
    as Hmax.
  destruct pruned as [|p0 rest] eqn:Hpruned; [discriminate|]. rewrite <- Hpruned in *.
  destruct (chooseBestGrasp_loop pruned (Binary64.Finite (-1)) chosen) as [m c].
  replace c with best in * by (destruct pruned; [discriminate | now injection HS]).
  clear HS.
  destruct Hmax as (_ & Hub & [[_ ->]|(Hlt & before & after & Heq & Hyaw & _)]);
    [now left|right].
  assert (Hin : In best pruned) by (rewrite Heq; apply in_elt).
  (* pruning *)
  assert (Hne : filtered_grasps <> []).
  { intros ->. discriminate HB. }
  pose proof (@filterGraspsInCollision_flag_list _ filtered_grasps planning_scene_monitor
                arm_jmg robot_state verbose gf1 Hne) as Hflag.
  rewrite HB in Hflag. cbn [fst] in Hflag.
  destruct (@helper_filter _ filtered_grasps planning_scene_monitor arm_jmg robot_state
                           verbose gf1 Hov) as [gf' Hfilter].
  rewrite Hfilter in Hflag. cbn [fst snd] in Hflag. injection Hflag as Hkept.
  rewrite Hkept in Hin. apply filter_In in Hin. destruct Hin as [Hin Hfree].
  (* the IK filter *)
  destruct (filterGrasps_true _ _ _ _ _ HA) as (ee_name & _ & Hall & _).
  rewrite Forall_forall in Hall.
  split; [exists ee_name; now apply Hall|].
  split; [now apply negb_true_iff in Hfree|].
  rewrite Hyaw. split; assumption.
Qed.
End Pipeline.

(** * The properties on the test bench *)

Lemma bench_overwrites frame effectors : overwrites (Bench.arm frame effectors).
Proof. intros rs a b. reflexivity. Defined.

(** ** The selection on the test bench *)

Lemma sin_5_4_upper : (sin (5 / 4) < 19 / 20)%R.
Proof.
  assert (H1 : (0 <= 5 / 4)%R) by lra.
  assert (H2 : (5 / 4 <= PI)%R) by (pose proof PI2_1; lra).
  destruct (SIN (5 / 4) H1 H2) as [_ Hub].
  unfold sin_ub, sin_approx, sin_term in Hub.
  cbn [sum_f_R0 Nat.mul Nat.add] in Hub.
  rewrite !fact_simpl in Hub. change (fact 0) with 1 in Hub.
  rewrite !mult_INR, !S_INR in Hub. simpl INR in Hub. simpl pow in Hub.
  lra.
Qed.

Lemma sin_3_2_lower : (49 / 50 < sin (3 / 2))%R.
Proof.
  assert (H1 : (0 <= 3 / 2)%R) by lra.
  assert (H2 : (3 / 2 <= PI)%R) by (pose proof PI2_1; lra).
  destruct (SIN (3 / 2) H1 H2) as [Hlb _].
  unfold sin_lb, sin_approx, sin_term in Hlb.
  cbn [sum_f_R0 Nat.mul Nat.add] in Hlb.
  rewrite !fact_simpl in Hlb. change (fact 0) with 1 in Hlb.
  rewrite !mult_INR, !S_INR in Hlb. simpl INR in Hlb. simpl pow in Hlb.
  lra.
Qed.

(** The true arcsine between -0.98 and -0.95. *)
Lemma asin_near_minus_one y :
  (19 / 20 <= y <= 49 / 50)%R -> (- (3 / 2) <= Ratan.asin (- y) <= - (5 / 4))%R.
Proof.
  intros Hy. rewrite asin_opp.
  assert (Hb : (-1 <= y <= 1)%R) by lra.
  pose proof (asin_bound y) as Hr.
  pose proof (sin_asin y Hb) as Hs.
  pose proof PI2_3_2 as Hpi.
  split.
  - destruct (Rle_lt_dec (Ratan.asin y) (3 / 2)) as [Hle|Hgt]; [lra|].
    assert (Hsin : (sin (3 / 2) < sin (Ratan.asin y))%R)
      by (apply sin_increasing_1; lra).
    pose proof sin_3_2_lower. lra.
  - destruct (Rlt_le_dec (Ratan.asin y) (5 / 4)) as [Hlt|Hge]; [|lra].
    assert (Hsin : (sin (Ratan.asin y) < sin (5 / 4))%R)
      by (apply sin_increasing_1; lra).
    pose proof sin_5_4_upper. lra.
Qed.

(** The argument of [asin] for the steep grasp is a number between -0.98
    and -0.95. *)
Lemma steep_argument_range :
  Bench.steep_argument = Binary64.Finite (Binary64.value Bench.steep_argument) /\
  (19 / 20 <= - Q2R (Binary64.value Bench.steep_argument) <= 49 / 50)%R.
Proof.
  split; [vm_compute; reflexivity|].
  assert (H : (- (49 # 50) <= Binary64.value Bench.steep_argument <= - (19 # 20))%Q)
    by (split; vm_compute; discriminate).
  destruct H as [H1 H2]. apply Qle_Rle in H1, H2.
  rewrite Q2R_opp in H1, H2.
  replace (Q2R (49 # 50)) with (49 / 50)%R in H1 by (unfold Q2R; simpl; lra).
  replace (Q2R (19 # 20)) with (19 / 20)%R in H2 by (unfold Q2R; simpl; lra).
  lra.
Qed.

Lemma chooseBestGrasp_leaves_chosen_witness :
  [Bench.steep] <> [] /\
  (forall g, In g [Bench.steep] ->
     Binary64.gt (yall g) (Binary64.Finite (-1)) = false) /\
  chooseBestGrasp [Bench.steep] Bench.placeholder = (true, Bench.placeholder).
Proof.
  assert (Hlow : forall g, In g [Bench.steep] ->
                   Binary64.gt (yall g) (Binary64.Finite (-1)) = false).
  { intros g [<-|[]]. vm_compute. reflexivity. }
  split; [discriminate|]. split; [exact Hlow|].
  apply (@chooseBestGrasp_leaves_chosen bench [Bench.steep] Bench.placeholder);
    [discriminate | exact Hlow].
Defined.

(** C7, at the input where the code departs from it.  The only solution of
    the list is the steep grasp; for an [asin] of the C library that
    returns, for the argument the code computes, a number within 1/4 of
    the true arcsine, this yaw angle is a proper number, the greatest of
    the list, yet [chooseBestGrasp] reports success with [chosen] still
    holding the caller's value, which is not a solution of the list. *)
Theorem chooseBestGrasp_success_without_selection `{C : Collaborators} (yaw : Q) :
  asin Bench.steep_argument = Binary64.Finite yaw ->
  (Rabs (Q2R yaw - Ratan.asin (Q2R (Binary64.value Bench.steep_argument))) <= 1 / 4)%R ->
  yall Bench.steep = Binary64.Finite yaw /\
  chooseBestGrasp [Bench.steep] Bench.placeholder = (true, Bench.placeholder) /\
  ~ In Bench.placeholder [Bench.steep].
Proof.
  intros Hasin Hnear.
  assert (Hyall : yall Bench.steep = Binary64.Finite yaw) by exact Hasin.
  split; [exact Hyall|]. split.
  - unfold chooseBestGrasp.
    rewrite chooseBestGrasp_loop_unchanged; [reflexivity|].
    intros g [<-|[]]. rewrite Hyall. cbn [Binary64.gt].
    apply negb_false_iff, Qle_bool_iff, Rle_Qle.
    destruct steep_argument_range as [_ Hrange].
    pose proof (asin_near_minus_one Hrange) as Ha.
    rewrite Ropp_involutive in Ha.
    replace (Q2R (-1)) with (-1)%R by (unfold Q2R; simpl; lra).
    pose proof (Rle_abs (Q2R yaw -
                         Ratan.asin (Q2R (Binary64.value Bench.steep_argument)))) as Hup.
    lra.
  - intros [H|[]]. discriminate H.
Qed.

Lemma chooseBestGrasp_success_without_selection_witness :
  let yaw := Binary64.value (asin Bench.steep_argument) in
  asin Bench.steep_argument = Binary64.Finite yaw /\
  (Rabs (Q2R yaw - Ratan.asin (Q2R (Binary64.value Bench.steep_argument))) <= 1 / 4)%R /\
  yall Bench.steep = Binary64.Finite yaw /\
  chooseBestGrasp [Bench.steep] Bench.placeholder = (true, Bench.placeholder) /\
  ~ In Bench.placeholder [Bench.steep].
Proof.
  cbv zeta.
  assert (H1 : asin Bench.steep_argument =
               Binary64.Finite (Binary64.value (asin Bench.steep_argument)))
    by (vm_compute; reflexivity).
  assert (H2 : (Rabs (Q2R (Binary64.value (asin Bench.steep_argument)) -
                      Ratan.asin (Q2R (Binary64.value Bench.steep_argument))) <= 1 / 4)%R).
  { assert (H : (- (3 # 2) <= Binary64.value (asin Bench.steep_argument) <= - (5 # 4))%Q)
      by (split; vm_compute; discriminate).
    destruct H as [Hlo Hhi]. apply Qle_Rle in Hlo, Hhi.
    rewrite Q2R_opp in Hlo, Hhi.
    replace (Q2R (3 # 2)) with (3 / 2)%R in Hlo by (unfold Q2R; simpl; lra).
    replace (Q2R (5 # 4)) with (5 / 4)%R in Hhi by (unfold Q2R; simpl; lra).
    destruct steep_argument_range as [_ Hrange].
    pose proof (asin_near_minus_one Hrange) as Ha.
    rewrite Ropp_involutive in Ha.
    apply Rabs_le. lra. }
  split; [exact H1|]. split; [exact H2|].
  exact (@chooseBestGrasp_success_without_selection bench _ H1 H2).
Defined.

(** The yaw angle is computed in [double] arithmetic: for the skew grasp
    the exact value of -2*(x*z - w*y) is -1, whose arcsine is below -1, but
    the rounded product x*z equals w*y, the argument of [asin] is 0, and the
    grasp is selected. *)
Example chooseBestGrasp_rounds_the_products :
  (-2 * (1073741825 * (2147483649 # 2) - 1152921506217459712 * 1) == -1)%Q /\
  Binary64.mul (Binary64.Finite (-2))
    (Binary64.sub
       (Binary64.mul (Binary64.of_Q 1073741825) (Binary64.of_Q (2147483649 # 2)))
       (Binary64.mul (Binary64.of_Q 1152921506217459712) (Binary64.of_Q 1))) =
  Binary64.Finite 0 /\
  chooseBestGrasp [Bench.skew] Bench.placeholder = (true, Bench.skew).
Proof. repeat split; vm_compute; reflexivity. Qed.

(** ** Stage B on the test bench *)

Lemma filterGraspsInCollisionHelper_prunes_witness :
  let pg := [Bench.solution "a" [0%R; 0%R]; Bench.solution "b" []; Bench.solution "c" [0%R]] in
  overwrites (Bench.arm None []) /\
  let '(ok, pruned, _) :=
    filterGraspsInCollisionHelper pg tt (Bench.arm None []) [] false Bench.fresh in
  ok = true /\
  pruned = filter (fun g => negb (grasp_in_collision tt (Bench.arm None []) [] false g)) pg /\
  length pruned <= length pg /\
  forall f gf0,
    let '(_, pruned', _) :=
      filterGraspsInCollisionHelper (map (with_pregrasp_ik_solution_ f) pg)
                                    tt (Bench.arm None []) [] false gf0 in
    pruned' = map (with_pregrasp_ik_solution_ f) pruned.
Proof.
  split.
  - apply bench_overwrites.
  - apply (@filterGraspsInCollisionHelper_prunes bench _ tt (Bench.arm None []) [] false
             Bench.fresh (bench_overwrites None [])).
Defined.

Lemma filterGraspsInCollisionHelper_idempotent_witness :
  let pg := [Bench.solution "a" [0%R; 0%R]; Bench.solution "d" [0%R; 0%R; 0%R]] in
  overwrites (Bench.arm None []) /\
  (forall g, In g pg -> grasp_in_collision tt (Bench.arm None []) [] true g = false) /\
  snd (fst (filterGraspsInCollisionHelper pg tt (Bench.arm None []) [] true Bench.fresh)) = pg.
Proof.
  assert (Hfree : forall g,
             In g [Bench.solution "a" [0%R; 0%R]; Bench.solution "d" [0%R; 0%R; 0%R]] ->
             grasp_in_collision tt (Bench.arm None []) [] true g = false).
  { intros g [<-|[<-|[]]]; reflexivity. }
  split; [apply bench_overwrites|]. split; [exact Hfree|].
  apply (@filterGraspsInCollisionHelper_idempotent bench _ tt (Bench.arm None []) [] true
           Bench.fresh (bench_overwrites None []) Hfree).
Defined.

(** C6 as stated fails when the caller asks for verbose output: the only
    solution of the list collides and is removed, and there is one pass, not
    two. *)
Lemma filterGraspsInCollision_verbose_single_pass :
  let pg := [Bench.solution "b" []] in
  pg <> [] /\
  snd (fst (filterGraspsInCollisionHelper pg tt (Bench.arm None []) [] true Bench.fresh)) = [] /\
  filterGraspsInCollision pg tt (Bench.arm None []) [] true Bench.fresh =
  (true, [],
   snd (filterGraspsInCollisionHelper pg tt (Bench.arm None []) [] true Bench.fresh)) /\
  pruning_passes
    (console (snd (filterGraspsInCollision pg tt (Bench.arm None []) [] true Bench.fresh))) = 1.
Proof.
  cbv zeta. split; [discriminate|]. repeat split; reflexivity.
Qed.

Lemma filterGraspsInCollision_rerun_witness :
  let pg := [Bench.solution "c" [0%R]] in
  let first_pass :=
    filterGraspsInCollisionHelper pg tt (Bench.arm None []) [] false Bench.fresh in
  let second_pass :=
    filterGraspsInCollisionHelper pg tt (Bench.arm None []) [] true
                                  (emit rerun_announcement (snd first_pass)) in
  let result := filterGraspsInCollision pg tt (Bench.arm None []) [] false Bench.fresh in
  pg <> [] /\
  snd (fst first_pass) = [] /\
  result = (true, [], snd second_pass) /\
  pruning_passes (console (snd result)) = 2 + pruning_passes (console Bench.fresh).
Proof.
  cbv zeta. split; [discriminate|]. split; [reflexivity|].
  apply (@filterGraspsInCollision_rerun bench [Bench.solution "c" [0%R]] tt
           (Bench.arm None []) [] Bench.fresh); [discriminate | reflexivity].
Defined.

(** On this input the second pass keeps the solution in its copy, and the
    caller's list is empty all the same. *)
Lemma filterGraspsInCollision_rerun_private_witness :
  let pg := [Bench.solution "c" [0%R]] in
  pg <> [] /\
  snd (fst (filterGraspsInCollisionHelper pg tt (Bench.arm None []) [] false Bench.fresh)) = [] /\
  snd (fst (filterGraspsInCollisionHelper pg tt (Bench.arm None []) [] true Bench.fresh)) = pg /\
  snd (fst (filterGraspsInCollision pg tt (Bench.arm None []) [] false Bench.fresh)) = [].
Proof.
  cbv zeta. split; [discriminate|]. split; [reflexivity|]. split; [reflexivity|].
  apply (@filterGraspsInCollision_rerun_private bench [Bench.solution "c" [0%R]] tt
           (Bench.arm None []) [] Bench.fresh); [discriminate | reflexivity].
Defined.

(** ** The work split on the test bench *)

(** Ten candidates on three threads: the ranges are 0-4, 4-7 and 7-10. *)
Example create_threads_ten_by_three :
  match create_threads Bench.ten_candidates unassigned_Affine3d
                       [Some "world"; Some "world"; Some "world"]%string
                       true None 0%R false
                       (Double.div (Double.of_nat 10) (Double.of_nat 3)) 3 0 0 with
  | Returns threads => map range_of threads
  | Undefined => []
  end = [(0, 4); (4, 7); (7, 10)]%Z.
Proof. vm_compute. reflexivity. Qed.

Lemma create_threads_partition_witness :
  let pg := Bench.ten_candidates in
  let solvers := [Some "world"; Some "world"; Some "world"]%string in
  pg <> [] /\
  1 <= 3 <= length pg /\
  (3 * Z.of_nat (length pg) * Z.of_nat 3 < 2 ^ 53)%Z /\
  length solvers = 3 /\
  exists threads,
    create_threads pg unassigned_Affine3d solvers true None 0%R false
                   (Double.div (Double.of_nat (length pg)) (Double.of_nat 3)) 3 0 0 =
    Returns threads /\
    length threads = 3 /\
    flat_map (fun tc => int_range (grasps_id_start_ tc) (grasps_id_end_ tc)) threads =
    int_range 0 (Z.of_nat (length pg)) /\
    forall tc, In tc threads ->
      (0 <= grasps_id_start_ tc <= grasps_id_end_ tc)%Z /\
      (grasps_id_end_ tc <= Z.of_nat (length pg))%Z /\
      (grasps_id_end_ tc - grasps_id_start_ tc <=
       (Z.of_nat (length pg) + Z.of_nat 3 - 1) / Z.of_nat 3)%Z.
Proof.
  cbv zeta.
  assert (H1 : Bench.ten_candidates <> []) by discriminate.
  assert (H2 : 1 <= 3 <= length Bench.ten_candidates) by (simpl; lia).
  assert (H3 : (3 * Z.of_nat (length Bench.ten_candidates) * Z.of_nat 3 < 2 ^ 53)%Z)
    by reflexivity.
  assert (H4 : length [Some "world"; Some "world"; Some "world"]%string = 3) by reflexivity.
  split; [exact H1|]. split; [exact H2|]. split; [exact H3|]. split; [exact H4|].
  exact (@create_threads_partition bench Bench.ten_candidates unassigned_Affine3d
           [Some "world"; Some "world"; Some "world"]%string true None 0%R false 3
           H1 H2 H3 H4).
Defined.

(** ** Stage A on the test bench *)

(** The thread accepts the first two of its five candidates: for the third
    the pre-grasp call finds no solution, for the last two the grasp call
    finds none. *)
Example filterGraspThread_worker :
  match filterGraspThread Bench.worker [] Bench.fresh with
  | Returns (filtered_grasps, _) => map (fun g => moveit_msgs.id (grasp_ g)) filtered_grasps
  | Undefined => []
  end = ["1"; "2"]%string.
Proof. vm_compute. reflexivity. Qed.

Lemma filterGraspThread_accepts_witness :
  let ee := {| getName := "gripper"%string;
               getDefaultIKTimeout := 0%R;
               getVariableCount := 0;
               getAttachedEndEffectorNames := [];
               getSolverInstance := None;
               getEndEffectorParentGroup := ("arm", "wrist")%string |} in
  well_formed_thread Bench.worker /\
  kin_solver_ Bench.worker = Some "world"%string /\
  (filter_pregrasp_ Bench.worker = true -> ee_jmg_ Bench.worker = Some ee) /\
  int_range (grasps_id_start_ Bench.worker) (grasps_id_end_ Bench.worker) =
  [0; 1]%Z ++ 2%Z :: [3; 4]%Z /\
  exists candidate ik_seed_state filtered_grasps1 gf1,
    at_index (possible_grasps_ Bench.worker) 2 = Returns candidate /\
    filterGraspThread_loop Bench.worker [0; 1]%Z
      (repeat 0%R (num_variables_ Bench.fresh), [], Bench.fresh) =
    Returns (ik_seed_state, filtered_grasps1, gf1) /\
    let grasp_ik := grasp_ik_call Bench.worker "world"%string candidate ik_seed_state in
    let pregrasp_ik :=
      pregrasp_ik_call Bench.worker "world"%string ee candidate (fst grasp_ik) in
    let accepted :=
      snd grasp_ik = moveit_msgs.MoveItErrorCodes.SUCCESS /\
      (filter_pregrasp_ Bench.worker = true ->
       snd pregrasp_ik = moveit_msgs.MoveItErrorCodes.SUCCESS) in
    exists ik_seed_state2 filtered_grasps2 gf2 later gf',
      filterGraspThread_body Bench.worker 2 (ik_seed_state, filtered_grasps1, gf1) =
      Returns (ik_seed_state2, filtered_grasps2, gf2) /\
      (accepted /\
       filtered_grasps2 =
       filtered_grasps1 ++
       [solution_of candidate (fst grasp_ik)
                    (if filter_pregrasp_ Bench.worker then fst pregrasp_ik else [])]
       \/
       ~ accepted /\ filtered_grasps2 = filtered_grasps1) /\
      filterGraspThread Bench.worker [] Bench.fresh = Returns (filtered_grasps2 ++ later, gf').
Proof.
  cbv zeta.
  assert (Hwf : well_formed_thread Bench.worker).
  { repeat split; simpl; try lia; discriminate. }
  split; [exact Hwf|]. split; [reflexivity|]. split; [reflexivity|].
  split; [reflexivity|].
  apply (@filterGraspThread_accepts bench Bench.worker [] Bench.fresh "world"%string _
           Hwf eq_refl (fun _ => eq_refl) [0; 1]%Z 2%Z [3; 4]%Z eq_refl).
Defined.

(** C3 as stated fails on an arm whose solver works in a frame that is not
    the model frame and names no link: the candidate list is not empty, a
    solver is instantiated, the arm has one end effector, and [filterGrasps]
    returns [false]. *)
Lemma filterGrasps_fails_on_unknown_frame :
  let arm_jmg := Bench.arm (Some "jaco_link_base"%string) ["gripper"%string] in
  let possible_grasps := [Bench.candidate "1"] in
  possible_grasps <> [] /\
  getSolverInstance arm_jmg <> None /\
  length (getAttachedEndEffectorNames arm_jmg) = 1 /\
  exists gf',
    filterGrasps possible_grasps [] true arm_jmg Bench.fresh = Returns (false, [], gf').
Proof.
  cbv zeta. split; [discriminate|]. split; [discriminate|]. split; [reflexivity|].
  exists (Bench.object_after
            (filterGrasps [Bench.candidate "1"] [] true
               (Bench.arm (Some "jaco_link_base"%string) ["gripper"%string]) Bench.fresh)).
  vm_compute. reflexivity.
Qed.

Lemma filterGrasps_failure_witness :
  let arm_jmg := Bench.arm (Some "jaco_link_base"%string) ["gripper"%string] in
  let possible_grasps := [Bench.candidate "1"] in
  let gf' := Bench.object_after
               (filterGrasps possible_grasps [] true arm_jmg Bench.fresh) in
  filterGrasps possible_grasps [] true arm_jmg Bench.fresh = Returns (false, [], gf') /\
  (possible_grasps = [] \/
   getSolverInstance arm_jmg = None \/
   length (getAttachedEndEffectorNames arm_jmg) <> 1 \/
   exists kin_solver,
     arm_solver arm_jmg Bench.fresh kin_solver /\
     frame_unknown (robot_state_ Bench.fresh) kin_solver).
Proof.
  cbv zeta.
  assert (H : filterGrasps [Bench.candidate "1"] [] true
                (Bench.arm (Some "jaco_link_base"%string) ["gripper"%string]) Bench.fresh =
              Returns (false, [],
                       Bench.object_after
                         (filterGrasps [Bench.candidate "1"] [] true
                            (Bench.arm (Some "jaco_link_base"%string) ["gripper"%string])
                            Bench.fresh)))
    by (vm_compute; reflexivity).
  split; [exact H|].
  exact (proj1 (@filterGrasps_failure bench [Bench.candidate "1"] [] true
                  (Bench.arm (Some "jaco_link_base"%string) ["gripper"%string])
                  Bench.fresh) _ _ H).
Defined.

(** With no solver to instantiate, the first run returns [false] and leaves
    one null solver behind; the verbose run wants one solver, finds one in
    the vector and dereferences it. *)
Example filterGrasps_without_solver :
  filterGrasps [Bench.candidate "1"] [] true (Bench.arm None ["gripper"%string]) Bench.fresh =
  Undefined.
Proof. vm_compute. reflexivity. Qed.

(** An arm with three joints: every seed has three joints and the solver
    finds no solution.  Both runs end with an empty vector; the call returns
    [true] after two runs, the second on one thread. *)
Example filterGrasps_no_solution :
  match filterGrasps Bench.five_candidates [] true
          (Bench.arm_with (Some "world"%string) ["gripper"%string] 3) Bench.fresh with
  | Returns (result, filtered_grasps, gf) =>
      Some (result, filtered_grasps, filter is_run_report (console gf))
  | Undefined => None
  end =
  Some (true, [], [ROS_INFO (Filtering_possible_grasps_with_threads 2);
                   ROS_INFO (Filtering_possible_grasps_with_threads 1)]).
Proof. vm_compute. reflexivity. Qed.



(** ** The further properties on the test bench *)

Lemma filterGraspsInCollision_filters_witness :
  let pg := [Bench.solution "a" [0%R; 0%R]; Bench.solution "b" []; Bench.solution "c" [0%R]] in
  overwrites (Bench.arm None []) /\
  pg <> [] /\
  fst (filterGraspsInCollision pg tt (Bench.arm None []) [] true Bench.fresh) =
  (true, filter (fun g => negb (grasp_in_collision tt (Bench.arm None []) [] true g)) pg).
Proof.
  cbv zeta. split; [apply bench_overwrites|]. split; [discriminate|].
  apply (@filterGraspsInCollision_filters bench _ tt (Bench.arm None []) [] true Bench.fresh
           (bench_overwrites None [])).
  discriminate.
Defined.

Lemma chooseBestGrasp_selects_witness :
  let level := Bench.accepted "level" [] [] in
  In level [Bench.steep; level] /\
  Binary64.gt (yall level) (Binary64.Finite (-1)) = true /\
  exists before c after,
    chooseBestGrasp [Bench.steep; level] Bench.placeholder = (true, c) /\
    [Bench.steep; level] = before ++ c :: after /\
    Binary64.gt (yall c) (Binary64.Finite (-1)) = true /\
    (forall g, In g [Bench.steep; level] -> Binary64.gt (yall g) (yall c) = false) /\
    (forall g, In g before ->
       Binary64.gt (yall c) (yall g) = true \/ Binary64.is_nan (yall g) = true).
Proof.
  cbv zeta.
  assert (Hin : In (Bench.accepted "level" [] [])
                   [Bench.steep; Bench.accepted "level" [] []]) by (right; now left).
  assert (Hgt : Binary64.gt (yall (Bench.accepted "level" [] []))
                            (Binary64.Finite (-1)) = true) by (vm_compute; reflexivity).
  split; [exact Hin|]. split; [exact Hgt|].
  exact (@chooseBestGrasp_selects bench [Bench.steep; Bench.accepted "level" [] []]
           Bench.placeholder (Bench.accepted "level" [] []) Hin Hgt).
Defined.

Lemma create_threads_balanced_witness :
  let pg := Bench.ten_candidates in
  let solvers := [Some "world"; Some "world"; Some "world"]%string in
  1 <= 3 <= length pg /\
  (3 * Z.of_nat (length pg) * Z.of_nat 3 < 2 ^ 53)%Z /\
  length solvers = 3 /\
  exists threads,
    create_threads pg unassigned_Affine3d solvers true None 0%R false
                   (Double.div (Double.of_nat (length pg)) (Double.of_nat 3)) 3 0 0 =
    Returns threads /\
    forall tc, In tc threads ->
      (1 <= Z.of_nat (length pg) / Z.of_nat 3 <=
       grasps_id_end_ tc - grasps_id_start_ tc)%Z.
Proof.
  cbv zeta.
  assert (H2 : 1 <= 3 <= length Bench.ten_candidates) by (simpl; lia).
  assert (H3 : (3 * Z.of_nat (length Bench.ten_candidates) * Z.of_nat 3 < 2 ^ 53)%Z)
    by reflexivity.
  assert (H4 : length [Some "world"; Some "world"; Some "world"]%string = 3) by reflexivity.
  split; [exact H2|]. split; [exact H3|]. split; [exact H4|].
  exact (@create_threads_balanced bench Bench.ten_candidates unassigned_Affine3d
           [Some "world"; Some "world"; Some "world"]%string true None 0%R false 3
           H2 H3 H4).
Defined.

Lemma filterGrasps_null_solver_witness :
  let arm_jmg := Bench.arm None ["gripper"%string] in
  [Bench.candidate "1"] <> [] /\
  getAttachedEndEffectorNames arm_jmg = ["gripper"%string] /\
  getSolverInstance arm_jmg = None /\
  1 <= hardware_concurrency /\
  length (kin_solvers_ Bench.fresh (getName arm_jmg)) <>
  threads_used [Bench.candidate "1"] false /\
  filterGrasps [Bench.candidate "1"] [] true arm_jmg Bench.fresh = Undefined.
Proof.
  cbv zeta.
  assert (H1 : [Bench.candidate "1"] <> []) by discriminate.
  assert (H4 : 1 <= hardware_concurrency) by (simpl; lia).
  assert (H5 : length (kin_solvers_ Bench.fresh (getName (Bench.arm None ["gripper"%string])))
               <> threads_used [Bench.candidate "1"] false) by (vm_compute; discriminate).
  split; [exact H1|]. split; [reflexivity|]. split; [reflexivity|].
  split; [exact H4|]. split; [exact H5|].
  exact (@filterGrasps_null_solver bench [Bench.candidate "1"] [] true
           (Bench.arm None ["gripper"%string]) Bench.fresh "gripper"%string
           H1 eq_refl eq_refl H4 H5).
Defined.

Lemma filterGrasps_without_hardware_concurrency_witness :
  let arm_jmg := Bench.arm (Some "world"%string) ["gripper"%string] in
  [Bench.candidate "1"] <> [] /\
  getAttachedEndEffectorNames arm_jmg = ["gripper"%string] /\
  @hardware_concurrency bench_without_threads = 0 /\
  @filterGrasps bench_without_threads [Bench.candidate "1"] [] true arm_jmg
                (@GraspFilter_ bench_without_threads [] 0%R 0) = Undefined.
Proof.
  cbv zeta.
  assert (H1 : [Bench.candidate "1"] <> []) by discriminate.
  split; [exact H1|]. split; [reflexivity|]. split; [reflexivity|].
  exact (@filterGrasps_without_hardware_concurrency bench_without_threads
           [Bench.candidate "1"] [] true (Bench.arm (Some "world"%string) ["gripper"%string])
           (@GraspFilter_ bench_without_threads [] 0%R 0) "gripper"%string
           H1 eq_refl eq_refl).
Defined.

Lemma filterGrasps_sound_witness :
  let arm_jmg := Bench.arm (Some "world"%string) ["gripper"%string] in
  let run := filterGrasps Bench.five_candidates [] true arm_jmg Bench.fresh in
  run = Returns (true, Bench.solutions_of run, Bench.object_after run) /\
  exists ee_name,
    getAttachedEndEffectorNames arm_jmg = [ee_name] /\
    Forall (feasible Bench.five_candidates true (getJointModelGroup arm_jmg ee_name)
                     (getDefaultIKTimeout arm_jmg)) (Bench.solutions_of run) /\
    (exists es, console (Bench.object_after run) =
                es ++ [run_report (length (Bench.solutions_of run))
                                  (length Bench.five_candidates)]) /\
    ((3 * Z.of_nat (length Bench.five_candidates) * Z.of_nat hardware_concurrency
      < 2 ^ 53)%Z ->
     length (Bench.solutions_of run) <= length Bench.five_candidates).
Proof.
  cbv zeta.
  assert (H : filterGrasps Bench.five_candidates [] true
                (Bench.arm (Some "world"%string) ["gripper"%string]) Bench.fresh =
              Returns (true,
                       Bench.solutions_of
                         (filterGrasps Bench.five_candidates [] true
                            (Bench.arm (Some "world"%string) ["gripper"%string])
                            Bench.fresh),
                       Bench.object_after
                         (filterGrasps Bench.five_candidates [] true
                            (Bench.arm (Some "world"%string) ["gripper"%string])
                            Bench.fresh)))
    by (vm_compute; reflexivity).
  split; [exact H|].
  exact (@filterGrasps_sound bench Bench.five_candidates [] true
           (Bench.arm (Some "world"%string) ["gripper"%string]) Bench.fresh _ _ H).
Defined.

Lemma filterGrasps_returns_witness :
  let arm_jmg := Bench.arm (Some "world"%string) ["gripper"%string] in
  Bench.five_candidates <> [] /\
  getAttachedEndEffectorNames arm_jmg = ["gripper"%string] /\
  1 <= hardware_concurrency /\
  getSolverInstance arm_jmg <> None /\
  (true = true -> getJointModelGroup arm_jmg "gripper"%string <> None) /\
  solvers_not_null arm_jmg Bench.fresh /\
  exists result filtered_grasps' gf',
    filterGrasps Bench.five_candidates [] true arm_jmg Bench.fresh =
    Returns (result, filtered_grasps', gf').
Proof.
  cbv zeta.
  assert (H1 : Bench.five_candidates <> []) by discriminate.
  assert (H3 : 1 <= hardware_concurrency) by (simpl; lia).
  assert (H4 : getSolverInstance (Bench.arm (Some "world"%string) ["gripper"%string]) <> None)
    by discriminate.
  assert (H5 : true = true ->
               getJointModelGroup (Bench.arm (Some "world"%string) ["gripper"%string])
                                  "gripper"%string <> None)
    by (intros _; discriminate).
  assert (H6 : solvers_not_null (Bench.arm (Some "world"%string) ["gripper"%string])
                                Bench.fresh) by constructor.
  split; [exact H1|]. split; [reflexivity|]. split; [exact H3|]. split; [exact H4|].
  split; [exact H5|]. split; [exact H6|].
  exact (@filterGrasps_returns bench Bench.five_candidates [] true
           (Bench.arm (Some "world"%string) ["gripper"%string]) Bench.fresh
           "gripper"%string H1 eq_refl H3 H4 H5 H6).
Defined.

Lemma filterGrasps_failure_output_witness :
  let arm_jmg := Bench.arm (Some "world"%string) [] in
  let stale := [Bench.accepted "stale" [] []] in
  let run := filterGrasps Bench.five_candidates stale true arm_jmg Bench.fresh in
  run = Returns (false, stale, Bench.object_after run) /\
  (((Bench.five_candidates = [] \/ length (getAttachedEndEffectorNames arm_jmg) <> 1) /\
    stale = stale /\
    kin_solvers_ (Bench.object_after run) = kin_solvers_ Bench.fresh /\
    stage_runs (console (Bench.object_after run)) = stage_runs (console Bench.fresh)) \/
   (Bench.five_candidates <> [] /\ length (getAttachedEndEffectorNames arm_jmg) = 1 /\
    stale = [])).
Proof.
  cbv zeta.
  assert (H : filterGrasps Bench.five_candidates [Bench.accepted "stale" [] []] true
                (Bench.arm (Some "world"%string) []) Bench.fresh =
              Returns (false, [Bench.accepted "stale" [] []],
                       Bench.object_after
                         (filterGrasps Bench.five_candidates [Bench.accepted "stale" [] []]
                            true (Bench.arm (Some "world"%string) []) Bench.fresh)))
    by (vm_compute; reflexivity).
  split; [exact H|].
  exact (@filterGrasps_failure_output bench Bench.five_candidates
           [Bench.accepted "stale" [] []] true (Bench.arm (Some "world"%string) [])
           Bench.fresh _ _ H).
Defined.

Lemma filterGrasps_on_new_object_witness :
  let arm_jmg := Bench.arm (Some "world"%string) ["gripper"%string] in
  Bench.five_candidates <> [] /\
  getAttachedEndEffectorNames arm_jmg = ["gripper"%string] /\
  1 <= hardware_concurrency /\
  getSolverInstance arm_jmg <> None /\
  (true = true -> getJointModelGroup arm_jmg "gripper"%string <> None) /\
  exists result filtered_grasps' gf',
    filterGrasps Bench.five_candidates [] true arm_jmg (GraspFilter_ [] 7%R 3) =
    Returns (result, filtered_grasps', gf') /\
    filterGrasps Bench.five_candidates [] true arm_jmg (GraspFilter_ [] 0%R 0) =
    Returns (result, filtered_grasps', gf') /\
    robot_state_ gf' = [] /\
    solver_timeout_ gf' = getDefaultIKTimeout arm_jmg /\
    num_variables_ gf' = getVariableCount arm_jmg.
Proof.
  cbv zeta.
  assert (H1 : Bench.five_candidates <> []) by discriminate.
  assert (H3 : 1 <= hardware_concurrency) by (simpl; lia).
  assert (H4 : getSolverInstance (Bench.arm (Some "world"%string) ["gripper"%string]) <> None)
    by discriminate.
  assert (H5 : true = true ->
               getJointModelGroup (Bench.arm (Some "world"%string) ["gripper"%string])
                                  "gripper"%string <> None)
    by (intros _; discriminate).
  split; [exact H1|]. split; [reflexivity|]. split; [exact H3|]. split; [exact H4|].
  split; [exact H5|].
  exact (@filterGrasps_on_new_object bench [] 7%R 3 0%R 0 Bench.five_candidates [] true
           (Bench.arm (Some "world"%string) ["gripper"%string]) "gripper"%string
           H1 eq_refl H3 H4 H5).
Defined.

Lemma stages_in_sequence_witness :
  let arm_jmg := Bench.arm (Some "world"%string) ["gripper"%string] in
  let zero := 0%R in
  let filtered_grasps :=
    [Bench.accepted "1" [zero] [zero; zero];
     Bench.accepted "2" [zero; zero] [zero; zero; zero];
     Bench.accepted "4" [zero] [zero; zero];
     Bench.accepted "5" [zero; zero] [zero; zero; zero]] in
  let pruned :=
    [Bench.accepted "2" [zero; zero] [zero; zero; zero];
     Bench.accepted "5" [zero; zero] [zero; zero; zero]] in
  let best := Bench.accepted "2" [zero; zero] [zero; zero; zero] in
  let stage_a := filterGrasps Bench.five_candidates [] true arm_jmg Bench.fresh in
  let stage_b := filterGraspsInCollision filtered_grasps tt arm_jmg [] false
                                         (Bench.object_after stage_a) in
  overwrites arm_jmg /\
  stage_a = Returns (true, filtered_grasps, Bench.object_after stage_a) /\
  stage_b = (true, pruned, snd stage_b) /\
  chooseBestGrasp pruned Bench.placeholder = (true, best) /\
  (best = Bench.placeholder \/
   (exists ee_name,
       feasible Bench.five_candidates true (getJointModelGroup arm_jmg ee_name)
                (getDefaultIKTimeout arm_jmg) best) /\
   grasp_in_collision tt arm_jmg [] false best = false /\
   Binary64.gt (yall best) (Binary64.Finite (-1)) = true /\
   forall g, In g pruned -> Binary64.gt (yall g) (yall best) = false).
Proof.
  cbv zeta.
  set (arm_jmg := Bench.arm (Some "world"%string) ["gripper"%string]).
  set (filtered_grasps :=
         [Bench.accepted "1" [0%R] [0%R; 0%R];
          Bench.accepted "2" [0%R; 0%R] [0%R; 0%R; 0%R];
          Bench.accepted "4" [0%R] [0%R; 0%R];
          Bench.accepted "5" [0%R; 0%R] [0%R; 0%R; 0%R]]).
  set (pruned :=
         [Bench.accepted "2" [0%R; 0%R] [0%R; 0%R; 0%R];
          Bench.accepted "5" [0%R; 0%R] [0%R; 0%R; 0%R]]).
  set (best := Bench.accepted "2" [0%R; 0%R] [0%R; 0%R; 0%R]).
  set (stage_a := @filterGrasps bench Bench.five_candidates [] true arm_jmg Bench.fresh).
  set (stage_b := @filterGraspsInCollision bench filtered_grasps tt arm_jmg [] false
                                           (Bench.object_after stage_a)).
  assert (HA : stage_a = Returns (true, filtered_grasps, Bench.object_after stage_a))
    by (vm_compute; reflexivity).
  assert (HB : stage_b = (true, pruned, snd stage_b)) by (vm_compute; reflexivity).
  assert (HS : chooseBestGrasp pruned Bench.placeholder = (true, best))
    by (vm_compute; reflexivity).
  split; [apply bench_overwrites|]. split; [exact HA|]. split; [exact HB|].
  split; [exact HS|].
  exact (@stages_in_sequence bench Bench.five_candidates [] true arm_jmg Bench.fresh
           filtered_grasps (Bench.object_after stage_a) tt [] false pruned (snd stage_b)
           Bench.placeholder best (bench_overwrites (Some "world"%string) ["gripper"%string])
           HA HB HS).
Defined.

Lemma filterGraspsInCollision_single_pass_witness :
  let pg := [Bench.solution "a" [0%R; 0%R]; Bench.solution "b" []] in
  pg <> [] /\
  (false = true \/
   snd (fst (filterGraspsInCollisionHelper pg tt (Bench.arm None []) [] false Bench.fresh))
   <> []) /\
  filterGraspsInCollision pg tt (Bench.arm None []) [] false Bench.fresh =
  filterGraspsInCollisionHelper pg tt (Bench.arm None []) [] false Bench.fresh.
Proof.
  cbv zeta.
  assert (H1 : [Bench.solution "a" [0%R; 0%R]; Bench.solution "b" []] <> [])
    by discriminate.
  assert (H2 : false = true \/
               snd (fst (filterGraspsInCollisionHelper
                           [Bench.solution "a" [0%R; 0%R]; Bench.solution "b" []]
                           tt (Bench.arm None []) [] false Bench.fresh)) <> [])
    by (right; vm_compute; discriminate).
  split; [exact H1|]. split; [exact H2|].
  exact (@filterGraspsInCollision_single_pass bench _ tt (Bench.arm None []) [] false
           Bench.fresh H1 H2).
Defined.

Lemma filterGrasps_single_run_witness :
  let arm_jmg := Bench.arm (Some "world"%string) ["gripper"%string] in
  let zero := 0%R in
  let found :=
    [Bench.accepted "1" [zero] [zero; zero];
     Bench.accepted "2" [zero; zero] [zero; zero; zero];
     Bench.accepted "4" [zero] [zero; zero];
     Bench.accepted "5" [zero; zero] [zero; zero; zero]] in
  let first_run :=
    filterGraspsHelper Bench.five_candidates [] true
                       (getJointModelGroup arm_jmg "gripper"%string) arm_jmg false
                       (prepared arm_jmg Bench.fresh) in
  Bench.five_candidates <> [] /\
  getAttachedEndEffectorNames arm_jmg = ["gripper"%string] /\
  first_run = Returns (true, found, Bench.object_after first_run) /\
  found <> [] /\
  filterGrasps Bench.five_candidates [] true arm_jmg Bench.fresh =
  Returns (true, found, Bench.object_after first_run) /\
  stage_runs (console (Bench.object_after first_run)) =
  S (stage_runs (console Bench.fresh)).
Proof.
  cbv zeta.
  set (arm_jmg := Bench.arm (Some "world"%string) ["gripper"%string]).
  set (found :=
         [Bench.accepted "1" [0%R] [0%R; 0%R];
          Bench.accepted "2" [0%R; 0%R] [0%R; 0%R; 0%R];
          Bench.accepted "4" [0%R] [0%R; 0%R];
          Bench.accepted "5" [0%R; 0%R] [0%R; 0%R; 0%R]]).
  set (first_run :=
         @filterGraspsHelper bench Bench.five_candidates [] true
           (getJointModelGroup arm_jmg "gripper"%string) arm_jmg false
           (prepared arm_jmg Bench.fresh)).
  assert (H1 : Bench.five_candidates <> []) by discriminate.
  assert (H3 : first_run = Returns (true, found, Bench.object_after first_run))
    by (vm_compute; reflexivity).
  assert (H4 : found <> []) by discriminate.
  split; [exact H1|]. split; [reflexivity|]. split; [exact H3|]. split; [exact H4|].
  exact (@filterGrasps_single_run bench Bench.five_candidates [] true arm_jmg Bench.fresh
           "gripper"%string found (Bench.object_after first_run) H1 eq_refl H3 H4).
Defined.
